(** * Teacher-ensemble vote aggregation (netflix_aggregation.py)

    A shallow embedding of [labels_from_probs], [noisy_max] and
    [aggregation_most_frequent], together with the NumPy primitives they
    call ([np.bincount], [np.argmax], [np.zeros], [np.asarray] casts and
    the process-wide Laplace sampler), and the properties of the
    aggregation step that the design document states.

    Conventions of the model
    - integer arrays hold mathematical integers ([Z]); casts to [int32]
      write the two's-complement wrap-around out;
    - floating-point values are IEEE-754 binary floats ([spec_float]),
      binary32 with [prec = 24], [emax = 128] and binary64 with
      [prec = 53], [emax = 1024], rounded to nearest even;
    - arrays are stored flat in row-major (C) order next to their shape;
      an array that NumPy itself accepts (fewer than [2 ^ 60] 8-byte
      elements) is taken to fit into the memory of the machine, and the
      properties that count votes bound the entries by [2 ^ 31], the
      range of the int32 labels;
    - Python code runs in a monad that threads the interpreter-wide state
      (the NumPy random generator and the standard output) and that keeps
      this state when an exception is raised;
    - the source fixes no NumPy release: the state records which of the
      two rules for mixing a float32 element with a Python float the
      installed release follows, and the properties hold for both. *)

From Stdlib Require Import ZArith List Lia Bool.
From Stdlib Require Import Floats.SpecFloat.
From stdpp Require Import base tactics option list.

Local Open Scope Z_scope.

(** ** Floating point *)

Module Float.

Definition f32_prec : Z := 24.
Definition f32_emax : Z := 128.
Definition f64_prec : Z := 53.
Definition f64_emax : Z := 1024.

(** [(float)z] and [(double)z] for an integer [z]. *)
Definition of_Z (prec emax : Z) (z : Z) : spec_float :=
  binary_normalize prec emax z 0 false.

Definition f32_of_Z : Z -> spec_float := of_Z f32_prec f32_emax.
Definition f64_of_Z : Z -> spec_float := of_Z f64_prec f64_emax.

(** Conversion of a float to the format [(prec, emax)]. *)
Definition convert (prec emax : Z) (x : spec_float) : spec_float :=
  match x with
  | S754_finite s m e => binary_round prec emax s m e
  | _ => x
  end.

Definition is_nan (x : spec_float) : bool :=
  match x with S754_nan => true | _ => false end.

(** The integer part of a finite float (rounding toward zero). *)
Definition trunc (x : spec_float) : option Z :=
  match x with
  | S754_zero _ => Some 0
  | S754_finite s m e =>
      Some (cond_Zopp s (if 0 <=? e then Z.pos m * 2 ^ e
                         else Z.pos m / 2 ^ (- e)))
  | _ => None
  end.

(** The integer that a float is equal to, for a float that is equal to
    one. *)
Definition to_Z (x : spec_float) : option Z :=
  match x with
  | S754_zero _ => Some 0
  | S754_finite s m e =>
      if 0 <=? e then Some (cond_Zopp s (Z.pos m * 2 ^ e))
      else if Z.pos m mod 2 ^ (- e) =? 0
           then Some (cond_Zopp s (Z.pos m / 2 ^ (- e)))
           else None
  | _ => None
  end.

(** Order on floats: [x <= y] and [x < y] as the hardware decides them
    (false as soon as one side is a NaN). *)
Definition leb : spec_float -> spec_float -> bool := SFleb.
Definition ltb : spec_float -> spec_float -> bool := SFltb.

End Float.

#[global] Instance spec_float_inhabited : Inhabited spec_float :=
  populate (S754_zero false).

(** ** Fixed-width integers *)

Definition int32_min : Z := - 2 ^ 31.
Definition int32_max : Z := 2 ^ 31 - 1.

Definition in_int32 (z : Z) : Prop := int32_min <= z <= int32_max.

(** Two's-complement wrap-around of an integer to 32 bits. *)
Definition wrap_int32 (z : Z) : Z := (z + 2 ^ 31) mod 2 ^ 32 - 2 ^ 31.

(** The cast [float64 -> int32] of [np.asarray(..., dtype=np.int32)]:
    truncation toward zero. Out of range and for NaN and infinities the C
    cast is undefined; the value the x86 conversion gives is used. *)
Definition f64_to_int32 (x : spec_float) : Z :=
  match Float.trunc x with
  | Some z => if (int32_min <=? z) && (z <=? int32_max) then z else int32_min
  | None => int32_min
  end.

(** ** The interpreter state and the monad of Python computations *)

Inductive exception : Type :=
| ValueError.

(** The type NumPy gives to the sum of a float32 scalar and a Python
    float: float64 up to the releases 1.x (both operands are scalars, the
    Python float counts as a float64), float32 from the release 2.0 on
    (NEP 50: the Python float is converted to the type of the other
    operand). *)
Inductive scalar_promotion : Type :=
| Legacy
| Weak.

(** [rng scale k] is the [k]-th sample the process-wide generator returns
    when asked for a Laplace variate of location 0 and scale [scale];
    [rng_pos] counts the samples drawn so far. The sampler checks its
    argument itself and raises on a scale that [rng_accepts] rejects (a
    negative scale in every NumPy release, a zero scale too in the early
    ones). [stdout] records the pairs substituted into the progress
    message, most recent first. [promotion] is the rule of the installed
    NumPy release for the sum of a float32 and a Python float. *)
Record world : Type := World {
  rng : spec_float -> nat -> spec_float;
  rng_accepts : spec_float -> bool;
  rng_pos : nat;
  stdout : list (Z * Z);
  promotion : scalar_promotion
}.

Definition M (A : Type) : Type := world -> (exception + A) * world.

Definition ret {A} (a : A) : M A := fun w => (inr a, w).

Definition raise {A} (e : exception) : M A := fun w => (inl e, w).

Definition bind {A B} (m : M A) (f : A -> M B) : M B :=
  fun w => match m w with
           | (inr a, w') => f a w'
           | (inl e, w') => (inl e, w')
           end.

Definition lift {A} (r : exception + A) : M A := fun w => (r, w).

Notation "'do' x <- m ; k" := (bind m (fun x => k))
  (at level 10, x name, m at level 100, k at level 200,
   format "'[v' 'do'  x  <-  m ; '/' k ']'").
Notation "'do' ' p <- m ; k" := (bind m (fun x => let 'p := x in k))
  (at level 10, p pattern, m at level 100, k at level 200,
   format "'[v' 'do'  ' p  <-  m ; '/' k ']'").

(** [for x in l: s = body(x, s)] *)
Fixpoint for_each {A S} (l : list A) (body : A -> S -> M S) (s : S) : M S :=
  match l with
  | [] => ret s
  | a :: l' => do s' <- body a s; for_each l' body s'
  end.

(** [xrange(n)] *)
Definition xrange (n : nat) : list nat := seq 0 n.

(** [np.random.laplace(loc=0.0, scale=scale)] *)
Definition np_random_laplace (scale : spec_float) : M spec_float :=
  fun w => if rng_accepts w scale
           then (inr (rng w scale (rng_pos w)),
                 World (rng w) (rng_accepts w) (S (rng_pos w)) (stdout w)
                       (promotion w))
           else (inl ValueError, w).

(** [print("Aggregated results from users %s to %s" % (a, b))] *)
Definition print (a b : Z) : M unit :=
  fun w => (inr tt,
            World (rng w) (rng_accepts w) (rng_pos w) ((a, b) :: stdout w)
                  (promotion w)).

(** ** NumPy primitives *)

(** The number of 8-byte integers from which NumPy refuses to create an
    array ("array is too big"): its size in bytes would not fit a signed
    64-bit integer. *)
Definition bin_limit : Z := 2 ^ 60.

(** [np.bincount(x, minlength)]: a negative entry raises; otherwise the
    output has [max(amax(x) + 1, minlength)] bins, which raises when that
    many bins make an array that is too big, and bin [v] is incremented
    once for each occurrence of [v] in [x]. Below [bin_limit] the bins are
    taken to fit into the memory of the machine. *)
Definition bincount_bins (x : list Z) (minlength : nat) : Z :=
  Z.max (foldr Z.max (-1) x + 1) (Z.of_nat minlength).

Definition bincount_size (x : list Z) (minlength : nat) : nat :=
  Z.to_nat (bincount_bins x minlength).

Definition bincount_step (ans : list Z) (v : Z) : list Z :=
  <[Z.to_nat v := ans !!! Z.to_nat v + 1]> ans.

Definition np_bincount (x : list Z) (minlength : nat) : exception + list Z :=
  if existsb (fun v => v <? 0) x then inl ValueError
  else if bin_limit <=? bincount_bins x minlength then inl ValueError
  else inr (foldl bincount_step (replicate (bincount_size x minlength) 0) x).

(** The slice [a[lo:hi]] for [0 <= lo <= hi]. *)
Definition slice {A} (lo hi : nat) (a : list A) : list A :=
  take (hi - lo) (drop lo a).

(** [np.argmax] of a one-dimensional integer array: the first position
    holding the maximum; an empty array raises. *)
Fixpoint argmax_int_loop (mp : Z) (best i : Z) (l : list Z) : Z :=
  match l with
  | [] => best
  | x :: l' => if mp <? x then argmax_int_loop x i (i + 1) l'
               else argmax_int_loop mp best (i + 1) l'
  end.

Definition np_argmax_int (l : list Z) : exception + Z :=
  match l with
  | [] => inl ValueError
  | x :: l' => inr (argmax_int_loop x 0 1 l')
  end.

(** [np.argmax] of a one-dimensional floating-point array: the scan
    replaces the running maximum [mp] by [x] when [x <= mp] fails, and
    stops at the first NaN. *)
Fixpoint argmax_float_loop (mp : spec_float) (best i : Z)
    (l : list spec_float) : Z :=
  match l with
  | [] => best
  | x :: l' =>
      if Float.leb x mp then argmax_float_loop mp best (i + 1) l'
      else if Float.is_nan x then i
           else argmax_float_loop x i (i + 1) l'
  end.

Definition np_argmax_float (l : list spec_float) : exception + Z :=
  match l with
  | [] => inl ValueError
  | x :: l' => inr (if Float.is_nan x then 0
                    else argmax_float_loop x 0 1 l')
  end.

(** [np.zeros(n)], flat, of dtype float64. *)
Definition np_zeros (n : nat) : list spec_float :=
  replicate n (S754_zero false).

(** ** Arrays *)

(** A prediction tensor of shape [(T, N, S)] and integer dtype. *)
Record tensor3 : Type := Tensor3 {
  dimT : nat;
  dimN : nat;
  dimS : nat;
  data3 : list Z
}.

Definition wf_tensor3 (p : tensor3) : Prop :=
  length (data3 p) = (dimT p * dimN p * dimS p)%nat.

(** [predictions[t, i, j]] *)
Definition get3 (p : tensor3) (t i j : nat) : Z :=
  data3 p !!! (t * (dimN p * dimS p) + (i * dimS p + j))%nat.

(** [predictions[:, i, j]] *)
Definition column (p : tensor3) (i j : nat) : list Z :=
  map (fun t => get3 p t i j) (xrange (dimT p)).

(** An array of shape [(rows, cols)] and dtype int32. *)
Record label_tensor : Type := LabelTensor {
  rows : nat;
  cols : nat;
  labels : list Z
}.

(** An array of shape [(5, N, S)] and dtype float64. *)
Record votes_tensor : Type := VotesTensor {
  vN : nat;
  vS : nat;
  votes : list spec_float
}.

(** [clean_votes[c, i, j]] *)
Definition get_votes (v : votes_tensor) (c i j : nat) : option spec_float :=
  votes v !! (c * (vN v * vS v) + (i * vS v + j))%nat.

(** [result[i, j]] *)
Definition get_label (r : label_tensor) (i j : nat) : option Z :=
  labels r !! (i * cols r + j)%nat.

(** An array whose last axis has length [last_dim] and whose leading axes
    have the lengths [lead_shape]; floating-point scores. *)
Record score_array : Type := ScoreArray {
  lead_shape : list nat;
  last_dim : nat;
  scores : list spec_float
}.

Definition lead_size (a : score_array) : nat := foldr Nat.mul 1%nat (lead_shape a).

Definition wf_score_array (a : score_array) : Prop :=
  length (scores a) = (lead_size a * last_dim a)%nat.

(** An integer array of dtype int32 with the shape [ishape]. *)
Record int_array : Type := IntArray {
  ishape : list nat;
  idata : list Z
}.

(** The [n] consecutive rows of length [K] of a flat array. *)
Fixpoint chunks {A} (K n : nat) (l : list A) : list (list A) :=
  match n with
  | O => []
  | S n' => take K l :: chunks K n' (drop K l)
  end.

(** [f] on every element, stopping at the first exception. *)
Fixpoint map_exc {A B} (f : A -> exception + B) (l : list A)
    : exception + list B :=
  match l with
  | [] => inr []
  | a :: l' =>
      match f a with
      | inl e => inl e
      | inr b => match map_exc f l' with
                 | inl e => inl e
                 | inr bs => inr (b :: bs)
                 end
      end
  end.

(** ** The functions of netflix_aggregation.py *)

(** [np.argmax(a, axis=len(a.shape) - 1)]: the reduction raises on an
    empty last axis, whether or not the array has a row; otherwise every
    row gives a position. *)
Definition np_argmax_last_axis (a : score_array) : exception + list Z :=
  if (last_dim a =? 0)%nat then inl ValueError
  else map_exc np_argmax_float
         (chunks (last_dim a) (lead_size a) (scores a)).

(** [labels_from_probs(probs)] *)
Definition labels_from_probs (probs : score_array) : M int_array :=
  (* labels = np.argmax(probs, axis=last_axis) *)
  do labels <- lift (np_argmax_last_axis probs);
  (* return np.asarray(labels, dtype=np.int32) *)
  ret (IntArray (lead_shape probs) (map wrap_int32 labels)).

(** [np.bincount(predictions[:,i,j], minlength=6)[1:6]] *)
Definition label_counts_at (predictions : tensor3) (i j : nat)
    : exception + list Z :=
  match np_bincount (column predictions i j) 6 with
  | inl e => inl e
  | inr b => inr (slice 1 6 b)
  end.

(** [clean_votes[:,i,j] = label_counts] on the flat float64 array of shape
    [(5, N, S)]. *)
Definition set_votes_column (clean_votes : list spec_float) (N S i j : nat)
    (label_counts : list Z) : list spec_float :=
  foldl (fun cv c =>
           <[(c * (N * S) + (i * S + j))%nat
               := Float.f64_of_Z (label_counts !!! c)]> cv)
        clean_votes (xrange (length label_counts)).

(** [x + noise] for an element [x] of a float32 array and a Python float
    [noise], stored back into the float32 array. Under the legacy rule the
    sum is taken in binary64 and rounded to binary32 by the store; under
    the weak rule [noise] is rounded to binary32 and the sum is taken in
    binary32. *)
Definition add_noise (rule : scalar_promotion) (x noise : spec_float)
    : spec_float :=
  match rule with
  | Legacy =>
      Float.convert Float.f32_prec Float.f32_emax
        (SFadd Float.f64_prec Float.f64_emax x noise)
  | Weak =>
      SFadd Float.f32_prec Float.f32_emax x
        (Float.convert Float.f32_prec Float.f32_emax noise)
  end.

(** The same as a step of the interpreter, which follows the rule of the
    installed NumPy. *)
Definition np_add_float32 (x noise : spec_float) : M spec_float :=
  fun w => (inr (add_noise (promotion w) x noise), w).

(** [label_counts[item] += np.random.laplace(loc=0.0, scale=lap_scale)] *)
Definition add_draw (lap_scale : spec_float) (item : nat)
    (label_counts : list spec_float) : M (list spec_float) :=
  do noise <- np_random_laplace lap_scale;
  do sum <- np_add_float32 (label_counts !!! item) noise;
  ret (<[item := sum]> label_counts).

(** The body of the inner loop of [noisy_max], for the sample [(i, j)]. *)
Definition noisy_max_sample (predictions : tensor3) (lap_scale : spec_float)
    (return_clean_votes : bool) (i j : nat)
    (st : list spec_float * option (list spec_float))
    : M (list spec_float * option (list spec_float)) :=
  let '(result, clean_votes) := st in
  let N := dimN predictions in
  let S := dimS predictions in
  do label_counts <- lift (label_counts_at predictions i j);
  let clean_votes :=
    if return_clean_votes
    then option_map (fun cv => set_votes_column cv N S i j label_counts)
                    clean_votes
    else clean_votes in
  (* label_counts = np.asarray(label_counts, dtype=np.float32) *)
  let label_counts := map Float.f32_of_Z label_counts in
  (* for item in xrange(5): label_counts[item] += np.random.laplace(...) *)
  do label_counts <- for_each (xrange 5) (add_draw lap_scale) label_counts;
  do a <- lift (np_argmax_float label_counts);
  ret (<[(i * S + j)%nat := Float.f64_of_Z (a + 1)]> result, clean_votes).

(** [noisy_max(predictions, lap_scale, return_clean_votes)]: the labels
    and, when asked for, the clean votes. *)
Definition noisy_max (predictions : tensor3) (lap_scale : spec_float)
    (return_clean_votes : bool) : M (label_tensor * option votes_tensor) :=
  let N := dimN predictions in
  let S := dimS predictions in
  let result := np_zeros (N * S) in
  let clean_votes :=
    if return_clean_votes then Some (np_zeros (5 * (N * S))) else None in
  do '(result, clean_votes) <-
    for_each (xrange N)
      (fun i st =>
         do _ <- (if (i mod 100 =? 0)%nat
                  then print (Z.of_nat i - 99) (Z.of_nat i)
                  else ret tt);
         for_each (xrange S)
           (noisy_max_sample predictions lap_scale return_clean_votes i) st)
      (result, clean_votes);
  (* result = np.asarray(result, dtype=np.int32) *)
  let result := LabelTensor N S (map f64_to_int32 result) in
  ret (result, option_map (VotesTensor N S) clean_votes).

(** The body of the inner loop of [aggregation_most_frequent]. *)
Definition most_frequent_sample (predictions : tensor3) (i j : nat)
    (result : list spec_float) : M (list spec_float) :=
  let S := dimS predictions in
  do label_counts <- lift (label_counts_at predictions i j);
  (* label_counts = np.asarray(label_counts, dtype=np.int32) *)
  let label_counts := map wrap_int32 label_counts in
  do a <- lift (np_argmax_int label_counts);
  ret (<[(i * S + j)%nat := Float.f64_of_Z (a + 1)]> result).

(** [aggregation_most_frequent(predictions)] *)
Definition aggregation_most_frequent (predictions : tensor3)
    : M label_tensor :=
  let N := dimN predictions in
  let S := dimS predictions in
  let result := np_zeros (N * S) in
  do result <-
    for_each (xrange N)
      (fun i result =>
         for_each (xrange S) (most_frequent_sample predictions i) result)
      result;
  ret (LabelTensor N S (map f64_to_int32 result)).

(** ** The design document's vote counter *)

(** [count_votes(predictions)[c, i, j]]: the number of teachers [t] with
    [predictions[t, i, j] = c + 1]. *)
Definition count_votes (predictions : tensor3) (c i j : nat) : Z :=
  Z.of_nat (length (filter (fun t => get3 predictions t i j = Z.of_nat (c + 1))
                           (xrange (dimT predictions)))).

(** The number of occurrences of [c] in [x]. *)
Definition occurrences (c : Z) (x : list Z) : Z :=
  Z.of_nat (length (filter (fun v => v = c) x)).

(** ** Specification vocabulary *)

(** The class-vote vector of a column: bins 1 to 5 of its histogram. *)
Definition class_counts (x : list Z) : list Z :=
  [occurrences 1 x; occurrences 2 x; occurrences 3 x;
   occurrences 4 x; occurrences 5 x].

(** [k] is the first position of [l] that holds a maximum of [l], for the
    order [le] with strict part [lt]. *)
Definition first_max {A} (le lt : A -> A -> Prop) (l : list A) (k : nat)
    : Prop :=
  exists x, l !! k = Some x /\
    (forall j y, l !! j = Some y -> le y x) /\
    (forall j y, (j < k)%nat -> l !! j = Some y -> lt y x).

Definition first_max_Z : list Z -> nat -> Prop := first_max Z.le Z.lt.

Definition first_max_float : list spec_float -> nat -> Prop :=
  first_max (fun x y => Float.leb x y = true) (fun x y => Float.ltb x y = true).

Definition no_nan (l : list spec_float) : Prop :=
  Forall (fun x => Float.is_nan x = false) l.


(** The vote vector of the sample [(i, j)] as the design document's vote
    counter gives it. *)
Definition votes_at (predictions : tensor3) (i j : nat) : list Z :=
  map (fun c => count_votes predictions c i j) (seq 0 5).

(** The samples the generator of [w] returns from its [pos]-th on. *)
Definition noise_from (w : world) (scale : spec_float) (pos : nat)
    : nat -> spec_float :=
  fun k => rng w scale (k + pos)%nat.

(** The samples that a generator in the state [w] will return next. *)
Definition upcoming_noise (w : world) (scale : spec_float)
    : nat -> spec_float :=
  noise_from w scale (rng_pos w).

(** The noisy scores of a sample: each count cast to float32, plus its own
    noise sample. *)
Definition noisy_counts (rule : scalar_promotion) (counts : list Z)
    (noise : nat -> spec_float) : list spec_float :=
  imap (fun k c => add_noise rule (Float.f32_of_Z c) (noise k)) counts.

(** The design document's noisy score of a class, in IEEE-754 arithmetic
    as the standard library specifies it: the count is cast to binary32
    (rounding to nearest even) and the draw, a binary64 number, is added
    to it. NumPy up to 1.x adds in binary64 and rounds the sum to binary32
    when it stores it; NumPy 2 rounds the draw to binary32 and adds in
    binary32. *)
Definition round_binary32 (x : spec_float) : spec_float :=
  match x with
  | S754_finite s m e => binary_round 24 128 s m e
  | _ => x
  end.

Definition noisy_score (rule : scalar_promotion) (count : Z)
    (draw : spec_float) : spec_float :=
  let x := binary_normalize 24 128 count 0 false in
  match rule with
  | Legacy => round_binary32 (SFadd 53 1024 x draw)
  | Weak => SFadd 24 128 x (round_binary32 draw)
  end.

(** The noisy scores of the five classes of the sample [(i, j)], when the
    draws of the sample are [draw 0], ..., [draw 4]. *)
Definition noisy_scores (rule : scalar_promotion) (p : tensor3) (i j : nat)
    (draw : nat -> spec_float) : list spec_float :=
  map (fun c => noisy_score rule (count_votes p c i j) (draw c)) (seq 0 5).

(** The position [np.argmax] selects, 0 on an empty array (where it
    raises). *)
Definition argmax_float_index (l : list spec_float) : Z :=
  match np_argmax_float l with inr a => a | inl _ => 0 end.

Definition argmax_int_index (l : list Z) : Z :=
  match np_argmax_int l with inr a => a | inl _ => 0 end.

(** The label [noisy_max] gives to a sample with the vote vector [counts]
    when the generator's next samples are [noise 0], [noise 1], ... *)
Definition noisy_label (rule : scalar_promotion) (counts : list Z)
    (noise : nat -> spec_float) : Z :=
  argmax_float_index (noisy_counts rule counts noise) + 1.

(** The label [aggregation_most_frequent] gives to a sample with the vote
    vector [counts]. *)
Definition most_frequent_label (counts : list Z) : Z :=
  argmax_int_index (map wrap_int32 counts) + 1.

(** The number of entries of a column that belong to no class: 0 and
    everything above 5. *)
Definition discarded (x : list Z) : Z :=
  Z.of_nat (length (filter (fun v => v = 0 \/ 5 < v) x)).

Definition sum_Z (l : list Z) : Z := foldr Z.add 0 l.

(** The flat result array holds [val i j] at every sample before the
    [k]-th of the row-major scan. *)
Definition filled {A} (S : nat) (val : nat -> nat -> A) (k : nat)
    (result : list A) : Prop :=
  forall i j, (j < S)%nat -> (i * S + j < k)%nat ->
    result !! (i * S + j)%nat = Some (val i j).

(** The same for the five class planes of the clean-votes array. *)
Definition votes_filled {A} (N S : nat) (val : nat -> nat -> nat -> A)
    (k : nat) (cv : list A) : Prop :=
  forall c i j, (c < 5)%nat -> (j < S)%nat -> (i * S + j < k)%nat ->
    cv !! (c * (N * S) + (i * S + j))%nat = Some (val c i j).

(** What the scans store for the sample [(i, j)]. *)
Definition most_frequent_value (p : tensor3) (i j : nat) : spec_float :=
  Float.f64_of_Z (most_frequent_label (class_counts (column p i j))).

Definition noisy_value (p : tensor3) (scale : spec_float) (w : world)
    (i j : nat) : spec_float :=
  Float.f64_of_Z
    (noisy_label (promotion w) (class_counts (column p i j))
       (noise_from w scale (5 * (i * dimS p + j) + rng_pos w))).

Definition clean_value (p : tensor3) (c i j : nat) : spec_float :=
  Float.f64_of_Z (class_counts (column p i j) !!! c).

(** An entry that [np.bincount] counts: it is not negative and its bin
    lies below the limit on the size of an array. *)
Definition countable (v : Z) : Prop := 0 <= v < bin_limit - 1.

(** Every column of the tensor can be counted. *)
Definition columns_countable (p : tensor3) : Prop :=
  forall i j, (i < dimN p)%nat -> (j < dimS p)%nat ->
    Forall countable (column p i j).

(** The state of [noisy_max] started in [w0] after [k] samples of the
    row-major scan. *)
Definition noisy_scan_inv (p : tensor3) (scale : spec_float) (rcv : bool)
    (w0 : world) (k : nat)
    (st : list spec_float * option (list spec_float)) (w : world) : Prop :=
  rng w = rng w0 /\
  rng_accepts w = rng_accepts w0 /\
  promotion w = promotion w0 /\
  rng_pos w = (5 * k + rng_pos w0)%nat /\
  length st.1 = (dimN p * dimS p)%nat /\
  filled (dimS p) (noisy_value p scale w0) k st.1 /\
  if rcv
  then exists cv, st.2 = Some cv /\
         length cv = (5 * (dimN p * dimS p))%nat /\
         votes_filled (dimN p) (dimS p) (clean_value p) k cv
  else st.2 = None.

(** The state of [aggregation_most_frequent] started in [w0] after [k]
    samples. *)
Definition most_frequent_scan_inv (p : tensor3) (w0 : world) (k : nat)
    (result : list spec_float) (w : world) : Prop :=
  w = w0 /\
  length result = (dimN p * dimS p)%nat /\
  filled (dimS p) (most_frequent_value p) k result.

(** A computation that neither reads nor writes the interpreter state. *)
Definition pure_comp {A} (m : M A) : Prop :=
  exists r, forall w, m w = (r, w).

(** ** Sample inputs *)

Module Samples.

Definition zero : spec_float := S754_zero false.
Definition one : spec_float := Float.f64_of_Z 1.

(** The argument check of [np.random.laplace] in the current releases: a
    scale is rejected when it is not a NaN and its sign bit is set. *)
Definition accepts (scale : spec_float) : bool :=
  match scale with
  | S754_zero s | S754_infinity s | S754_finite s _ _ => negb s
  | S754_nan => true
  end.

(** A generator whose second sample is 3.0 and whose other samples are
    0.0, nothing drawn or printed yet, in a NumPy 1.x. *)
Definition second_draw_high : world :=
  World (fun _ k => nth k [zero; Float.f64_of_Z 3] zero) accepts 0 [] Legacy.

(** A generator whose first samples are 0.0, 3.0 and 4.0 and whose other
    samples are 0.0, in a NumPy 1.x and in a NumPy 2. *)
Definition rising_draws : world :=
  World (fun _ k => nth k [zero; Float.f64_of_Z 3; Float.f64_of_Z 4] zero)
        accepts 0 [] Legacy.

Definition rising_draws_weak : world :=
  World (rng rising_draws) accepts 0 [] Weak.

(** Three teachers, one sample: votes 1, 2, 1. *)
Definition three_teachers : tensor3 := Tensor3 3 1 1 [1; 2; 1].

(** Two teachers, two groups of three samples. *)
Definition two_by_three : tensor3 :=
  Tensor3 2 2 3 [1; 2; 3; 4; 5; 5;
                 1; 3; 3; 2; 5; 1].

(** An empty teacher axis. *)
Definition no_teachers : tensor3 := Tensor3 0 1 1 [].

(** A label above the five classes. *)
Definition label_six : tensor3 := Tensor3 1 1 1 [6].

(** One teacher, two samples, the second one negative. *)
Definition late_negative : tensor3 := Tensor3 1 1 2 [1; -1].

(** [2 ^ 31] teachers that all vote for class 1. *)
Definition many_teachers : tensor3 :=
  Tensor3 (Z.to_nat (2 ^ 31)) 1 1 (replicate (Z.to_nat (2 ^ 31)) 1).

(** Two rows of three scores. *)
Definition two_rows : score_array :=
  ScoreArray [2%nat] 3 (map Float.f64_of_Z [1; 5; 5; 7; 2; 7]).

(** One row of [2 ^ 31 + 1] scores: zeros, then a one. *)
Definition long_row : score_array :=
  ScoreArray [] (Z.to_nat (2 ^ 31 - 1) + 2)
    (zero :: replicate (Z.to_nat (2 ^ 31 - 1)) zero ++ [one]).

End Samples.

(** ** Vocabulary for further properties *)

(** The progress messages [noisy_max] prints while it scans the groups
    [0 .. n - 1], most recent first. *)
Fixpoint progress_messages (n : nat) : list (Z * Z) :=
  match n with
  | O => []
  | S i => (if (i mod 100 =? 0)%nat
            then [(Z.of_nat i - 99, Z.of_nat i)] else [])
           ++ progress_messages i
  end.

(** What a call leaves of its outcome when the clean votes are dropped. *)
Definition labels_only {E W} (r : (E + label_tensor * option votes_tensor) * W)
    : (E + label_tensor) * W :=
  (match r.1 with inl e => inl e | inr (lab, _) => inr lab end, r.2).

(** The outcomes of two loop bodies agree: both raise the same exception
    or both return, with states related by [R], and they leave the same
    interpreter state. *)
Definition agree {S1 S2} (R : S1 -> S2 -> Prop)
    (r1 : (exception + S1) * world) (r2 : (exception + S2) * world) : Prop :=
  r1.2 = r2.2 /\
  match r1.1, r2.1 with
  | inl e1, inl e2 => e1 = e2
  | inr s1, inr s2 => R s1 s2
  | _, _ => False
  end.

(** The tensor [p] with one more teacher, whose labels for the [N * S]
    samples are [new_votes]. *)
Definition add_teacher (p : tensor3) (new_votes : list Z) : tensor3 :=
  Tensor3 (S (dimT p)) (dimN p) (dimS p) (data3 p ++ new_votes).

(** The prediction tensor of shape [(T, N, S)] made of the labels that
    [labels_from_probs] gives for scores of shape [(T, N, S, K)]. *)
Definition as_predictions (T N S : nat) (labels : int_array) : tensor3 :=
  Tensor3 T N S (idata labels).

(** A computation that prints nothing, whether it returns or raises. *)
Definition silent {A} (m : M A) : Prop :=
  forall w r w', m w = (r, w') -> stdout w' = stdout w.

(** The tensor [p] with its teachers taken in the order [sigma]: teacher
    [t] of the result is teacher [sigma[t]] of [p]. *)
Definition teacher_block (p : tensor3) (t : nat) : list Z :=
  take (dimN p * dimS p) (drop (t * (dimN p * dimS p)) (data3 p)).

Definition permute_teachers (sigma : list nat) (p : tensor3) : tensor3 :=
  Tensor3 (length sigma) (dimN p) (dimS p)
    (concat (map (teacher_block p) sigma)).

(** The rows of a score array along its last axis. *)
Definition score_rows (a : score_array) : list (list spec_float) :=
  chunks (last_dim a) (lead_size a) (scores a).

(** Two rows are ordered alike: they have the same length, a NaN at the
    same positions, and every entry compares with every earlier entry of
    its row as the entry at the same position of the other row does. *)
Fixpoint same_order (l1 l2 : list spec_float) : Prop :=
  match l1, l2 with
  | [], [] => True
  | x1 :: l1', x2 :: l2' =>
      Float.is_nan x2 = Float.is_nan x1 /\
      Forall2 (fun y1 y2 => Float.leb y2 x2 = Float.leb y1 x1) l1' l2' /\
      same_order l1' l2'
  | _, _ => False
  end.

(** [x] is the first NaN of [l], at position [k]. *)
Definition first_nan (l : list spec_float) (k : nat) : Prop :=
  (exists x, l !! k = Some x /\ Float.is_nan x = true) /\
  forall j y, (j < k)%nat -> l !! j = Some y -> Float.is_nan y = false.

Module MoreSamples.

(** Two teachers and no sample: a grid of two groups of no sample. *)
Definition no_samples : tensor3 := Tensor3 2 2 0 [].

(** A scale no release of the sampler accepts. *)
Definition minus_one : spec_float := Float.f64_of_Z (-1).

(** Three teachers, two samples. *)
Definition three_by_two : tensor3 := Tensor3 3 1 2 [1; 2; 3; 4; 1; 4].

(** Scores without a last axis to look at. *)
Definition no_scores : score_array := ScoreArray [2%nat] 0 [].

(** The same without a row: an array of shape [(0, 0)]. *)
Definition no_rows : score_array := ScoreArray [0%nat] 0 [].

(** A row with a NaN in second position. *)
Definition nan_row : score_array :=
  ScoreArray [] 3 [Float.f64_of_Z 7; S754_nan; Float.f64_of_Z 9].

End MoreSamples.

Module PipelineSamples.

(** The logits [Samples.two_rows] on another scale, each row on its own:
    the first row shifted, the second one squeezed. *)
Definition two_rows_rescaled : score_array :=
  ScoreArray [2%nat] 3 (map Float.f64_of_Z [-3; 1; 1; 1; 0; 1]).

(** Scores of two teachers for one group of two samples and three
    classes. *)
Definition two_teacher_scores : score_array :=
  ScoreArray [2%nat; 1%nat; 2%nat] 3
    (map Float.f64_of_Z [1; 9; 2;  8; 1; 1;
                         3; 3; 7;  0; 5; 5]).

End PipelineSamples.

Module TeacherSamples.

(** The votes of a fourth teacher for the two samples of
    [MoreSamples.three_by_two]. *)
Definition fourth_teacher : list Z := [2; 4].

End TeacherSamples.

Module PromotionSamples.

(** Half a unit in the last place of the float32 number 1.0, and a
    float64 number just above it: [2 ^ -24] and [2 ^ -24 + 2 ^ -50]. *)
Definition half_ulp : spec_float :=
  S754_finite false 4503599627370496 (-76).
Definition above_half_ulp : spec_float :=
  S754_finite false 4503599694479360 (-76).

(** Two teachers, one sample: one vote for class 1, one for class 2. *)
Definition two_votes : tensor3 := Tensor3 2 1 1 [1; 2].

(** A generator whose first samples are these two numbers, in a NumPy 1.x
    and in a NumPy 2. *)
Definition legacy_numpy : world :=
  World (fun _ k => nth k [half_ulp; above_half_ulp] Samples.zero)
        Samples.accepts 0 [] Legacy.

Definition numpy_2 : world :=
  World (rng legacy_numpy) Samples.accepts 0 [] Weak.

End PromotionSamples.

(** A zero of either sign. *)
Definition is_zero (x : spec_float) : bool :=
  match x with S754_zero _ => true | _ => false end.

Module NoiseSamples.

(** A generator whose samples are all zero. *)
Definition silent_generator : world :=
  World (fun _ _ => S754_zero true) Samples.accepts 7 [] Weak.

End NoiseSamples.
(** ** Reasoning about Python computations *)

Section Monad.
Context {A B : Type}.

Lemma bind_inr (m : M A) (f : A -> M B) w a w' :
  m w = (inr a, w') -> bind m f w = f a w'.
Proof. unfold bind. by intros ->. Qed.

Lemma bind_inl (m : M A) (f : A -> M B) w e w' :
  m w = (inl e, w') -> bind m f w = (inl e, w').
Proof. unfold bind. by intros ->. Qed.

Lemma bind_lift_inr (r : A) (f : A -> M B) w :
  bind (lift (inr r)) f w = f r w.
Proof. reflexivity. Qed.

Lemma bind_lift_inl e (f : A -> M B) w :
  bind (lift (inl e)) f w = (inl e, w).
Proof. reflexivity. Qed.
End Monad.

Section Loops.
Context {A S : Type}.
Implicit Types (l : list A) (body : A -> S -> M S).

Lemma for_each_app l1 l2 body s w :
  for_each (l1 ++ l2) body s w =
  (do s' <- for_each l1 body s; for_each l2 body s') w.
Proof.
  revert s w. induction l1 as [|a l1 IH]; intros s w; simpl.
  - reflexivity.
  - unfold bind in *.
    destruct (body a s w) as [[e|s'] w']; [reflexivity|].
    by rewrite IH.
Qed.

(** Total correctness of a loop whose iterations all return: an
    invariant indexed by the number of iterations done. *)
Lemma for_each_invariant (I : nat -> S -> world -> Prop) l body s w :
  I 0%nat s w ->
  (forall k a s w, l !! k = Some a -> I k s w ->
     exists s' w', body a s w = (inr s', w') /\ I (Datatypes.S k) s' w') ->
  exists s' w', for_each l body s w = (inr s', w') /\ I (length l) s' w'.
Proof.
  revert I s w. induction l as [|a l IH]; intros I s w H0 Hstep; simpl.
  - by exists s, w.
  - destruct (Hstep 0%nat a s w eq_refl H0) as (s1 & w1 & E1 & I1).
    rewrite (bind_inr _ _ _ _ _ E1).
    apply (IH (fun k => I (Datatypes.S k))); [done|].
    intros k x s2 w2 Hk. by apply Hstep.
Qed.

(** A loop that returns has passed every iteration's guard. *)
Lemma for_each_inr_guard (G : A -> Prop) l body s w s' w' :
  (forall a s w s' w', body a s w = (inr s', w') -> G a) ->
  for_each l body s w = (inr s', w') -> Forall G l.
Proof.
  intros HG. revert s w. induction l as [|a l IH]; intros s w; simpl.
  - by constructor.
  - unfold bind. destruct (body a s w) as [[e|s1] w1] eqn:E; [done|].
    intros H. constructor; eauto.
Qed.

(** The first iteration that raises ends the loop, with the state the
    earlier iterations left. *)
Lemma for_each_raises (I : nat -> S -> world -> Prop) (Q : world -> Prop)
    l1 a l2 body s w e :
  I 0%nat s w ->
  (forall k x s w, l1 !! k = Some x -> I k s w ->
     exists s' w', body x s w = (inr s', w') /\ I (Datatypes.S k) s' w') ->
  (forall s w, I (length l1) s w ->
     exists w', body a s w = (inl e, w') /\ Q w') ->
  exists w', for_each (l1 ++ a :: l2) body s w = (inl e, w') /\ Q w'.
Proof.
  intros H0 Hstep Hfail.
  destruct (for_each_invariant I l1 body s w H0 Hstep) as (s1 & w1 & E1 & I1).
  destruct (Hfail s1 w1 I1) as (w2 & E2 & HQ).
  exists w2. split; [|done].
  rewrite for_each_app, (bind_inr _ _ _ _ _ E1). simpl.
  by rewrite (bind_inl _ _ _ _ _ E2).
Qed.
End Loops.

Lemma xrange_lookup n k a : xrange n !! k = Some a -> a = k /\ (k < n)%nat.
Proof. unfold xrange. intros H%lookup_seq. lia. Qed.

Lemma xrange_length n : length (xrange n) = n.
Proof. apply length_seq. Qed.

Lemma xrange_head n : (0 < n)%nat -> xrange n = 0%nat :: seq 1 (n - 1).
Proof.
  intros Hn. unfold xrange. destruct n as [|n]; [lia|].
  simpl. by rewrite Nat.sub_0_r.
Qed.

Lemma for_each_cons {A S} (a : A) l (body : A -> S -> M S) s w :
  for_each (a :: l) body s w = bind (body a s) (for_each l body) w.
Proof. reflexivity. Qed.

Lemma xrange_split n k : (k < n)%nat ->
  xrange n = xrange k ++ k :: seq (Datatypes.S k) (n - k - 1).
Proof.
  intros Hk. unfold xrange.
  replace n with (k + Datatypes.S (n - k - 1))%nat at 1 by lia.
  by rewrite seq_app.
Qed.

(** ** The histogram primitive *)

Lemma occurrences_nil c : occurrences c [] = 0.
Proof. reflexivity. Qed.

Lemma occurrences_cons c v x :
  occurrences c (v :: x) = (if decide (v = c) then 1 else 0) + occurrences c x.
Proof.
  unfold occurrences. rewrite filter_cons.
  destruct (decide (v = c)); simpl; lia.
Qed.

Lemma occurrences_nonneg c x : 0 <= occurrences c x.
Proof. unfold occurrences. lia. Qed.

Lemma occurrences_map {A} (f : A -> Z) c (l : list A) :
  occurrences c (map f l) = Z.of_nat (length (filter (fun a => f a = c) l)).
Proof.
  induction l as [|a l IH]; [reflexivity|].
  simpl map. rewrite occurrences_cons, IH, filter_cons.
  destruct (decide (f a = c)); simpl; lia.
Qed.

Lemma bincount_step_length ans v :
  length (bincount_step ans v) = length ans.
Proof. apply length_insert. Qed.

Lemma bincount_step_lookup ans v k :
  0 <= v -> (Z.to_nat v < length ans)%nat -> (k < length ans)%nat ->
  bincount_step ans v !!! k =
  ans !!! k + (if decide (v = Z.of_nat k) then 1 else 0).
Proof.
  intros Hv Hlt Hk. unfold bincount_step.
  destruct (decide (v = Z.of_nat k)) as [->|Hne].
  - rewrite Nat2Z.id. by rewrite list_lookup_total_insert_eq.
  - rewrite list_lookup_total_insert_ne by lia. lia.
Qed.

Lemma bincount_fold_length x ans :
  length (foldl bincount_step ans x) = length ans.
Proof.
  revert ans. induction x as [|v x IH]; intros ans; simpl; [done|].
  by rewrite IH, bincount_step_length.
Qed.

Lemma bincount_fold_lookup x ans k :
  Forall (fun v => 0 <= v /\ (Z.to_nat v < length ans)%nat) x ->
  (k < length ans)%nat ->
  foldl bincount_step ans x !!! k = ans !!! k + occurrences (Z.of_nat k) x.
Proof.
  revert ans. induction x as [|v x IH]; intros ans Hx Hk; simpl.
  - rewrite occurrences_nil. lia.
  - apply Forall_cons in Hx as [[Hv Hlt] Hx].
    rewrite IH.
    + rewrite bincount_step_lookup, occurrences_cons by done. lia.
    + by rewrite bincount_step_length.
    + by rewrite bincount_step_length.
Qed.

Lemma bincount_size_bound x minlength :
  Forall (fun v => 0 <= v) x ->
  Forall (fun v => (Z.to_nat v < bincount_size x minlength)%nat) x.
Proof.
  unfold bincount_size, bincount_bins.
  induction x as [|v x IH]; [constructor|].
  intros [Hv Hx]%Forall_cons. constructor; simpl.
  - lia.
  - eapply Forall_impl; [exact (IH Hx)|]. simpl. intros; lia.
Qed.

Lemma bincount_size_min x minlength :
  (minlength <= bincount_size x minlength)%nat.
Proof. unfold bincount_size, bincount_bins. lia. Qed.

Lemma existsb_negative x :
  existsb (fun v => v <? 0) x = false <-> Forall (fun v => 0 <= v) x.
Proof.
  induction x as [|v x IH]; simpl.
  - split; [constructor|done].
  - rewrite orb_false_iff, IH, Forall_cons, Z.ltb_ge. tauto.
Qed.

(** The bins fit an array exactly when every entry lies below the limit. *)
Lemma bincount_bins_fit x minlength :
  Z.of_nat minlength < bin_limit ->
  bincount_bins x minlength < bin_limit <->
  Forall (fun v => v < bin_limit - 1) x.
Proof.
  intros Hmin. unfold bincount_bins.
  induction x as [|v x IH]; simpl.
  - split; [constructor|]. unfold bin_limit in *. lia.
  - rewrite Forall_cons, <- IH. lia.
Qed.

Lemma countable_split (x : list Z) :
  Forall countable x <->
  Forall (fun v => 0 <= v) x /\ Forall (fun v => v < bin_limit - 1) x.
Proof.
  unfold countable. rewrite <- Forall_and.
  split; intros H; (eapply Forall_impl; [exact H|]); simpl; intros; lia.
Qed.

Lemma countable_nonneg (x : list Z) :
  Forall countable x -> Forall (fun v => 0 <= v) x.
Proof. by intros [H _]%countable_split. Qed.

Lemma countable_or_not (x : list Z) :
  Forall countable x \/ Exists (fun v => ~ countable v) x.
Proof.
  induction x as [|v x [IH|IH]].
  - left. constructor.
  - destruct (decide (0 <= v < bin_limit - 1)) as [Hv|Hv].
    + left. by constructor.
    + right. by constructor.
  - right. by constructor.
Qed.

Lemma countable_not_both (x : list Z) :
  Forall countable x -> Exists (fun v => ~ countable v) x -> False.
Proof.
  intros Hall Hex. apply Exists_exists in Hex as (v & Hin & Hv).
  rewrite Forall_forall in Hall. by specialize (Hall v Hin).
Qed.

Lemma negative_not_countable (x : list Z) :
  Exists (fun v => v < 0) x -> Exists (fun v => ~ countable v) x.
Proof.
  intros H. eapply Exists_impl; [exact H|]. unfold countable. simpl.
  intros; lia.
Qed.

(** Entries of a column that can be counted: bin [k] counts the
    occurrences of [k]. *)
Lemma np_bincount_counts x minlength :
  Z.of_nat minlength < bin_limit ->
  Forall countable x ->
  exists b, np_bincount x minlength = inr b /\
    length b = bincount_size x minlength /\
    forall k, (k < length b)%nat -> b !!! k = occurrences (Z.of_nat k) x.
Proof.
  intros Hmin [Hx Hfit]%countable_split. unfold np_bincount.
  rewrite (proj2 (existsb_negative x) Hx).
  rewrite (proj2 (Z.leb_gt _ _))
    by (by apply (bincount_bins_fit x minlength Hmin)).
  eexists. split; [reflexivity|].
  rewrite bincount_fold_length, length_replicate. split; [done|].
  intros k Hk. rewrite bincount_fold_lookup.
  - rewrite lookup_total_replicate_2 by done. lia.
  - rewrite length_replicate.
    pose proof (bincount_size_bound x minlength Hx) as Hb.
    rewrite Forall_forall in *. intros v Hv. split; auto.
  - by rewrite length_replicate.
Qed.

(** [np.bincount] raises exactly on an entry that cannot be counted: a
    negative one, or one whose bin lies beyond the limit. *)
Lemma np_bincount_raises x minlength :
  Z.of_nat minlength < bin_limit ->
  np_bincount x minlength = inl ValueError <->
  Exists (fun v => ~ countable v) x.
Proof.
  intros Hmin. split.
  - intros E. destruct (countable_or_not x) as [Hall|Hex]; [|done].
    destruct (np_bincount_counts x minlength Hmin Hall) as (b & Eb & _).
    congruence.
  - intros Hex. unfold np_bincount.
    destruct (existsb _ x) eqn:E; [done|].
    apply existsb_negative in E.
    destruct (Z.leb_spec bin_limit (bincount_bins x minlength)) as [|Hlt];
      [done|].
    exfalso. apply (countable_not_both x); [|done].
    apply countable_split. split; [done|].
    by apply (bincount_bins_fit x minlength Hmin).
Qed.


Lemma slice_1_6 {A} (a0 a1 a2 a3 a4 a5 : A) rest :
  slice 1 6 (a0 :: a1 :: a2 :: a3 :: a4 :: a5 :: rest) = [a1; a2; a3; a4; a5].
Proof. reflexivity. Qed.

Lemma six_bins_fit : Z.of_nat 6 < bin_limit.
Proof. reflexivity. Qed.

Lemma label_counts_at_counts p i j :
  Forall countable (column p i j) ->
  label_counts_at p i j = inr (class_counts (column p i j)).
Proof.
  intros Hx. unfold label_counts_at.
  destruct (np_bincount_counts _ 6 six_bins_fit Hx) as (b & -> & Hlen & Hb).
  pose proof (bincount_size_min (column p i j) 6) as Hmin.
  rewrite <- Hlen in Hmin.
  destruct b as [|a0 [|a1 [|a2 [|a3 [|a4 [|a5 rest]]]]]]; simpl in Hmin; try lia.
  rewrite slice_1_6. unfold class_counts.
  pose proof (Hb 1%nat) as H1. pose proof (Hb 2%nat) as H2.
  pose proof (Hb 3%nat) as H3. pose proof (Hb 4%nat) as H4.
  pose proof (Hb 5%nat) as H5. simpl in H1, H2, H3, H4, H5.
  change (Z.of_nat 1) with 1 in H1. change (Z.of_nat 2) with 2 in H2.
  change (Z.of_nat 3) with 3 in H3. change (Z.of_nat 4) with 4 in H4.
  change (Z.of_nat 5) with 5 in H5.
  rewrite <- H1, <- H2, <- H3, <- H4, <- H5 by lia.
  reflexivity.
Qed.

Lemma label_counts_at_raises p i j :
  label_counts_at p i j = inl ValueError <->
  Exists (fun v => ~ countable v) (column p i j).
Proof.
  unfold label_counts_at. rewrite <- (np_bincount_raises _ 6 six_bins_fit).
  destruct (np_bincount _ _) as [[]|b]; split; done.
Qed.

Lemma class_counts_length x : length (class_counts x) = 5%nat.
Proof. reflexivity. Qed.

Lemma class_counts_votes p i j :
  class_counts (column p i j) = map (fun c => count_votes p c i j) (seq 0 5).
Proof.
  unfold class_counts, column, count_votes.
  rewrite !occurrences_map. reflexivity.
Qed.

(** ** The arg-max primitive *)


Lemma first_max_lt {A} (le lt : A -> A -> Prop) l k :
  first_max le lt l k -> (k < length l)%nat.
Proof. intros (x & Hk & _). by eapply lookup_lt_Some. Qed.

Lemma first_max_unique {A} (le lt : A -> A -> Prop) l k1 k2 :
  (forall x y, le x y -> lt y x -> False) ->
  first_max le lt l k1 -> first_max le lt l k2 -> k1 = k2.
Proof.
  intros Hirr (x1 & H1 & Hle1 & Hlt1) (x2 & H2 & Hle2 & Hlt2).
  destruct (Nat.lt_trichotomy k1 k2) as [Hlt|[->|Hlt]]; [|done|].
  - exfalso. apply (Hirr x2 x1); eauto.
  - exfalso. apply (Hirr x1 x2); eauto.
Qed.

Lemma argmax_int_loop_spec l pre mp b :
  pre !! b = Some mp ->
  (forall j y, pre !! j = Some y -> y <= mp) ->
  (forall j y, (j < b)%nat -> pre !! j = Some y -> y < mp) ->
  exists k,
    argmax_int_loop mp (Z.of_nat b) (Z.of_nat (length pre)) l = Z.of_nat k /\
    first_max_Z (pre ++ l) k.
Proof.
  revert pre mp b. induction l as [|x l IH]; intros pre mp b Hb Hle Hlt.
  - exists b. simpl. rewrite app_nil_r. split; [done|]. by exists mp.
  - simpl. replace (Z.of_nat (length pre) + 1) with
      (Z.of_nat (length (pre ++ [x]))) by (rewrite length_app; simpl; lia).
    replace (pre ++ x :: l) with ((pre ++ [x]) ++ l) by by rewrite <- app_assoc.
    destruct (mp <? x) eqn:E.
    + apply Z.ltb_lt in E. apply IH.
      * by rewrite lookup_app_r, Nat.sub_diag.
      * intros j y Hj. apply lookup_app_Some in Hj as [Hj|[_ Hj]].
        -- specialize (Hle _ _ Hj). lia.
        -- apply list_lookup_singleton_Some in Hj as [_ ->]. lia.
      * intros j y Hj Hy. rewrite lookup_app_l in Hy by done.
        specialize (Hle _ _ Hy). lia.
    + apply Z.ltb_ge in E. apply IH.
      * rewrite lookup_app_l; [done|]. by eapply lookup_lt_Some.
      * intros j y Hj. apply lookup_app_Some in Hj as [Hj|[_ Hj]].
        -- eauto.
        -- apply list_lookup_singleton_Some in Hj as [_ ->]. lia.
      * intros j y Hj Hy. apply (Hlt j y Hj).
        rewrite lookup_app_l in Hy; [done|].
        apply lookup_lt_Some in Hb. lia.
Qed.

(** [np.argmax] on integers returns the first position of the maximum. *)
Lemma np_argmax_int_spec x l :
  exists k, np_argmax_int (x :: l) = inr (Z.of_nat k) /\
            first_max_Z (x :: l) k.
Proof.
  assert (forall j y, [x] !! j = Some y -> y <= x) as Hle.
  { intros j y [_ ->]%list_lookup_singleton_Some. lia. }
  destruct (argmax_int_loop_spec l [x] x 0%nat eq_refl Hle) as (k & E & Hk).
  { intros; lia. }
  exists k. split; [|done]. simpl. f_equal. exact E.
Qed.

(** *** The order of floating-point values *)


Ltac float_order :=
  unfold Float.leb, Float.ltb, SFleb, SFltb, SFcompare, Float.is_nan;
  intros;
  repeat match goal with
    | x : spec_float |- _ => destruct x as [[]|[]| |[] ? ?]
    end;
  try discriminate; try reflexivity;
  repeat match goal with
    | H : context [Pos.compare_cont Eq ?a ?b] |- _ =>
        change (Pos.compare_cont Eq a b) with (Pos.compare a b) in H
    | |- context [Pos.compare_cont Eq ?a ?b] =>
        change (Pos.compare_cont Eq a b) with (Pos.compare a b)
    end;
  repeat match goal with
    | H : context [Z.compare ?a ?b] |- _ =>
        destruct (Z.compare_spec a b); simpl in H; try discriminate
    | H : context [Pos.compare ?a ?b] |- _ =>
        destruct (Pos.compare_spec a b); simpl in H; try discriminate
    | |- context [Z.compare ?a ?b] =>
        destruct (Z.compare_spec a b); simpl; try reflexivity
    | |- context [Pos.compare ?a ?b] =>
        destruct (Pos.compare_spec a b); simpl; try reflexivity
    end;
  try reflexivity; try lia.

Lemma float_leb_refl x : Float.is_nan x = false -> Float.leb x x = true.
Proof. float_order. Qed.

Lemma float_leb_total x y :
  Float.is_nan x = false -> Float.is_nan y = false ->
  Float.leb x y = false -> Float.ltb y x = true.
Proof. float_order. Qed.

Lemma float_ltb_leb x y : Float.ltb x y = true -> Float.leb x y = true.
Proof. float_order. Qed.

Lemma float_leb_ltb_irrefl x y :
  Float.leb x y = true -> Float.ltb y x = true -> False.
Proof. float_order. Qed.

Lemma float_leb_ltb_trans x y z :
  Float.leb x y = true -> Float.ltb y z = true -> Float.ltb x z = true.
Proof. float_order. Qed.

Lemma float_leb_trans x y z :
  Float.leb x y = true -> Float.leb y z = true -> Float.leb x z = true.
Proof. float_order. Qed.

Lemma argmax_float_loop_spec l pre mp b :
  no_nan l ->
  pre !! b = Some mp ->
  (forall j y, pre !! j = Some y -> Float.leb y mp = true) ->
  (forall j y, (j < b)%nat -> pre !! j = Some y -> Float.ltb y mp = true) ->
  exists k,
    argmax_float_loop mp (Z.of_nat b) (Z.of_nat (length pre)) l = Z.of_nat k /\
    first_max_float (pre ++ l) k.
Proof.
  revert pre mp b. induction l as [|x l IH]; intros pre mp b Hl Hb Hle Hlt.
  - exists b. simpl. rewrite app_nil_r. split; [done|]. by exists mp.
  - apply Forall_cons in Hl as [Hx Hl]. simpl.
    assert (Float.is_nan mp = false) as Hmp.
    { specialize (Hle _ _ Hb). by destruct mp. }
    replace (Z.of_nat (length pre) + 1) with
      (Z.of_nat (length (pre ++ [x]))) by (rewrite length_app; simpl; lia).
    replace (pre ++ x :: l) with ((pre ++ [x]) ++ l) by by rewrite <- app_assoc.
    destruct (Float.leb x mp) eqn:E.
    + apply IH; [done| | |].
      * rewrite lookup_app_l; [done|]. by eapply lookup_lt_Some.
      * intros j y Hj. apply lookup_app_Some in Hj as [Hj|[_ Hj]]; [eauto|].
        by apply list_lookup_singleton_Some in Hj as [_ ->].
      * intros j y Hj Hy. apply (Hlt j y Hj).
        rewrite lookup_app_l in Hy; [done|].
        apply lookup_lt_Some in Hb. lia.
    + rewrite Hx. apply float_leb_total in E; [|done..].
      apply IH; [done| | |].
      * by rewrite lookup_app_r, Nat.sub_diag.
      * intros j y Hj. apply lookup_app_Some in Hj as [Hj|[_ Hj]].
        -- apply float_ltb_leb. eapply float_leb_ltb_trans; eauto.
        -- apply list_lookup_singleton_Some in Hj as [_ ->].
           by apply float_leb_refl.
      * intros j y Hj Hy. rewrite lookup_app_l in Hy by done.
        eapply float_leb_ltb_trans; eauto.
Qed.

(** [np.argmax] on NaN-free floats returns the first position of the
    maximum. *)
Lemma np_argmax_float_spec x l :
  no_nan (x :: l) ->
  exists k, np_argmax_float (x :: l) = inr (Z.of_nat k) /\
            first_max_float (x :: l) k.
Proof.
  intros [Hx Hl]%Forall_cons.
  assert (forall j y, [x] !! j = Some y -> Float.leb y x = true) as Hle.
  { intros j y [_ ->]%list_lookup_singleton_Some. by apply float_leb_refl. }
  destruct (argmax_float_loop_spec l [x] x 0%nat Hl eq_refl Hle)
    as (k & E & Hk).
  { intros; lia. }
  exists k. split; [|done]. simpl. rewrite Hx. f_equal. exact E.
Qed.

(** Whatever the values, NaN included, the position is within the array. *)
Lemma argmax_float_loop_range l mp best i :
  0 <= best < i ->
  0 <= argmax_float_loop mp best i l < i + Z.of_nat (length l).
Proof.
  revert mp best i. induction l as [|x l IH]; intros mp best i Hb; simpl.
  - lia.
  - destruct (Float.leb x mp).
    + specialize (IH mp best (i + 1)). lia.
    + destruct (Float.is_nan x); [lia|].
      specialize (IH x i (i + 1)). lia.
Qed.

Lemma np_argmax_float_range x l :
  exists a, np_argmax_float (x :: l) = inr a /\
            0 <= a < Z.of_nat (length (x :: l)).
Proof.
  eexists. split; [reflexivity|]. simpl length.
  destruct (Float.is_nan x); [lia|].
  pose proof (argmax_float_loop_range l x 0 1). lia.
Qed.

(** ** Casts *)

Lemma wrap_int32_small z : in_int32 z -> wrap_int32 z = z.
Proof.
  unfold in_int32, int32_min, int32_max, wrap_int32. intros Hz.
  rewrite Z.mod_small; lia.
Qed.

Lemma wrap_int32_range z : in_int32 (wrap_int32 z).
Proof.
  unfold in_int32, int32_min, int32_max, wrap_int32.
  pose proof (Z.mod_pos_bound (z + 2 ^ 31) (2 ^ 32)). lia.
Qed.

(** The label [a + 1] survives the store into the float64 result array and
    the final cast to int32. *)
Lemma label_roundtrip v :
  1 <= v <= 5 -> f64_to_int32 (Float.f64_of_Z v) = v.
Proof.
  intros Hv.
  assert (v = 1 \/ v = 2 \/ v = 3 \/ v = 4 \/ v = 5) as Hcases by lia.
  destruct Hcases as [->|[->|[->|[->| ->]]]]; reflexivity.
Qed.

(** ** Indexing *)

Lemma map_fmap {A B} (f : A -> B) (l : list A) : map f l = f <$> l.
Proof. reflexivity. Qed.

Lemma index_inj S i j i' j' :
  (j < S)%nat -> (j' < S)%nat -> (i * S + j = i' * S + j')%nat ->
  i = i' /\ j = j'.
Proof. intros Hj Hj' E. assert (i = i') by nia. subst. lia. Qed.

Lemma index_bound N S i j :
  (i < N)%nat -> (j < S)%nat -> (i * S + j < N * S)%nat.
Proof. nia. Qed.

Lemma index_split N S k :
  (k < N * S)%nat ->
  exists i j, (i < N)%nat /\ (j < S)%nat /\ k = (i * S + j)%nat.
Proof.
  intros Hk. assert (S <> 0)%nat as HS by nia.
  exists (k / S)%nat, (k mod S)%nat.
  pose proof (Nat.div_mod_eq k S) as E.
  pose proof (Nat.mod_upper_bound k S HS) as Hm.
  repeat split; [|done|lia].
  apply Nat.Div0.div_lt_upper_bound. lia.
Qed.

Lemma get3_lookup p t i j :
  wf_tensor3 p -> (t < dimT p)%nat -> (i < dimN p)%nat -> (j < dimS p)%nat ->
  data3 p !! (t * (dimN p * dimS p) + (i * dimS p + j))%nat
  = Some (get3 p t i j).
Proof.
  intros Hwf Ht Hi Hj. unfold get3.
  apply list_lookup_lookup_total_lt. rewrite Hwf.
  pose proof (index_bound _ _ _ _ Hi Hj). nia.
Qed.

(** Inside the tensor, the entries of a column are entries of the tensor. *)
Lemma column_Forall (P : Z -> Prop) p i j :
  wf_tensor3 p -> (i < dimN p)%nat -> (j < dimS p)%nat ->
  Forall P (data3 p) -> Forall P (column p i j).
Proof.
  intros Hwf Hi Hj Hall. unfold column. rewrite map_fmap.
  apply Forall_fmap, Forall_forall. intros t Ht. simpl.
  apply elem_of_seq in Ht.
  eapply Forall_lookup_1; [exact Hall|].
  apply get3_lookup; [done|lia|done..].
Qed.

(** Every entry of the tensor lies in some column. *)
Lemma column_Exists (P : Z -> Prop) p :
  wf_tensor3 p -> Exists P (data3 p) ->
  exists i j, (i < dimN p)%nat /\ (j < dimS p)%nat /\ Exists P (column p i j).
Proof.
  intros Hwf Hex. apply Exists_exists in Hex as (v & Hin & Hv).
  apply list_elem_of_lookup in Hin as (k & Hk).
  pose proof (lookup_lt_Some _ _ _ Hk) as Hlt. rewrite Hwf in Hlt.
  assert (k < dimT p * (dimN p * dimS p))%nat as Hlt' by lia.
  destruct (index_split _ _ _ Hlt') as (t & r & Ht & Hr & ->).
  destruct (index_split _ _ _ Hr) as (i & j & Hi & Hj & ->).
  exists i, j. repeat split; [done..|].
  apply Exists_exists. exists v. split; [|done].
  unfold column. rewrite map_fmap. apply list_elem_of_fmap.
  exists t. split; [|apply elem_of_seq; lia].
  pose proof (get3_lookup p t i j Hwf Ht Hi Hj) as E.
  rewrite Hk in E. by injection E.
Qed.

(** ** One sample *)

Lemma argmax_int_index_range x l :
  0 <= argmax_int_index (x :: l) < Z.of_nat (length (x :: l)).
Proof.
  unfold argmax_int_index.
  destruct (np_argmax_int_spec x l) as (k & -> & Hk).
  apply first_max_lt in Hk. lia.
Qed.

Lemma argmax_float_index_range x l :
  0 <= argmax_float_index (x :: l) < Z.of_nat (length (x :: l)).
Proof.
  unfold argmax_float_index.
  by destruct (np_argmax_float_range x l) as (a & -> & Ha).
Qed.

Lemma most_frequent_label_range x :
  1 <= most_frequent_label (class_counts x) <= 5.
Proof.
  unfold most_frequent_label, class_counts. simpl map.
  match goal with |- context [argmax_int_index (?a :: ?l)] =>
    pose proof (argmax_int_index_range a l) as H end.
  simpl length in H. lia.
Qed.

Lemma noisy_label_range rule x noise :
  1 <= noisy_label rule (class_counts x) noise <= 5.
Proof.
  unfold noisy_label, class_counts, noisy_counts. simpl imap.
  match goal with |- context [argmax_float_index (?a :: ?l)] =>
    pose proof (argmax_float_index_range a l) as H end.
  simpl length in H. lia.
Qed.

(** A sample of [aggregation_most_frequent] whose column can be counted
    stores its label and touches nothing else. *)
Lemma most_frequent_sample_returns p i j result w :
  Forall countable (column p i j) ->
  most_frequent_sample p i j result w =
  (inr (<[(i * dimS p + j)%nat :=
           Float.f64_of_Z (most_frequent_label (class_counts (column p i j)))]>
          result), w).
Proof.
  intros Hcol. unfold most_frequent_sample.
  rewrite (label_counts_at_counts _ _ _ Hcol), bind_lift_inr.
  reflexivity.
Qed.

Lemma most_frequent_sample_raises p i j result w :
  Exists (fun v => ~ countable v) (column p i j) ->
  most_frequent_sample p i j result w = (inl ValueError, w).
Proof.
  intros Hcol. unfold most_frequent_sample.
  by rewrite (proj2 (label_counts_at_raises _ _ _) Hcol).
Qed.

Lemma noise_draw scale (item : nat) (lc : list spec_float) w :
  rng_accepts w scale = true ->
  add_draw scale item lc w
  = (inr (<[item := add_noise (promotion w) (lc !!! item)
                      (rng w scale (rng_pos w))]> lc),
     World (rng w) (rng_accepts w) (S (rng_pos w)) (stdout w) (promotion w)).
Proof.
  intros Hok. unfold add_draw, bind, np_random_laplace. by rewrite Hok.
Qed.

(** The five draws of a sample of [noisy_max]. *)
Lemma noise_loop c0 c1 c2 c3 c4 scale w :
  rng_accepts w scale = true ->
  for_each (xrange 5) (add_draw scale)
    (map Float.f32_of_Z [c0; c1; c2; c3; c4]) w
  = (inr (noisy_counts (promotion w) [c0; c1; c2; c3; c4]
            (upcoming_noise w scale)),
     World (rng w) (rng_accepts w) (5 + rng_pos w) (stdout w) (promotion w)).
Proof.
  intros Hok. unfold xrange. simpl seq. unfold for_each.
  do 5 (erewrite bind_inr by (by apply noise_draw)).
  reflexivity.
Qed.

(** On a scale the sampler rejects, the first draw raises. *)
Lemma noise_loop_raises (lc : list spec_float) scale w :
  rng_accepts w scale = false ->
  for_each (xrange 5) (add_draw scale) lc w = (inl ValueError, w).
Proof.
  intros Hok. unfold xrange. simpl seq. unfold for_each.
  apply bind_inl. unfold add_draw, bind, np_random_laplace. by rewrite Hok.
Qed.

(** A sample of [noisy_max] whose column can be counted stores its
    label, stores the clean votes when asked to, and draws five samples. *)
Lemma noisy_max_sample_returns p scale rcv i j result cv w :
  rng_accepts w scale = true ->
  Forall countable (column p i j) ->
  noisy_max_sample p scale rcv i j (result, cv) w =
  (inr (<[(i * dimS p + j)%nat :=
           Float.f64_of_Z (noisy_label (promotion w)
                             (class_counts (column p i j))
                             (upcoming_noise w scale))]> result,
        if rcv
        then option_map
               (fun cv => set_votes_column cv (dimN p) (dimS p) i j
                            (class_counts (column p i j))) cv
        else cv),
   World (rng w) (rng_accepts w) (5 + rng_pos w) (stdout w) (promotion w)).
Proof.
  intros Hok Hcol. unfold noisy_max_sample.
  rewrite (label_counts_at_counts _ _ _ Hcol), bind_lift_inr.
  unfold class_counts at 3.
  erewrite bind_inr by (by apply noise_loop).
  reflexivity.
Qed.

(** On a rejected scale the sample raises at its first draw, the column
    already counted. *)
Lemma noisy_max_sample_rejects p scale rcv i j st w :
  rng_accepts w scale = false ->
  Forall countable (column p i j) ->
  noisy_max_sample p scale rcv i j st w = (inl ValueError, w).
Proof.
  intros Hok Hcol. destruct st as [result cv]. unfold noisy_max_sample.
  rewrite (label_counts_at_counts _ _ _ Hcol), bind_lift_inr.
  by erewrite bind_inl by (by apply noise_loop_raises).
Qed.

Lemma noisy_max_sample_raises p scale rcv i j st w :
  Exists (fun v => ~ countable v) (column p i j) ->
  noisy_max_sample p scale rcv i j st w = (inl ValueError, w).
Proof.
  intros Hcol. destruct st as [result cv]. unfold noisy_max_sample.
  by rewrite (proj2 (label_counts_at_raises _ _ _) Hcol).
Qed.

(** ** The result arrays *)

Lemma filled_insert {A} S (val : nat -> nat -> A) i j (result : list A) :
  (j < S)%nat -> (i * S + j < length result)%nat ->
  filled S val (i * S + j) result ->
  filled S val (i * S + Datatypes.S j) (<[(i * S + j)%nat := val i j]> result).
Proof.
  intros Hj Hlen Hfill i' j' Hj' Hlt.
  destruct (decide (i' * S + j' = i * S + j)%nat) as [E|Hne].
  - destruct (index_inj _ _ _ _ _ Hj' Hj E) as [-> ->].
    by apply list_lookup_insert_eq.
  - rewrite list_lookup_insert_ne by done. apply Hfill; [done|lia].
Qed.

Lemma set_votes_column_unfold cv N S i j a0 a1 a2 a3 a4 :
  let n := (N * S)%nat in
  let k := (i * S + j)%nat in
  set_votes_column cv N S i j [a0; a1; a2; a3; a4] =
  <[(4 * n + k)%nat := Float.f64_of_Z a4]>
    (<[(3 * n + k)%nat := Float.f64_of_Z a3]>
      (<[(2 * n + k)%nat := Float.f64_of_Z a2]>
        (<[(1 * n + k)%nat := Float.f64_of_Z a1]>
          (<[(0 * n + k)%nat := Float.f64_of_Z a0]> cv)))).
Proof. reflexivity. Qed.

Lemma set_votes_column_length cv N S i j a0 a1 a2 a3 a4 :
  length (set_votes_column cv N S i j [a0; a1; a2; a3; a4]) = length cv.
Proof. rewrite set_votes_column_unfold. by rewrite !length_insert. Qed.

Lemma set_votes_column_same cv N S i j a0 a1 a2 a3 a4 c :
  length cv = (5 * (N * S))%nat -> (i * S + j < N * S)%nat -> (c < 5)%nat ->
  set_votes_column cv N S i j [a0; a1; a2; a3; a4]
    !! (c * (N * S) + (i * S + j))%nat
  = Some (Float.f64_of_Z ([a0; a1; a2; a3; a4] !!! c)).
Proof.
  intros Hlen Hk Hc. rewrite set_votes_column_unfold.
  generalize dependent (N * S)%nat. generalize (i * S + j)%nat.
  intros k n Hlen Hk.
  destruct c as [|[|[|[|[|c]]]]]; [..|lia]; simpl lookup_total;
    repeat first
      [ rewrite list_lookup_insert_eq by (rewrite ?length_insert; lia)
      | rewrite list_lookup_insert_ne by lia ];
    reflexivity.
Qed.

Lemma set_votes_column_other cv N S i j a0 a1 a2 a3 a4 c k' :
  (i * S + j < N * S)%nat -> (k' < N * S)%nat -> k' <> (i * S + j)%nat ->
  set_votes_column cv N S i j [a0; a1; a2; a3; a4] !! (c * (N * S) + k')%nat
  = cv !! (c * (N * S) + k')%nat.
Proof.
  intros Hk Hk' Hne. rewrite set_votes_column_unfold.
  generalize dependent (N * S)%nat. generalize dependent (i * S + j)%nat.
  intros k Hne n Hk Hk'.
  assert (forall c', (c' * n + k)%nat <> (c * n + k')%nat) as Hplane.
  { intros c' E. apply index_inj in E as [_ ->]; done. }
  by rewrite !list_lookup_insert_ne by apply Hplane.
Qed.

Lemma votes_filled_insert N S p i j (cv : list spec_float) :
  let val c i j := Float.f64_of_Z (class_counts (column p i j) !!! c) in
  (i < N)%nat -> (j < S)%nat -> length cv = (5 * (N * S))%nat ->
  votes_filled N S val (i * S + j) cv ->
  votes_filled N S val (i * S + Datatypes.S j)
    (set_votes_column cv N S i j (class_counts (column p i j))).
Proof.
  intros val Hi Hj Hlen Hfill c i' j' Hc Hj' Hlt.
  pose proof (index_bound _ _ _ _ Hi Hj) as Hk.
  unfold class_counts at 1.
  destruct (decide (i' * S + j' = i * S + j)%nat) as [E|Hne].
  - destruct (index_inj _ _ _ _ _ Hj' Hj E) as [-> ->].
    by rewrite set_votes_column_same.
  - rewrite set_votes_column_other by (done || lia).
    apply Hfill; [done..|lia].
Qed.

(** ** The scans *)

Ltac loop_invariant I :=
  cbv beta;
  match goal with
  | |- context [for_each ?l ?body ?s ?w] =>
      let H := fresh "Hloop" in
      pose proof (for_each_invariant I l body s w) as H
  end.

Lemma most_frequent_scan p w :
  columns_countable p ->
  exists result,
    for_each (xrange (dimN p))
      (fun i result =>
         for_each (xrange (dimS p)) (most_frequent_sample p i) result)
      (np_zeros (dimN p * dimS p)) w = (inr result, w) /\
    length result = (dimN p * dimS p)%nat /\
    filled (dimS p) (most_frequent_value p) (dimN p * dimS p) result.
Proof.
  intros Hcols.
  loop_invariant (fun i => most_frequent_scan_inv p w (i * dimS p)).
  destruct Hloop as (result & w' & E & -> & Hlen & Hfill).
  - repeat split.
    + apply length_replicate.
    + intros i j _ Hlt. lia.
  - intros i a r w1 [-> Hi]%xrange_lookup (-> & Hlen & Hfill).
    loop_invariant (fun j => most_frequent_scan_inv p w (i * dimS p + j)).
    destruct Hloop as (r' & w' & E & -> & Hlen' & Hfill').
    + split; [reflexivity|]. split; [exact Hlen|].
      by rewrite Nat.add_0_r.
    + intros j b r1 w1 [-> Hj]%xrange_lookup (-> & Hlen1 & Hfill1).
      rewrite most_frequent_sample_returns by auto.
      eexists _, _. split; [reflexivity|].
      split; [reflexivity|]. split; [by rewrite length_insert|].
      apply (filled_insert _ (most_frequent_value p)); [done| |done].
      rewrite Hlen1. by apply index_bound.
    + exists r', w. split; [exact E|].
      rewrite xrange_length in Hfill'.
      split; [reflexivity|]. split; [done|].
      by replace (Datatypes.S i * dimS p)%nat with (i * dimS p + dimS p)%nat
        by lia.
  - rewrite xrange_length in Hfill. eauto.
Qed.

Lemma noisy_value_upcoming p scale w0 w i j :
  rng w = rng w0 -> promotion w = promotion w0 ->
  rng_pos w = (5 * (i * dimS p + j) + rng_pos w0)%nat ->
  Float.f64_of_Z (noisy_label (promotion w) (class_counts (column p i j))
                              (upcoming_noise w scale))
  = noisy_value p scale w0 i j.
Proof.
  intros Hrng Hrule Hpos. unfold noisy_value, upcoming_noise, noise_from.
  by rewrite Hrng, Hrule, Hpos.
Qed.

Lemma noisy_scan_inv_step p scale rcv w0 i j st w :
  rng_accepts w0 scale = true ->
  (i < dimN p)%nat -> (j < dimS p)%nat ->
  Forall countable (column p i j) ->
  noisy_scan_inv p scale rcv w0 (i * dimS p + j) st w ->
  exists st' w',
    noisy_max_sample p scale rcv i j st w = (inr st', w') /\
    noisy_scan_inv p scale rcv w0 (i * dimS p + Datatypes.S j) st' w'.
Proof.
  intros Hok Hi Hj Hcol (Hrng & Hacc & Hrule & Hpos & Hlen & Hfill & Hcv).
  destruct st as [result cv]. simpl in Hlen, Hfill, Hcv.
  rewrite <- Hacc in Hok.
  rewrite (noisy_max_sample_returns _ _ _ _ _ _ _ _ Hok Hcol).
  rewrite (noisy_value_upcoming _ _ _ _ _ _ Hrng Hrule Hpos).
  eexists _, _. split; [reflexivity|].
  split; [done|]. split; [done|]. split; [done|]. split; [simpl; lia|]. simpl.
  split; [by rewrite length_insert|].
  split.
  - apply (filled_insert _ (noisy_value p scale w0)); [done| |done].
    rewrite Hlen. by apply index_bound.
  - destruct rcv; [|done].
    destruct Hcv as (l & -> & Hl & Hvotes). simpl.
    eexists. split; [reflexivity|]. split.
    + unfold class_counts. by rewrite set_votes_column_length.
    + by apply votes_filled_insert.
Qed.

Lemma noisy_scan_inv_print p scale rcv w0 k st w a b :
  noisy_scan_inv p scale rcv w0 k st w ->
  noisy_scan_inv p scale rcv w0 k st
    (World (rng w) (rng_accepts w) (rng_pos w) ((a, b) :: stdout w)
           (promotion w)).
Proof. done. Qed.

Lemma noisy_row p scale rcv w0 i st w :
  rng_accepts w0 scale = true ->
  (forall j, (j < dimS p)%nat -> Forall countable (column p i j)) ->
  (i < dimN p)%nat ->
  noisy_scan_inv p scale rcv w0 (i * dimS p) st w ->
  exists st' w',
    for_each (xrange (dimS p)) (noisy_max_sample p scale rcv i) st w
      = (inr st', w') /\
    noisy_scan_inv p scale rcv w0 (Datatypes.S i * dimS p) st' w'.
Proof.
  intros Hok Hcols Hi Hinv.
  loop_invariant (fun j => noisy_scan_inv p scale rcv w0 (i * dimS p + j)).
  destruct Hloop as (st' & w' & E & Hinv').
  - by rewrite Nat.add_0_r.
  - intros j b st1 w1 [-> Hj]%xrange_lookup Hinv1.
    apply noisy_scan_inv_step; auto.
  - exists st', w'. split; [exact E|].
    rewrite xrange_length in Hinv'.
    by replace (Datatypes.S i * dimS p)%nat with (i * dimS p + dimS p)%nat
      by lia.
Qed.

Lemma noisy_scan p scale rcv w :
  rng_accepts w scale = true ->
  columns_countable p ->
  exists st w',
    for_each (xrange (dimN p))
      (fun i st =>
         do _ <- (if (i mod 100 =? 0)%nat
                  then print (Z.of_nat i - 99) (Z.of_nat i)
                  else ret tt);
         for_each (xrange (dimS p)) (noisy_max_sample p scale rcv i) st)
      (np_zeros (dimN p * dimS p),
       if rcv then Some (np_zeros (5 * (dimN p * dimS p))) else None) w
    = (inr st, w') /\
    noisy_scan_inv p scale rcv w (dimN p * dimS p) st w'.
Proof.
  intros Hok Hcols.
  loop_invariant (fun i => noisy_scan_inv p scale rcv w (i * dimS p)).
  destruct Hloop as (st & w' & E & Hinv).
  - repeat split; simpl.
    + apply length_replicate.
    + intros i j _ Hlt. lia.
    + destruct rcv; [|done]. eexists. split; [reflexivity|].
      split; [apply length_replicate|]. intros c i j _ _ Hlt. lia.
  - intros i a st1 w1 [-> Hi]%xrange_lookup Hinv1.
    destruct (i mod 100 =? 0)%nat.
    + erewrite bind_inr by reflexivity.
      apply noisy_row; [done|auto|done|]. by apply noisy_scan_inv_print.
    + erewrite bind_inr by reflexivity. apply noisy_row; auto.
  - rewrite xrange_length in Hinv. eauto.
Qed.

(** ** The two aggregators on tensors that can be counted *)

Lemma countable_columns p :
  wf_tensor3 p -> Forall countable (data3 p) -> columns_countable p.
Proof. intros Hwf Hall i j Hi Hj. by apply column_Forall. Qed.

Lemma aggregation_most_frequent_returns p w :
  columns_countable p ->
  exists lab,
    aggregation_most_frequent p w
      = (inr (LabelTensor (dimN p) (dimS p) lab), w) /\
    length lab = (dimN p * dimS p)%nat /\
    forall i j, (i < dimN p)%nat -> (j < dimS p)%nat ->
      lab !! (i * dimS p + j)%nat
      = Some (most_frequent_label (class_counts (column p i j))).
Proof.
  intros Hcols.
  destruct (most_frequent_scan p w Hcols) as (result & E & Hlen & Hfill).
  exists (map f64_to_int32 result). split; [|split].
  - unfold aggregation_most_frequent. by erewrite bind_inr by exact E.
  - by rewrite length_map.
  - intros i j Hi Hj. rewrite map_fmap, list_lookup_fmap.
    rewrite (Hfill i j Hj (index_bound _ _ _ _ Hi Hj)). simpl.
    unfold most_frequent_value.
    by rewrite label_roundtrip by apply most_frequent_label_range.
Qed.

Lemma noisy_max_returns p scale rcv w :
  rng_accepts w scale = true ->
  columns_countable p ->
  exists lab cv w',
    noisy_max p scale rcv w
      = (inr (LabelTensor (dimN p) (dimS p) lab, cv), w') /\
    rng w' = rng w /\
    rng_accepts w' = rng_accepts w /\
    rng_pos w' = (5 * (dimN p * dimS p) + rng_pos w)%nat /\
    length lab = (dimN p * dimS p)%nat /\
    (forall i j, (i < dimN p)%nat -> (j < dimS p)%nat ->
       lab !! (i * dimS p + j)%nat
       = Some (noisy_label (promotion w) (class_counts (column p i j))
                 (noise_from w scale (5 * (i * dimS p + j) + rng_pos w)))) /\
    if rcv
    then exists l, cv = Some (VotesTensor (dimN p) (dimS p) l) /\
           length l = (5 * (dimN p * dimS p))%nat /\
           forall c i j, (c < 5)%nat -> (i < dimN p)%nat -> (j < dimS p)%nat ->
             l !! (c * (dimN p * dimS p) + (i * dimS p + j))%nat
             = Some (clean_value p c i j)
    else cv = None.
Proof.
  intros Hok Hcols.
  destruct (noisy_scan p scale rcv w Hok Hcols)
    as ([result cv] & w' & E & Hrng & Hacc & _ & Hpos & Hlen & Hfill & Hcv).
  simpl in Hlen, Hfill, Hcv.
  exists (map f64_to_int32 result),
         (option_map (VotesTensor (dimN p) (dimS p)) cv), w'.
  split; [|repeat split].
  - unfold noisy_max. by erewrite bind_inr by exact E.
  - done.
  - done.
  - done.
  - by rewrite length_map.
  - intros i j Hi Hj. rewrite map_fmap, list_lookup_fmap.
    rewrite (Hfill i j Hj (index_bound _ _ _ _ Hi Hj)). simpl.
    unfold noisy_value.
    by rewrite label_roundtrip by apply noisy_label_range.
  - destruct rcv; [|by rewrite Hcv].
    destruct Hcv as (l & -> & Hl & Hvotes).
    exists l. repeat split; [done|].
    intros c i j Hc Hi Hj.
    apply Hvotes; [done..|]. by apply index_bound.
Qed.

(** ** Vote counts *)

Lemma discarded_cons v x :
  discarded (v :: x) = (if decide (v = 0 \/ 5 < v) then 1 else 0) + discarded x.
Proof.
  unfold discarded. rewrite filter_cons.
  destruct (decide (v = 0 \/ 5 < v)); simpl; lia.
Qed.

(** Every entry of a column without negative entries is counted once: in
    its class, or among the discarded ones. *)
Lemma class_counts_sum x :
  Forall (fun v => 0 <= v) x ->
  sum_Z (class_counts x) + discarded x = Z.of_nat (length x).
Proof.
  unfold class_counts, sum_Z. simpl foldr.
  induction x as [|v x IH]; [reflexivity|].
  intros [Hv Hx]%Forall_cons. specialize (IH Hx).
  rewrite !occurrences_cons, discarded_cons. simpl length.
  repeat destruct (decide _); lia.
Qed.

Lemma discarded_none x :
  Forall (fun v => 1 <= v <= 5) x -> discarded x = 0.
Proof.
  induction x as [|v x IH]; [reflexivity|].
  intros [Hv Hx]%Forall_cons. rewrite discarded_cons, (IH Hx).
  destruct (decide _); lia.
Qed.

Lemma column_length p i j : length (column p i j) = dimT p.
Proof. unfold column. by rewrite length_map, xrange_length. Qed.

Lemma occurrences_le_length c x : occurrences c x <= Z.of_nat (length x).
Proof. unfold occurrences. pose proof (length_filter (fun v => v = c) x). lia. Qed.

Lemma count_votes_range p c i j :
  0 <= count_votes p c i j <= Z.of_nat (dimT p).
Proof.
  unfold count_votes.
  pose proof (length_filter
    (fun t => get3 p t i j = Z.of_nat (c + 1)) (xrange (dimT p))) as H.
  rewrite xrange_length in H. lia.
Qed.

Lemma votes_at_lookup p i j c :
  (c < 5)%nat -> votes_at p i j !! c = Some (count_votes p c i j).
Proof.
  intros Hc. unfold votes_at.
  destruct c as [|[|[|[|[|c]]]]]; [reflexivity..|lia].
Qed.

Lemma clean_value_votes p c i j :
  (c < 5)%nat -> clean_value p c i j = Float.f64_of_Z (count_votes p c i j).
Proof.
  intros Hc. unfold clean_value. rewrite class_counts_votes.
  f_equal. apply list_lookup_total_correct.
  pose proof (votes_at_lookup p i j c Hc) as H. exact H.
Qed.

Lemma votes_at_in_int32 p i j :
  Z.of_nat (dimT p) < 2 ^ 31 ->
  map wrap_int32 (votes_at p i j) = votes_at p i j.
Proof.
  intros HT. unfold votes_at. rewrite map_map.
  apply map_ext. intros c. apply wrap_int32_small.
  pose proof (count_votes_range p c i j).
  unfold in_int32, int32_min, int32_max. lia.
Qed.

(** Below [2 ^ 31] teachers the cast to int32 changes no count, and the
    label is one more than the first position of the largest count. *)
Lemma most_frequent_label_first_max p i j :
  Z.of_nat (dimT p) < 2 ^ 31 ->
  exists k, first_max_Z (votes_at p i j) k /\
            most_frequent_label (votes_at p i j) = Z.of_nat k + 1.
Proof.
  intros HT. unfold most_frequent_label.
  rewrite (votes_at_in_int32 _ _ _ HT).
  unfold votes_at. simpl map.
  match goal with |- context [argmax_int_index (?x :: ?l)] =>
    destruct (np_argmax_int_spec x l) as (k & E & Hk) end.
  exists k. split; [done|]. unfold argmax_int_index. by rewrite E.
Qed.

(** ** Errors *)

Lemma most_frequent_scan_guard p result w r' w' :
  for_each (xrange (dimN p))
    (fun i result =>
       for_each (xrange (dimS p)) (most_frequent_sample p i) result)
    result w = (inr r', w') ->
  columns_countable p.
Proof.
  intros E i j Hi Hj.
  apply (for_each_inr_guard
           (fun i => Forall (fun j => Forall countable (column p i j))
                            (xrange (dimS p)))) in E.
  - rewrite Forall_forall in E.
    assert (i ∈ xrange (dimN p)) as Hin by (apply elem_of_seq; lia).
    specialize (E i Hin).
    rewrite Forall_forall in E. apply E, elem_of_seq. lia.
  - clear. intros i s w s' w' E.
    apply (for_each_inr_guard
             (fun j => Forall countable (column p i j))) in E;
      [exact E|].
    clear. intros j s w s' w' E.
    destruct (countable_or_not (column p i j)) as [H|H]; [done|].
    by rewrite most_frequent_sample_raises in E.
Qed.

Lemma noisy_scan_guard p scale rcv st w st' w' :
  for_each (xrange (dimN p))
    (fun i st =>
       do _ <- (if (i mod 100 =? 0)%nat
                then print (Z.of_nat i - 99) (Z.of_nat i)
                else ret tt);
       for_each (xrange (dimS p)) (noisy_max_sample p scale rcv i) st)
    st w = (inr st', w') ->
  columns_countable p.
Proof.
  intros E i j Hi Hj.
  apply (for_each_inr_guard
           (fun i => Forall (fun j => Forall countable (column p i j))
                            (xrange (dimS p)))) in E.
  - rewrite Forall_forall in E.
    assert (i ∈ xrange (dimN p)) as Hin by (apply elem_of_seq; lia).
    specialize (E i Hin).
    rewrite Forall_forall in E. apply E, elem_of_seq. lia.
  - clear. intros i s w s' w' E.
    assert (exists w1, for_each (xrange (dimS p))
              (noisy_max_sample p scale rcv i) s w1 = (inr s', w'))
      as [w1 E1].
    { destruct (i mod 100 =? 0)%nat; eexists; exact E. }
    apply (for_each_inr_guard
             (fun j => Forall countable (column p i j))) in E1;
      [exact E1|].
    clear. intros j s w s' w' E.
    destruct (countable_or_not (column p i j)) as [H|H]; [done|].
    by rewrite noisy_max_sample_raises in E.
Qed.

Lemma bind_inr_inv {A B} (m : M A) (f : A -> M B) w b w' :
  bind m f w = (inr b, w') ->
  exists a w1, m w = (inr a, w1) /\ f a w1 = (inr b, w').
Proof.
  unfold bind. destruct (m w) as [[e|a] w1]; [done|]. eauto.
Qed.

(** [aggregation_most_frequent] raises exactly on an entry that cannot be
    counted. *)
Lemma aggregation_most_frequent_raises p w :
  wf_tensor3 p ->
  (exists w', aggregation_most_frequent p w = (inl ValueError, w')) <->
  Exists (fun v => ~ countable v) (data3 p).
Proof.
  intros Hwf. split.
  - intros [w' E].
    destruct (countable_or_not (data3 p)) as [Hall|Hex]; [|done].
    destruct (aggregation_most_frequent_returns p w
                (countable_columns p Hwf Hall)) as (lab & E' & _).
    congruence.
  - intros Hex.
    destruct (column_Exists _ p Hwf Hex) as (i & j & Hi & Hj & Hcol).
    destruct (aggregation_most_frequent p w) as [[[]|r] w'] eqn:E; [eauto|].
    exfalso. unfold aggregation_most_frequent in E.
    apply bind_inr_inv in E as (r1 & w1 & E & _).
    apply most_frequent_scan_guard in E.
    eapply countable_not_both; [by apply E|done].
Qed.

(** [noisy_max] with a scale its sampler accepts raises exactly on an
    entry that cannot be counted. *)
Lemma noisy_max_raises p scale rcv w :
  wf_tensor3 p -> rng_accepts w scale = true ->
  (exists w', noisy_max p scale rcv w = (inl ValueError, w')) <->
  Exists (fun v => ~ countable v) (data3 p).
Proof.
  intros Hwf Hok. split.
  - intros [w' E].
    destruct (countable_or_not (data3 p)) as [Hall|Hex]; [|done].
    destruct (noisy_max_returns p scale rcv w Hok
                (countable_columns p Hwf Hall)) as (lab & cv & w1 & E' & _).
    congruence.
  - intros Hex.
    destruct (column_Exists _ p Hwf Hex) as (i & j & Hi & Hj & Hcol).
    destruct (noisy_max p scale rcv w) as [[[]|r] w'] eqn:E; [eauto|].
    exfalso. unfold noisy_max in E.
    apply bind_inr_inv in E as (r1 & w1 & E & _).
    apply noisy_scan_guard in E.
    eapply countable_not_both; [by apply E|done].
Qed.

Lemma noisy_scan_inv_init p scale rcv w :
  noisy_scan_inv p scale rcv w 0
    (np_zeros (dimN p * dimS p),
     if rcv then Some (np_zeros (5 * (dimN p * dimS p))) else None) w.
Proof.
  repeat split; simpl.
  - apply length_replicate.
  - intros i j _ Hlt. lia.
  - destruct rcv; [|done]. eexists. split; [reflexivity|].
    split; [apply length_replicate|]. intros c i j _ _ Hlt. lia.
Qed.

(** The state in which [noisy_max] raises on an entry that cannot be
    counted: the scan stops at the first sample whose column holds one,
    five draws after each earlier sample. *)
Lemma noisy_max_raises_at p scale rcv w i j :
  rng_accepts w scale = true ->
  (i < dimN p)%nat -> (j < dimS p)%nat ->
  Exists (fun v => ~ countable v) (column p i j) ->
  (forall i' j', (i' < dimN p)%nat -> (j' < dimS p)%nat ->
     (i' * dimS p + j' < i * dimS p + j)%nat ->
     Forall countable (column p i' j')) ->
  exists w', noisy_max p scale rcv w = (inl ValueError, w') /\
    rng w' = rng w /\
    rng_pos w' = (5 * (i * dimS p + j) + rng_pos w)%nat.
Proof.
  intros Hok Hi Hj Hbad Hbefore. unfold noisy_max.
  rewrite (xrange_split _ _ Hi).
  set (Q w' := rng w' = rng w /\
               rng_pos w' = (5 * (i * dimS p + j) + rng_pos w)%nat).
  match goal with
  | |- context [for_each (?l1 ++ ?a :: ?l2) ?body ?s] =>
      pose proof (for_each_raises
        (fun k => noisy_scan_inv p scale rcv w (k * dimS p)) Q
        l1 a l2 body s w ValueError) as Hloop
  end.
  destruct Hloop as (w' & E & HQ).
  - apply noisy_scan_inv_init.
  - intros k a st1 w1 [-> Hk]%xrange_lookup Hinv.
    assert (forall j', (j' < dimS p)%nat ->
              Forall countable (column p k j')) as Hrow.
    { intros j' Hj'. apply Hbefore; [lia|done|nia]. }
    cbv beta. destruct (k mod 100 =? 0)%nat.
    + erewrite bind_inr by reflexivity.
      apply noisy_row; [done|done|lia|]. by apply noisy_scan_inv_print.
    + erewrite bind_inr by reflexivity. apply noisy_row; [done|done|lia|done].
  - rewrite xrange_length. intros st1 w1 Hinv.
    assert (exists w2,
      for_each (xrange (dimS p)) (noisy_max_sample p scale rcv i) st1 w2
      = (do _ <- (if (i mod 100 =? 0)%nat
                  then print (Z.of_nat i - 99) (Z.of_nat i) else ret tt);
         for_each (xrange (dimS p)) (noisy_max_sample p scale rcv i) st1) w1
      /\ noisy_scan_inv p scale rcv w (i * dimS p) st1 w2) as (w2 & <- & Hinv2).
    { destruct (i mod 100 =? 0)%nat; eexists; (split; [reflexivity|]);
        [by apply noisy_scan_inv_print|done]. }
    rewrite (xrange_split _ _ Hj).
    match goal with
    | |- context [for_each (?l1 ++ ?a :: ?l2) ?body ?s ?w0] =>
        pose proof (for_each_raises
          (fun k => noisy_scan_inv p scale rcv w (i * dimS p + k)) Q
          l1 a l2 body s w0 ValueError) as Hloop
    end.
    apply Hloop.
    + by rewrite Nat.add_0_r.
    + intros k a st3 w3 [-> Hk]%xrange_lookup Hinv3.
      apply noisy_scan_inv_step; [done|done|lia| |done].
      apply Hbefore; [done|lia|lia].
    + rewrite xrange_length. intros st3 w3 (Hrng & _ & _ & Hpos & _).
      exists w3. split; [|done].
      by apply noisy_max_sample_raises.
  - exists w'. split; [|exact HQ]. by apply bind_inl.
Qed.

(** A scale the sampler rejects surfaces at the first draw of the first
    sample, the generator untouched. *)
Lemma noisy_max_rejected_scale p scale rcv w :
  rng_accepts w scale = false ->
  (0 < dimN p)%nat -> (0 < dimS p)%nat ->
  Forall countable (column p 0 0) ->
  exists w', noisy_max p scale rcv w = (inl ValueError, w') /\
    rng w' = rng w /\ rng_pos w' = rng_pos w.
Proof.
  intros Hok HN HS Hcol. unfold noisy_max.
  rewrite (xrange_head _ HN).
  eexists. split.
  - apply bind_inl. rewrite for_each_cons. apply bind_inl.
    change (0 mod 100 =? 0)%nat with true. cbv iota.
    erewrite bind_inr by reflexivity.
    rewrite (xrange_head _ HS), for_each_cons. apply bind_inl.
    by apply noisy_max_sample_rejects.
  - done.
Qed.

(** Without samples nothing is counted and nothing is drawn: whatever the
    scale, empty labels are returned. *)
Lemma noisy_max_empty_grid p scale rcv w :
  (dimN p * dimS p = 0)%nat ->
  exists cv w',
    noisy_max p scale rcv w = (inr (LabelTensor (dimN p) (dimS p) [], cv), w')
    /\ rng_pos w' = rng_pos w.
Proof.
  intros Hgrid. unfold noisy_max. rewrite Hgrid.
  match goal with
  | |- context [for_each ?l ?body ?s] =>
      pose proof (for_each_invariant
        (fun _ st w' => st = s /\ rng_pos w' = rng_pos w) l body s w) as Hloop
  end.
  destruct Hloop as (st & w' & E & -> & Hpos); [done| |].
  - intros i a st w1 [-> Hi]%xrange_lookup [-> Hpos].
    assert (dimS p = 0)%nat as -> by nia. cbv beta.
    destruct (i mod 100 =? 0)%nat; eexists _, _; (split; [reflexivity|done]).
  - eexists _, w'. split; [|done]. by erewrite bind_inr by exact E.
Qed.

(** ** Computations without effect *)

Lemma pure_ret {A} (a : A) : pure_comp (ret a).
Proof. by exists (inr a). Qed.

Lemma pure_lift {A} (r : exception + A) : pure_comp (lift r).
Proof. by exists r. Qed.

Lemma pure_bind {A B} (m : M A) (f : A -> M B) :
  pure_comp m -> (forall a, pure_comp (f a)) -> pure_comp (bind m f).
Proof.
  intros [r Hm] Hf. destruct r as [e|a].
  - exists (inl e). intros w. unfold bind. by rewrite Hm.
  - destruct (Hf a) as [r Hr]. exists r. intros w. unfold bind.
    by rewrite Hm, Hr.
Qed.

Lemma pure_for_each {A S} (l : list A) (body : A -> S -> M S) s :
  (forall a s, pure_comp (body a s)) -> pure_comp (for_each l body s).
Proof.
  intros Hbody. revert s. induction l as [|a l IH]; intros s; simpl.
  - apply pure_ret.
  - apply pure_bind; auto.
Qed.

Lemma pure_most_frequent_sample p i j result :
  pure_comp (most_frequent_sample p i j result).
Proof.
  unfold most_frequent_sample.
  apply pure_bind; [apply pure_lift|]. intros lc.
  apply pure_bind; [apply pure_lift|]. intros a. apply pure_ret.
Qed.

Lemma pure_aggregation_most_frequent p :
  pure_comp (aggregation_most_frequent p).
Proof.
  unfold aggregation_most_frequent.
  apply pure_bind; [|intros; apply pure_ret].
  apply pure_for_each. intros i r.
  apply pure_for_each. intros j r'. apply pure_most_frequent_sample.
Qed.

(** ** Rows of a score array *)

Lemma chunks_length {A} K n (l : list A) : length (chunks K n l) = n.
Proof. revert l. induction n as [|n IH]; intros l; simpl; [done|]. by rewrite IH. Qed.

Lemma chunks_lookup {A} K n (l : list A) r :
  (r < n)%nat -> chunks K n l !! r = Some (take K (drop (r * K) l)).
Proof.
  revert l r. induction n as [|n IH]; intros l r Hr; [lia|].
  destruct r as [|r]; simpl.
  - reflexivity.
  - rewrite IH by lia. by rewrite drop_drop, (Nat.add_comm K).
Qed.

Lemma row_length {A} K n (l : list A) r :
  length l = (n * K)%nat -> (r < n)%nat ->
  length (take K (drop (r * K) l)) = K.
Proof. intros Hl Hr. rewrite length_take, length_drop. nia. Qed.

Lemma map_exc_total {A B} (f : A -> exception + B) (g : A -> B) l :
  Forall (fun a => f a = inr (g a)) l -> map_exc f l = inr (map g l).
Proof.
  induction l as [|a l IH]; [done|].
  intros [Ha Hl]%Forall_cons. simpl. by rewrite Ha, (IH Hl).
Qed.

Lemma np_argmax_float_index (l : list spec_float) :
  (0 < length l)%nat -> np_argmax_float l = inr (argmax_float_index l).
Proof. destruct l; [simpl; lia|reflexivity]. Qed.

(** [labels_from_probs] on an array with a non-empty last axis: one
    position per row, cast to int32. *)
Lemma labels_from_probs_returns a w :
  wf_score_array a -> (0 < last_dim a)%nat ->
  labels_from_probs a w =
  (inr (IntArray (lead_shape a)
          (map wrap_int32
             (map argmax_float_index
                (chunks (last_dim a) (lead_size a) (scores a))))), w).
Proof.
  intros Hwf HK. unfold labels_from_probs, np_argmax_last_axis.
  rewrite (proj2 (Nat.eqb_neq _ 0)) by lia.
  rewrite (map_exc_total _ argmax_float_index); [reflexivity|].
  apply Forall_lookup_2. intros r c Hc.
  pose proof (lookup_lt_Some _ _ _ Hc) as Hr. rewrite chunks_length in Hr.
  rewrite chunks_lookup in Hc by done. injection Hc as <-.
  apply np_argmax_float_index.
  by rewrite (row_length _ (lead_size a)).
Qed.

(** The scan of a row that is constant up to its last entry, which is
    larger, ends on the last entry. *)
Lemma argmax_float_loop_last x y n best i :
  Float.leb x x = true -> Float.leb y x = false -> Float.is_nan y = false ->
  argmax_float_loop x best i (replicate n x ++ [y]) = i + Z.of_nat n.
Proof.
  intros Hxx Hyx Hy. revert i. induction n as [|n IH]; intros i.
  - simpl. rewrite Hyx, Hy. lia.
  - simpl replicate. simpl app. simpl argmax_float_loop.
    rewrite Hxx, IH. lia.
Qed.

Lemma labels_from_probs_long_row n w :
  let zero := S754_zero false in
  let one := Float.f64_of_Z 1 in
  labels_from_probs
    (ScoreArray [] (n + 2) (zero :: replicate n zero ++ [one])) w
  = (inr (IntArray [] [wrap_int32 (Z.of_nat n + 1)]), w).
Proof.
  intros zero one.
  rewrite labels_from_probs_returns.
  - simpl lead_shape. simpl last_dim. unfold lead_size, scores. simpl foldr.
    unfold chunks. rewrite take_ge.
    + unfold map, argmax_float_index, np_argmax_float. simpl Float.is_nan.
      cbv iota. rewrite argmax_float_loop_last by reflexivity.
      by rewrite (Z.add_comm 1).
    + simpl. rewrite length_app, length_replicate. simpl. lia.
  - unfold wf_score_array, lead_size. simpl.
    rewrite length_app, length_replicate. simpl. lia.
  - simpl. lia.
Qed.

(** ** A single class voted by every teacher *)

Lemma occurrences_constant c v x :
  Forall (fun u => u = v) x ->
  occurrences c x = if decide (v = c) then Z.of_nat (length x) else 0.
Proof.
  induction x as [|u x IH]; intros Hx.
  - by destruct (decide (v = c)).
  - apply Forall_cons in Hx as [-> Hx].
    rewrite occurrences_cons, (IH Hx). simpl length.
    destruct (decide (v = c)); lia.
Qed.

Lemma class_counts_unanimous n :
  class_counts (column (Tensor3 n 1 1 (replicate n 1)) 0 0)
  = [Z.of_nat n; 0; 0; 0; 0].
Proof.
  set (p := Tensor3 n 1 1 (replicate n 1)).
  assert (Forall (fun u => u = 1) (column p 0 0)) as Hcol.
  { apply column_Forall; [|simpl; lia..|].
    - unfold wf_tensor3. simpl. rewrite length_replicate. lia.
    - simpl. apply Forall_replicate. reflexivity. }
  unfold class_counts.
  rewrite !(occurrences_constant _ 1) by done.
  rewrite column_length. reflexivity.
Qed.

Lemma aggregation_most_frequent_unanimous n w :
  aggregation_most_frequent (Tensor3 n 1 1 (replicate n 1)) w
  = (inr (LabelTensor 1 1
            [most_frequent_label [Z.of_nat n; 0; 0; 0; 0]]), w).
Proof.
  set (p := Tensor3 n 1 1 (replicate n 1)).
  assert (columns_countable p) as Hcols.
  { apply countable_columns.
    - unfold wf_tensor3. simpl. rewrite length_replicate. lia.
    - simpl. apply Forall_replicate. unfold countable, bin_limit. lia. }
  destruct (aggregation_most_frequent_returns p w Hcols)
    as (lab & -> & Hlen & Hlab).
  assert (0 < dimN p)%nat as HN by (simpl; lia).
  assert (0 < dimS p)%nat as HS by (simpl; lia).
  specialize (Hlab 0%nat 0%nat HN HS).
  unfold p in Hlab at 2. rewrite (class_counts_unanimous n) in Hlab.
  simpl in Hlen, Hlab.
  destruct lab as [|x [|y lab]]; simpl in Hlen; try lia.
  simpl in Hlab. injection Hlab as ->. reflexivity.
Qed.

Lemma argmax_float_index_first_max (l : list spec_float) :
  (0 < length l)%nat -> no_nan l ->
  exists k, argmax_float_index l = Z.of_nat k /\ first_max_float l k.
Proof.
  intros Hlen Hnan. destruct l as [|x l]; [simpl in Hlen; lia|].
  unfold argmax_float_index.
  destruct (np_argmax_float_spec x l Hnan) as (k & -> & Hk). eauto.
Qed.

Lemma first_max_Z_head x : 0 <= x -> first_max_Z [x; 0; 0; 0; 0] 0.
Proof.
  intros Hx. exists x. split; [reflexivity|]. split.
  - intros [|[|[|[|[|j]]]]] y Hy; simplify_eq/=; lia.
  - intros; lia.
Qed.

(** ** Counts as floating-point numbers *)

Lemma digits2_pos_bounds m :
  2 ^ (Z.pos (digits2_pos m) - 1) <= Z.pos m < 2 ^ Z.pos (digits2_pos m).
Proof.
  induction m as [m IH|m IH|]; simpl digits2_pos.
  - rewrite Pos2Z.inj_succ.
    replace (Z.succ (Z.pos (digits2_pos m)) - 1)
      with (Z.succ (Z.pos (digits2_pos m) - 1)) by lia.
    rewrite !Z.pow_succ_r by lia. lia.
  - rewrite Pos2Z.inj_succ.
    replace (Z.succ (Z.pos (digits2_pos m)) - 1)
      with (Z.succ (Z.pos (digits2_pos m) - 1)) by lia.
    rewrite !Z.pow_succ_r by lia. lia.
  - simpl. lia.
Qed.

Lemma digits2_pos_unique m d :
  2 ^ (d - 1) <= Z.pos m < 2 ^ d -> Z.pos (digits2_pos m) = d.
Proof.
  intros [Hlo Hhi]. pose proof (digits2_pos_bounds m) as [Hlo' Hhi'].
  assert (0 < d) as Hd.
  { destruct (decide (0 < d)); [done|].
    assert (2 ^ d <= 1); [|lia].
    destruct (decide (d = 0)) as [->|]; [simpl; lia|].
    rewrite Z.pow_neg_r by lia. lia. }
  destruct (Z.lt_trichotomy (Z.pos (digits2_pos m)) d) as [H|[H|H]];
    [|done|].
  - assert (2 ^ Z.pos (digits2_pos m) <= 2 ^ (d - 1))
      by (apply Z.pow_le_mono_r; lia). lia.
  - assert (2 ^ d <= 2 ^ (Z.pos (digits2_pos m) - 1))
      by (apply Z.pow_le_mono_r; lia). lia.
Qed.

Lemma iter_xO m k : Z.pos (Pos.iter xO m k) = Z.pos m * 2 ^ Z.pos k.
Proof.
  induction k as [|k IH] using Pos.peano_ind.
  - simpl. lia.
  - rewrite Pos.iter_succ, Pos2Z.inj_succ, Z.pow_succ_r by lia.
    rewrite Pos2Z.inj_xO, IH. lia.
Qed.

(** A mantissa of full width with an exponent in range is kept as it is
    by the rounding step. *)
Lemma binary_round_aux_canonical prec emax s mz ez :
  Z.pos (digits2_pos mz) = prec ->
  3 - emax - prec <= ez <= emax - prec ->
  binary_round_aux prec emax s (Z.pos mz) ez loc_Exact = S754_finite s mz ez.
Proof.
  intros Hd [Hlo Hhi].
  assert (shr_fexp prec emax (Z.pos mz) ez loc_Exact
          = (Build_shr_record (Z.pos mz) false false, ez)) as Hshr.
  { unfold shr_fexp, fexp, emin. simpl Zdigits2. rewrite Hd.
    replace (Z.max (prec + ez - prec) (3 - emax - prec) - ez) with 0 by lia.
    reflexivity. }
  unfold binary_round_aux. rewrite Hshr. simpl. rewrite Hshr. simpl.
  by rewrite (proj2 (Z.leb_le _ _) Hhi).
Qed.

(** The float of a positive integer of at most [prec] bits: the integer
    shifted to a mantissa of full width. *)
Lemma of_Z_small prec emax m :
  Z.pos (digits2_pos m) <= prec -> 2 <= emax -> prec <= emax ->
  exists mz,
    Float.of_Z prec emax (Z.pos m)
    = S754_finite false mz (Z.pos (digits2_pos m) - prec) /\
    Z.pos mz = Z.pos m * 2 ^ (prec - Z.pos (digits2_pos m)) /\
    Z.pos (digits2_pos mz) = prec.
Proof.
  intros Hd Hemax Hprec. set (d := Z.pos (digits2_pos m)) in *.
  unfold Float.of_Z, binary_normalize, binary_round.
  assert (fexp prec emax (Z.pos (digits2_pos m) + 0) = d - prec) as ->.
  { unfold fexp, emin. fold d. lia. }
  pose proof (digits2_pos_bounds m) as [Hlo Hhi]. fold d in Hlo, Hhi.
  unfold shl_align.
  destruct (d - prec - 0) as [|k|k] eqn:Ek; [|lia|].
  - assert (d = prec) as Hdp by lia.
    exists m. rewrite binary_round_aux_canonical; [|by fold d|lia].
    rewrite Hdp, Z.sub_diag. split; [reflexivity|].
    split; [simpl; lia|by fold d].
  - exists (Pos.iter xO m k).
    assert (Z.pos k = prec - d) as Hk by lia.
    assert (Z.pos (Pos.iter xO m k) = Z.pos m * 2 ^ (prec - d)) as Hmz
      by (by rewrite iter_xO, Hk).
    assert (Z.pos (digits2_pos (Pos.iter xO m k)) = prec) as Hdz.
    { apply digits2_pos_unique. rewrite Hmz.
      assert (2 ^ (prec - 1) = 2 ^ (d - 1) * 2 ^ (prec - d)) as ->
        by (rewrite <- Z.pow_add_r by lia; f_equal; lia).
      assert (2 ^ prec = 2 ^ d * 2 ^ (prec - d)) as ->
        by (rewrite <- Z.pow_add_r by lia; f_equal; lia).
      assert (0 < 2 ^ (prec - d)) by (apply Z.pow_pos_nonneg; lia).
      split.
      - apply Z.mul_le_mono_nonneg_r; lia.
      - apply Z.mul_lt_mono_pos_r; lia. }
    rewrite binary_round_aux_canonical; [|exact Hdz|lia].
    done.
Qed.

Lemma small_digits m prec :
  Z.pos m < 2 ^ prec -> Z.pos (digits2_pos m) <= prec.
Proof.
  intros Hm. pose proof (digits2_pos_bounds m) as [Hlo _].
  destruct (decide (Z.pos (digits2_pos m) <= prec)); [done|].
  assert (2 ^ prec <= 2 ^ (Z.pos (digits2_pos m) - 1)); [|lia].
  destruct (decide (0 <= prec)).
  - apply Z.pow_le_mono_r; lia.
  - rewrite (Z.pow_neg_r 2 prec) by lia. apply Z.pow_nonneg. lia.
Qed.

(** An integer below [2 ^ prec] is represented exactly. *)
Lemma trunc_of_Z prec emax z :
  0 <= z < 2 ^ prec -> 2 <= emax -> prec <= emax ->
  Float.trunc (Float.of_Z prec emax z) = Some z.
Proof.
  intros [Hz0 Hz] Hemax Hprec. destruct z as [|m|m]; [reflexivity| |lia].
  pose proof (small_digits m prec Hz) as Hd.
  destruct (of_Z_small prec emax m Hd Hemax Hprec) as (mz & -> & Hmz & _).
  unfold Float.trunc. simpl cond_Zopp. f_equal.
  set (d := Z.pos (digits2_pos m)) in *.
  destruct (0 <=? d - prec) eqn:E.
  - apply Z.leb_le in E. assert (d = prec) as -> by lia.
    rewrite Hmz, !Z.sub_diag. simpl. lia.
  - apply Z.leb_gt in E. rewrite Hmz.
    replace (- (d - prec)) with (prec - d) by lia.
    apply Z.div_mul.
    assert (0 < 2 ^ (prec - d)) by (apply Z.pow_pos_nonneg; lia). lia.
Qed.

(** Integers below [2 ^ prec] compare as their floats do. *)
Lemma of_Z_compare prec emax a b :
  0 <= a < 2 ^ prec -> 0 <= b < 2 ^ prec -> 2 <= emax -> prec <= emax ->
  SFcompare (Float.of_Z prec emax a) (Float.of_Z prec emax b)
  = Some (a ?= b).
Proof.
  intros [Ha0 Ha] [Hb0 Hb] Hemax Hprec.
  destruct a as [|ma|ma], b as [|mb|mb]; try lia; try reflexivity.
  - pose proof (small_digits mb prec Hb) as Hd.
    by destruct (of_Z_small prec emax mb Hd Hemax Hprec) as (mz & -> & _).
  - pose proof (small_digits ma prec Ha) as Hd.
    by destruct (of_Z_small prec emax ma Hd Hemax Hprec) as (mz & -> & _).
  - pose proof (small_digits ma prec Ha) as Hda.
    pose proof (small_digits mb prec Hb) as Hdb.
    destruct (of_Z_small prec emax ma Hda Hemax Hprec)
      as (mza & -> & Hmza & _).
    destruct (of_Z_small prec emax mb Hdb Hemax Hprec)
      as (mzb & -> & Hmzb & _).
    pose proof (digits2_pos_bounds ma) as [Hloa Hhia].
    pose proof (digits2_pos_bounds mb) as [Hlob Hhib].
    set (da := Z.pos (digits2_pos ma)) in *.
    set (db := Z.pos (digits2_pos mb)) in *.
    unfold SFcompare. f_equal.
    destruct (Z.compare_spec (da - prec) (db - prec)) as [E|E|E].
    + assert (da = db) as Hdd by lia.
      change (Pos.compare_cont Eq mza mzb) with (Pos.compare mza mzb).
      rewrite (Pos2Z.inj_compare mza mzb), Hmza, Hmzb, Hdd.
      assert (0 < 2 ^ (prec - db)) by (apply Z.pow_pos_nonneg; lia).
      destruct (Z.compare_spec (Z.pos ma * 2 ^ (prec - db))
                               (Z.pos mb * 2 ^ (prec - db))),
               (Z.compare_spec (Z.pos ma) (Z.pos mb));
        try reflexivity; nia.
    + symmetry. apply Z.compare_lt_iff.
      assert (2 ^ da <= 2 ^ (db - 1)) by (apply Z.pow_le_mono_r; lia).
      lia.
    + symmetry. apply Z.compare_gt_iff.
      assert (2 ^ db <= 2 ^ (da - 1)) by (apply Z.pow_le_mono_r; lia).
      lia.
Qed.

Lemma of_Z_leb prec emax a b :
  0 <= a < 2 ^ prec -> 0 <= b < 2 ^ prec -> 2 <= emax -> prec <= emax ->
  Float.leb (Float.of_Z prec emax a) (Float.of_Z prec emax b) = (a <=? b).
Proof.
  intros Ha Hb Hemax Hprec. unfold Float.leb, SFleb.
  rewrite of_Z_compare by done. unfold Z.leb.
  by destruct (a ?= b).
Qed.

Lemma of_Z_not_nan prec emax z :
  0 <= z < 2 ^ prec -> 2 <= emax -> prec <= emax ->
  Float.is_nan (Float.of_Z prec emax z) = false.
Proof.
  intros [Hz0 Hz] Hemax Hprec. destruct z as [|m|m]; [reflexivity| |lia].
  pose proof (small_digits m prec Hz) as Hd.
  by destruct (of_Z_small prec emax m Hd Hemax Hprec) as (mz & -> & _).
Qed.

Lemma iter_pos_iter {A} (f : A -> A) p x : SpecFloat.iter_pos f p x = Pos.iter f x p.
Proof.
  revert x. induction p as [p IH|p IH|]; intros x; simpl.
  - by rewrite !IH, !Pos.iter_swap.
  - by rewrite !IH.
  - reflexivity.
Qed.

(** Shifting out bits that are all zero loses nothing. *)
Lemma iter_shr_exact k mz :
  SpecFloat.iter_pos shr_1 k (Build_shr_record (Z.pos (Pos.iter xO mz k)) false false)
  = Build_shr_record (Z.pos mz) false false.
Proof.
  rewrite iter_pos_iter.
  induction k as [|k IH] using Pos.peano_ind.
  - reflexivity.
  - rewrite Pos.iter_succ_r, Pos.iter_succ. simpl shr_1. exact IH.
Qed.

Lemma pos_shift m mz k :
  Z.pos m = Z.pos mz * 2 ^ Z.pos k -> m = Pos.iter xO mz k.
Proof. intros H. apply Pos2Z.inj. by rewrite iter_xO. Qed.

Lemma digits_shift m k :
  0 <= k ->
  forall mz, Z.pos mz = Z.pos m * 2 ^ k ->
  Z.pos (digits2_pos mz) = Z.pos (digits2_pos m) + k.
Proof.
  intros Hk mz Hmz. apply digits2_pos_unique. rewrite Hmz.
  pose proof (digits2_pos_bounds m) as [Hlo Hhi].
  set (d := Z.pos (digits2_pos m)) in *.
  assert (0 < d) by (unfold d; lia).
  replace (d + k - 1) with ((d - 1) + k) by lia.
  rewrite !Z.pow_add_r by lia.
  assert (0 < 2 ^ k) by (apply Z.pow_pos_nonneg; lia).
  split.
  - apply Z.mul_le_mono_nonneg_r; lia.
  - apply Z.mul_lt_mono_pos_r; lia.
Qed.

(** A mantissa that is a full-width mantissa followed by [k] zero bits is
    rounded to that mantissa, without error. *)
Lemma binary_round_aux_exact prec emax s m e mz k :
  0 <= k -> Z.pos m = Z.pos mz * 2 ^ k ->
  Z.pos (digits2_pos mz) = prec ->
  3 - emax - prec <= e + k <= emax - prec ->
  binary_round_aux prec emax s (Z.pos m) e loc_Exact
  = S754_finite s mz (e + k).
Proof.
  intros Hk Hm Hd Hrange.
  destruct k as [|k|k]; [|clear Hk|lia].
  - assert (m = mz) as -> by lia. rewrite Z.add_0_r in *.
    by apply binary_round_aux_canonical.
  - pose proof (digits_shift mz (Z.pos k) ltac:(lia) m Hm) as Hdm.
    apply pos_shift in Hm. subst m.
    assert (shr_fexp prec emax (Z.pos (Pos.iter xO mz k)) e loc_Exact
            = (Build_shr_record (Z.pos mz) false false, e + Z.pos k)) as Hshr.
    { unfold shr_fexp, fexp, emin. simpl Zdigits2. rewrite Hdm, Hd.
      replace (Z.max (prec + Z.pos k + e - prec) (3 - emax - prec) - e)
        with (Z.pos k) by lia.
      simpl shr. by rewrite iter_shr_exact. }
    assert (shr_fexp prec emax (Z.pos mz) (e + Z.pos k) loc_Exact
            = (Build_shr_record (Z.pos mz) false false, e + Z.pos k)) as Hshr'.
    { unfold shr_fexp, fexp, emin. simpl Zdigits2. rewrite Hd.
      replace (Z.max (prec + (e + Z.pos k) - prec) (3 - emax - prec)
               - (e + Z.pos k)) with 0 by lia.
      reflexivity. }
    unfold binary_round_aux. rewrite Hshr. simpl. rewrite Hshr'. simpl.
    by rewrite (proj2 (Z.leb_le _ _) (proj2 Hrange)).
Qed.

(** Rounding is exact on a number that the format holds: when
    [m * 2 ^ e = mz * 2 ^ ez] for a mantissa [mz] of full width and an
    exponent [ez] in range, [binary_round] returns [mz] and [ez]. *)
Lemma binary_round_exact prec emax s m e mz ez :
  Z.pos (digits2_pos mz) = prec ->
  3 - emax - prec <= ez <= emax - prec ->
  (ez <= e /\ Z.pos mz = Z.pos m * 2 ^ (e - ez)) \/
  (e < ez /\ Z.pos m = Z.pos mz * 2 ^ (ez - e)) ->
  binary_round prec emax s m e = S754_finite s mz ez.
Proof.
  intros Hd Hrange Hval. unfold binary_round.
  destruct Hval as [[Hle Hmz]|[Hlt Hm]].
  - pose proof (digits_shift m (e - ez) ltac:(lia) mz Hmz) as Hdz.
    assert (fexp prec emax (Z.pos (digits2_pos m) + e) = ez) as ->.
    { unfold fexp, emin. lia. }
    unfold shl_align.
    destruct (ez - e) as [|k|k] eqn:Ek; [|lia|].
    + assert (e = ez) as -> by lia. rewrite Z.sub_diag in Hmz.
      assert (m = mz) as -> by lia.
      by apply binary_round_aux_canonical.
    + assert (e - ez = Z.pos k) as Hk by lia. rewrite Hk in Hmz.
      assert (Pos.iter xO m k = mz) as ->.
      { apply Pos2Z.inj. by rewrite iter_xO. }
      by apply binary_round_aux_canonical.
  - pose proof (digits_shift mz (ez - e) ltac:(lia) m Hm) as Hdm.
    assert (fexp prec emax (Z.pos (digits2_pos m) + e) = ez) as ->.
    { unfold fexp, emin. lia. }
    unfold shl_align.
    destruct (ez - e) as [|k|k] eqn:Ek; [lia| |lia].
    replace ez with (e + Z.pos k) by lia.
    apply binary_round_aux_exact; [lia|done|done|lia].
Qed.

(** The mantissa of full width of a positive integer of at most [prec]
    bits. *)
Lemma canonical_mantissa prec v :
  Z.pos (digits2_pos v) <= prec ->
  exists mz, Z.pos mz = Z.pos v * 2 ^ (prec - Z.pos (digits2_pos v)) /\
             Z.pos (digits2_pos mz) = prec.
Proof.
  intros Hd. set (d := Z.pos (digits2_pos v)) in *.
  assert (0 < Z.pos v * 2 ^ (prec - d)) as Hpos.
  { assert (0 < 2 ^ (prec - d)) by (apply Z.pow_pos_nonneg; lia). lia. }
  exists (Z.to_pos (Z.pos v * 2 ^ (prec - d))).
  assert (Z.pos (Z.to_pos (Z.pos v * 2 ^ (prec - d)))
          = Z.pos v * 2 ^ (prec - d)) as Hmz by (by apply Z2Pos.id).
  split; [exact Hmz|].
  rewrite (digits_shift v (prec - d) ltac:(lia) _ Hmz). unfold d. lia.
Qed.

(** The value of a finite float that is an integer. *)
Lemma to_Z_finite s m e n :
  Float.to_Z (S754_finite s m e) = Some n ->
  exists v, n = cond_Zopp s (Z.pos v) /\
    ((0 <= e /\ Z.pos v = Z.pos m * 2 ^ e) \/
     (e < 0 /\ Z.pos m = Z.pos v * 2 ^ (- e))).
Proof.
  unfold Float.to_Z. destruct (Z.leb_spec 0 e) as [He|He].
  - intros [= <-].
    assert (0 < Z.pos m * 2 ^ e) as Hpos.
    { assert (0 < 2 ^ e) by (apply Z.pow_pos_nonneg; lia). lia. }
    exists (Z.to_pos (Z.pos m * 2 ^ e)). rewrite Z2Pos.id by done.
    split; [done|]. by left.
  - destruct (Z.eqb_spec (Z.pos m mod 2 ^ (- e)) 0) as [Hmod|]; [|done].
    intros [= <-].
    assert (0 < 2 ^ (- e)) as Hpow by (apply Z.pow_pos_nonneg; lia).
    pose proof (Z.div_mod (Z.pos m) (2 ^ (- e)) ltac:(lia)) as Hdiv.
    rewrite Hmod, Z.add_0_r in Hdiv.
    assert (0 < Z.pos m / 2 ^ (- e)) as Hq by nia.
    exists (Z.to_pos (Z.pos m / 2 ^ (- e))). rewrite Z2Pos.id by done.
    split; [done|]. right. split; [done|]. lia.
Qed.

Lemma to_Z_canonical s mz v prec :
  Z.pos (digits2_pos v) <= prec ->
  Z.pos mz = Z.pos v * 2 ^ (prec - Z.pos (digits2_pos v)) ->
  Float.to_Z (S754_finite s mz (Z.pos (digits2_pos v) - prec))
  = Some (cond_Zopp s (Z.pos v)).
Proof.
  intros Hd Hmz. set (d := Z.pos (digits2_pos v)) in *.
  unfold Float.to_Z. destruct (Z.leb_spec 0 (d - prec)) as [He|He].
  - assert (d = prec) as Hdp by lia. rewrite Hdp, Z.sub_diag in *.
    do 2 f_equal. simpl in *. lia.
  - replace (- (d - prec)) with (prec - d) by lia.
    assert (0 < 2 ^ (prec - d)) as Hpow by (apply Z.pow_pos_nonneg; lia).
    rewrite Hmz, Z.mod_mul, Z.div_mul by lia. reflexivity.
Qed.

(** Rounding a number that is an integer [v] of at most [prec] bits
    returns the float of [v]: its mantissa of full width and the exponent
    that goes with it. *)
Lemma binary_round_integer_canonical prec emax s m e v :
  2 <= emax -> prec <= emax -> Z.pos v < 2 ^ prec ->
  (0 <= e /\ Z.pos v = Z.pos m * 2 ^ e) \/
  (e < 0 /\ Z.pos m = Z.pos v * 2 ^ (- e)) ->
  exists mz,
    binary_round prec emax s m e
    = S754_finite s mz (Z.pos (digits2_pos v) - prec) /\
    Z.pos mz = Z.pos v * 2 ^ (prec - Z.pos (digits2_pos v)).
Proof.
  intros Hemax Hprec Hv Hval.
  pose proof (small_digits v prec Hv) as Hd.
  destruct (canonical_mantissa prec v Hd) as (mz & Hmz & Hdz).
  pose proof (digits2_pos_bounds v) as [Hlo _].
  exists mz. split; [|exact Hmz].
  set (d := Z.pos (digits2_pos v)) in *.
  assert (0 < d) as Hdpos by (unfold d; lia).
  apply binary_round_exact; [done|lia|].
  destruct Hval as [[He Hm]|[He Hm]].
  - left. split; [lia|]. rewrite Hmz, Hm.
    replace (e - (d - prec)) with (e + (prec - d)) by lia.
    rewrite Z.pow_add_r by lia. lia.
  - destruct (decide (d - prec <= e)) as [Hle|Hgt].
    + left. split; [done|]. rewrite Hmz, Hm.
      replace (prec - d) with (- e + (e - (d - prec))) by lia.
      rewrite Z.pow_add_r by lia. lia.
    + right. split; [lia|]. rewrite Hmz, Hm.
      replace (- e) with (prec - d + (d - prec - e)) by lia.
      rewrite Z.pow_add_r by lia. lia.
Qed.

Lemma binary_round_integer prec emax s m e v :
  2 <= emax -> prec <= emax -> Z.pos v < 2 ^ prec ->
  (0 <= e /\ Z.pos v = Z.pos m * 2 ^ e) \/
  (e < 0 /\ Z.pos m = Z.pos v * 2 ^ (- e)) ->
  Float.to_Z (binary_round prec emax s m e) = Some (cond_Zopp s (Z.pos v)).
Proof.
  intros Hemax Hprec Hv Hval.
  destruct (binary_round_integer_canonical prec emax s m e v)
    as (mz & -> & Hmz); [done..|].
  apply to_Z_canonical; [by apply small_digits|done].
Qed.

Lemma binary_round_integer_eq prec emax s m e v :
  2 <= emax -> prec <= emax -> Z.pos v < 2 ^ prec ->
  (0 <= e /\ Z.pos v = Z.pos m * 2 ^ e) \/
  (e < 0 /\ Z.pos m = Z.pos v * 2 ^ (- e)) ->
  binary_round prec emax s m e = binary_round prec emax s v 0.
Proof.
  intros Hemax Hprec Hv Hval.
  destruct (binary_round_integer_canonical prec emax s m e v)
    as (mz & -> & Hmz); [done..|].
  destruct (binary_round_integer_canonical prec emax s v 0 v)
    as (mz' & -> & Hmz'); [done..| |].
  { left. split; [lia|]. simpl. lia. }
  f_equal. lia.
Qed.

Lemma of_Z_signed prec emax s v :
  Float.of_Z prec emax (cond_Zopp s (Z.pos v)) = binary_round prec emax s v 0.
Proof. by destruct s. Qed.

Lemma of_Z_integer prec emax z :
  2 <= emax -> prec <= emax -> - 2 ^ prec < z < 2 ^ prec ->
  Float.to_Z (Float.of_Z prec emax z) = Some z.
Proof.
  intros Hemax Hprec Hz. unfold Float.of_Z, binary_normalize.
  destruct z as [|v|v]; [reflexivity| |].
  - apply (binary_round_integer prec emax false v 0 v); [done..|lia|].
    left. split; [lia|]. simpl. lia.
  - apply (binary_round_integer prec emax true v 0 v); [done..|lia|].
    left. split; [lia|]. simpl. lia.
Qed.

(** Conversion of a finite float that is an integer of the format. *)
Lemma convert_integer_eq prec emax s m e n :
  2 <= emax -> prec <= emax -> - 2 ^ prec < n < 2 ^ prec ->
  Float.to_Z (S754_finite s m e) = Some n ->
  Float.convert prec emax (S754_finite s m e) = Float.of_Z prec emax n.
Proof.
  intros Hemax Hprec Hn Hx.
  destruct (to_Z_finite s m e n Hx) as (v & -> & Hval).
  rewrite of_Z_signed. simpl Float.convert.
  apply binary_round_integer_eq; [done..| |done].
  destruct s; simpl in Hn; lia.
Qed.

Lemma shl_align_fst m e ez :
  ez <= e -> Z.pos (fst (shl_align m e ez)) = Z.pos m * 2 ^ (e - ez).
Proof.
  intros Hle. unfold shl_align.
  destruct (ez - e) as [|k|k] eqn:Ek; [|lia|]; simpl fst.
  - replace (e - ez) with 0 by lia. simpl. lia.
  - rewrite iter_xO. f_equal. f_equal. lia.
Qed.

(** The aligned mantissa of a float that is the integer [n]. *)
Lemma aligned_integer s m e ez n :
  ez <= e -> Float.to_Z (S754_finite s m e) = Some n ->
  (0 <= ez -> n = cond_Zopp s (Z.pos (fst (shl_align m e ez))) * 2 ^ ez) /\
  (ez < 0 -> cond_Zopp s (Z.pos (fst (shl_align m e ez))) = n * 2 ^ (- ez)).
Proof.
  intros Hle Hn. rewrite shl_align_fst by done.
  destruct (to_Z_finite s m e n Hn) as (v & -> & Hval).
  assert (forall a b, cond_Zopp s a * b = cond_Zopp s (a * b)) as Hopp
    by (intros; destruct s; simpl; lia).
  split; intros Hez; rewrite Hopp; f_equal.
  - destruct Hval as [[He ->]|[He Hm]]; [|lia].
    rewrite <- Z.mul_assoc, <- Z.pow_add_r by lia.
    by replace (e - ez + ez) with e by lia.
  - destruct Hval as [[He ->]|[He Hm]].
    + rewrite <- Z.mul_assoc, <- Z.pow_add_r by lia.
      by replace (e + - ez) with (e - ez) by lia.
    + rewrite Hm, <- Z.mul_assoc, <- Z.pow_add_r by lia.
      by replace (- e + (e - ez)) with (- ez) by lia.
Qed.

(** The sum of two finite floats that are integers. *)
Lemma SFadd_integer_eq prec emax sx mx ex sy my ey a b :
  2 <= emax -> prec <= emax -> - 2 ^ prec < a + b < 2 ^ prec ->
  Float.to_Z (S754_finite sx mx ex) = Some a ->
  Float.to_Z (S754_finite sy my ey) = Some b ->
  SFadd prec emax (S754_finite sx mx ex) (S754_finite sy my ey)
  = Float.of_Z prec emax (a + b).
Proof.
  intros Hemax Hprec Hsum Hx Hy.
  unfold SFadd. set (ez := Z.min ex ey).
  destruct (aligned_integer sx mx ex ez a ltac:(lia) Hx) as [Ha Ha'].
  destruct (aligned_integer sy my ey ez b ltac:(lia) Hy) as [Hb Hb'].
  set (ma := cond_Zopp sx (Z.pos (fst (shl_align mx ex ez)))) in *.
  set (mb := cond_Zopp sy (Z.pos (fst (shl_align my ey ez)))) in *.
  assert ((0 <= ez /\ a + b = (ma + mb) * 2 ^ ez) \/
          (ez < 0 /\ ma + mb = (a + b) * 2 ^ (- ez))) as Hval.
  { destruct (decide (0 <= ez)); [left|right]; (split; [lia|]).
    - rewrite Ha, Hb by done. lia.
    - rewrite Ha', Hb' by lia. lia. }
  assert (forall k, 0 < 2 ^ (Z.abs k)) as Hpow
    by (intros; apply Z.pow_pos_nonneg; lia).
  specialize (Hpow ez).
  unfold Float.of_Z, binary_normalize.
  destruct (ma + mb) as [|M|M] eqn:EM.
  - assert (a + b = 0) as ->; [|reflexivity].
    destruct Hval as [[_ ->]|[Hez Hv]]; [lia|].
    rewrite Z.abs_neq in Hpow by lia. nia.
  - assert (0 < a + b) as Hpos.
    { destruct Hval as [[Hez ->]|[Hez Hv]].
      - rewrite Z.abs_eq in Hpow by lia. nia.
      - rewrite Z.abs_neq in Hpow by lia. nia. }
    destruct (a + b) as [|v|v] eqn:Ev; [lia| |lia].
    apply binary_round_integer_eq; [done..|lia|exact Hval].
  - assert (a + b < 0) as Hneg.
    { destruct Hval as [[Hez ->]|[Hez Hv]].
      - rewrite Z.abs_eq in Hpow by lia. nia.
      - rewrite Z.abs_neq in Hpow by lia. nia. }
    destruct (a + b) as [|v|v] eqn:Ev; [lia|lia|].
    apply binary_round_integer_eq; [done..|lia|].
    destruct Hval as [[Hez Hv]|[Hez Hv]]; [left|right]; (split; [done|]);
      lia.
Qed.

(** The float of a non-zero integer of the format is finite. *)
Lemma of_Z_finite prec emax z :
  2 <= emax -> prec <= emax -> - 2 ^ prec < z < 2 ^ prec -> z <> 0 ->
  exists s m e, Float.of_Z prec emax z = S754_finite s m e.
Proof.
  intros Hemax Hprec Hz Hnz. unfold Float.of_Z, binary_normalize.
  destruct z as [|v|v]; [done| |].
  - destruct (binary_round_integer_canonical prec emax false v 0 v)
      as (mz & -> & _); [done..|lia| |eauto].
    left. split; [lia|]. simpl. lia.
  - destruct (binary_round_integer_canonical prec emax true v 0 v)
      as (mz & -> & _); [done..|lia| |eauto].
    left. split; [lia|]. simpl. lia.
Qed.

(** The sum of the floats of two integers. *)
Lemma SFadd_of_Z prec emax a b :
  2 <= emax -> prec <= emax ->
  - 2 ^ prec < a < 2 ^ prec -> - 2 ^ prec < b < 2 ^ prec ->
  - 2 ^ prec < a + b < 2 ^ prec ->
  SFadd prec emax (Float.of_Z prec emax a) (Float.of_Z prec emax b)
  = Float.of_Z prec emax (a + b).
Proof.
  intros Hemax Hprec Ha Hb Hsum.
  destruct (decide (a = 0)) as [->|Hna], (decide (b = 0)) as [->|Hnb].
  - reflexivity.
  - destruct (of_Z_finite prec emax b) as (s & m & e & E); [done..|].
    simpl Z.add. by rewrite E.
  - destruct (of_Z_finite prec emax a) as (s & m & e & E); [done..|].
    rewrite Z.add_0_r. by rewrite E.
  - pose proof (of_Z_integer prec emax a Hemax Hprec Ha) as Hza.
    pose proof (of_Z_integer prec emax b Hemax Hprec Hb) as Hzb.
    destruct (of_Z_finite prec emax a) as (sa & ma & ea & Ea); [done..|].
    destruct (of_Z_finite prec emax b) as (sb & mb & eb & Eb); [done..|].
    rewrite Ea, Eb in *. by apply SFadd_integer_eq.
Qed.

(** Conversion of a float that is an integer of the format: the float of
    that integer, up to the sign of a zero. *)
Lemma convert_integer_of_Z prec emax x n :
  2 <= emax -> prec <= emax -> - 2 ^ prec < n < 2 ^ prec ->
  Float.to_Z x = Some n ->
  Float.convert prec emax x = Float.of_Z prec emax n \/
  (n = 0 /\ Float.convert prec emax x = S754_zero true).
Proof.
  intros Hemax Hprec Hn Hx. destruct x as [[]| | |s m e]; try done.
  - right. by injection Hx as <-.
  - left. by injection Hx as <-.
  - left. by apply convert_integer_eq.
Qed.

(** An integer draw is added without error, and the noisy score is the
    float32 of the sum. *)
Lemma add_noise_integer_eq rule c draw n :
  0 <= c < 2 ^ 24 -> - 2 ^ 24 < n < 2 ^ 24 -> - 2 ^ 24 < c + n < 2 ^ 24 ->
  Float.to_Z draw = Some n ->
  add_noise rule (Float.f32_of_Z c) draw = Float.f32_of_Z (c + n).
Proof.
  intros Hc Hn Hsum Hdraw.
  assert (2 <= 128 /\ 24 <= 128 /\ 2 <= 1024 /\ 53 <= 1024) as (H1 & H2 & H3 & H4)
    by lia.
  unfold Float.f32_of_Z, Float.f32_prec, Float.f32_emax.
  destruct rule; unfold add_noise, Float.f32_prec, Float.f32_emax,
    Float.f64_prec, Float.f64_emax.
  - (* the sum in binary64, then the store *)
    destruct (decide (c = 0)) as [->|Hnc].
    + destruct draw as [[]| | |s m e]; try done.
      * by injection Hdraw as <-.
      * by injection Hdraw as <-.
      * change (Float.of_Z 24 128 0) with (S754_zero false).
        simpl SFadd. simpl Z.add. by apply convert_integer_eq.
    + destruct (of_Z_finite 24 128 c) as (sc & mc & ec & Ec); [lia..|].
      pose proof (of_Z_integer 24 128 c H1 H2 ltac:(lia)) as Hzc.
      rewrite Ec in *.
      destruct draw as [sd|sd| |sd md ed]; try done.
      * injection Hdraw as <-. rewrite Z.add_0_r. simpl SFadd.
        rewrite (convert_integer_eq 24 128 sc mc ec c); [done|lia..|done].
      * rewrite (SFadd_integer_eq 53 1024 sc mc ec sd md ed c n);
          [|lia..|done|done].
        destruct (decide (c + n = 0)) as [->|Hnz]; [reflexivity|].
        destruct (of_Z_finite 53 1024 (c + n)) as (s & m & e & E); [lia..|].
        pose proof (of_Z_integer 53 1024 (c + n) H3 H4 ltac:(lia)) as Hz.
        rewrite E in *. by apply convert_integer_eq.
  - (* the draw rounded to binary32, then the sum in binary32 *)
    destruct (convert_integer_of_Z 24 128 draw n H1 H2 Hn Hdraw)
      as [->|[-> ->]].
    + apply SFadd_of_Z; [done|done|lia|done|done].
    + rewrite Z.add_0_r.
      destruct (decide (c = 0)) as [->|Hnc]; [reflexivity|].
      destruct (of_Z_finite 24 128 c) as (sc & mc & ec & Ec); [lia..|].
      by rewrite Ec.
Qed.

Lemma add_noise_integer rule c draw n :
  0 <= c < 2 ^ 24 -> - 2 ^ 24 < n < 2 ^ 24 -> - 2 ^ 24 < c + n < 2 ^ 24 ->
  Float.to_Z draw = Some n ->
  Float.to_Z (add_noise rule (Float.f32_of_Z c) draw) = Some (c + n).
Proof.
  intros Hc Hn Hsum Hdraw. rewrite (add_noise_integer_eq rule c draw n) by done.
  apply of_Z_integer; unfold Float.f32_prec, Float.f32_emax; lia.
Qed.

(** The noisy scores of the model are those of the design document. *)
Lemma noisy_counts_scores rule p i j draw :
  noisy_counts rule (votes_at p i j) draw = noisy_scores rule p i j draw.
Proof. by destruct rule. Qed.

Lemma noisy_score_add_noise rule c draw :
  noisy_score rule c draw = add_noise rule (Float.f32_of_Z c) draw.
Proof. by destruct rule. Qed.

(** A zero noise sample leaves a float32 count as it is. *)
Lemma add_noise_zero rule c noise :
  0 <= c < 2 ^ 24 -> is_zero noise = true ->
  add_noise rule (Float.f32_of_Z c) noise = Float.f32_of_Z c.
Proof.
  intros [Hc0 Hc] Hzero. destruct noise as [s| | |]; try discriminate.
  unfold Float.f32_of_Z, Float.f32_prec, Float.f32_emax.
  destruct c as [|m|m]; [by destruct rule, s| |lia].
  pose proof (small_digits m 24 Hc) as Hd.
  destruct (of_Z_small 24 128 m Hd ltac:(lia) ltac:(lia))
    as (mz & -> & Hmz & Hdz).
  destruct rule; unfold add_noise; simpl SFadd; [|reflexivity].
  unfold Float.convert, binary_round.
  pose proof (digits2_pos_bounds m) as [Hlo Hhi].
  assert (0 < Z.pos (digits2_pos m)) as Hdpos by lia.
  unfold Float.f32_prec, Float.f32_emax.
  assert (fexp 24 128 (Z.pos (digits2_pos mz)
                       + (Z.pos (digits2_pos m) - 24))
          = Z.pos (digits2_pos m) - 24) as ->.
  { unfold fexp, emin. rewrite Hdz. lia. }
  unfold shl_align. rewrite Z.sub_diag.
  apply binary_round_aux_canonical; [done|lia].
Qed.

(** ** Loops with the same iterations *)

Lemma for_each_ext {A S} (l : list A) (body1 body2 : A -> S -> M S) s w :
  (forall a s w, a ∈ l -> body1 a s w = body2 a s w) ->
  for_each l body1 s w = for_each l body2 s w.
Proof.
  revert s w. induction l as [|a l IH]; intros s w Hbody; simpl; [done|].
  unfold bind. rewrite (Hbody a s w) by left.
  destruct (body2 a s w) as [[e|s'] w']; [done|].
  apply IH. intros b s1 w1 Hb. apply Hbody. by right.
Qed.

(** The aggregators look at the tensor through its grid and the counts
    of its columns only. *)
Lemma noisy_max_counts p q scale rcv w :
  dimN q = dimN p -> dimS q = dimS p ->
  (forall i j, (i < dimN p)%nat -> (j < dimS p)%nat ->
     label_counts_at q i j = label_counts_at p i j) ->
  noisy_max q scale rcv w = noisy_max p scale rcv w.
Proof.
  intros HN HS Hcounts. unfold noisy_max, bind. rewrite HN, HS.
  erewrite for_each_ext; [reflexivity|].
  intros i st w1 Hi%elem_of_seq. cbv beta. unfold bind.
  destruct (if (i mod 100 =? 0)%nat then _ else _) as [[e|[]] w2]; [done|].
  apply for_each_ext. intros j [result cv] w3 Hj%elem_of_seq.
  unfold noisy_max_sample. rewrite HN, HS, Hcounts by lia. reflexivity.
Qed.

Lemma aggregation_most_frequent_counts p q w :
  dimN q = dimN p -> dimS q = dimS p ->
  (forall i j, (i < dimN p)%nat -> (j < dimS p)%nat ->
     label_counts_at q i j = label_counts_at p i j) ->
  aggregation_most_frequent q w = aggregation_most_frequent p w.
Proof.
  intros HN HS Hcounts. unfold aggregation_most_frequent, bind.
  rewrite HN, HS.
  erewrite for_each_ext; [reflexivity|].
  intros i st w1 Hi%elem_of_seq. cbv beta.
  apply for_each_ext. intros j result w3 Hj%elem_of_seq.
  unfold most_frequent_sample. rewrite HS, Hcounts by lia. reflexivity.
Qed.

(** ** The histogram of a rearranged column *)

Lemma occurrences_Permutation c x y :
  x ≡ₚ y -> occurrences c x = occurrences c y.
Proof. intros H. unfold occurrences. by rewrite H. Qed.

Lemma bincount_bins_Permutation x y minlength :
  x ≡ₚ y -> bincount_bins x minlength = bincount_bins y minlength.
Proof.
  intros H. unfold bincount_bins. f_equal. f_equal.
  induction H as [|v x y H IH|u v x|x y z H1 IH1 H2 IH2]; simpl.
  - reflexivity.
  - by rewrite IH.
  - lia.
  - congruence.
Qed.

Lemma np_bincount_Permutation x y minlength :
  Z.of_nat minlength < bin_limit -> x ≡ₚ y ->
  np_bincount x minlength = np_bincount y minlength.
Proof.
  intros Hmin Hperm. destruct (countable_or_not x) as [Hx|Hx].
  - assert (Forall countable y) as Hy by (by rewrite <- Hperm).
    destruct (np_bincount_counts x minlength Hmin Hx)
      as (bx & -> & Hlx & Hbx).
    destruct (np_bincount_counts y minlength Hmin Hy)
      as (b & -> & Hly & Hby).
    f_equal. unfold bincount_size in Hlx, Hly.
    rewrite (bincount_bins_Permutation x y minlength Hperm) in Hlx.
    apply (list_eq_same_length _ _ (length bx)); [congruence|done|].
    intros k u v Hk Hu Hv.
    apply list_lookup_total_correct in Hu, Hv.
    rewrite <- Hu, <- Hv, Hbx, Hby by (done || congruence).
    by apply occurrences_Permutation.
  - assert (Exists (fun v => ~ countable v) y) as Hy by (by rewrite <- Hperm).
    apply (np_bincount_raises x minlength Hmin) in Hx.
    apply (np_bincount_raises y minlength Hmin) in Hy.
    congruence.
Qed.

(** * The properties of the design document *)

Lemma labels_Forall (P : Z -> Prop) N S (lab : list Z) :
  length lab = (N * S)%nat ->
  (forall i j, (i < N)%nat -> (j < S)%nat ->
     exists v, lab !! (i * S + j)%nat = Some v /\ P v) ->
  Forall P lab.
Proof.
  intros Hlen Hlab. apply Forall_lookup_2. intros k v Hk.
  pose proof (lookup_lt_Some _ _ _ Hk) as Hlt. rewrite Hlen in Hlt.
  destruct (index_split _ _ _ Hlt) as (i & j & Hi & Hj & ->).
  destruct (Hlab i j Hi Hj) as (v' & Hv' & HP). congruence.
Qed.

Lemma within_five_countable (x : list Z) :
  Forall (fun v => 0 <= v <= 5) x -> Forall countable x.
Proof.
  intros H. eapply Forall_impl; [exact H|]. unfold countable, bin_limit.
  simpl. intros; lia.
Qed.

Lemma within_classes_countable (x : list Z) :
  Forall (fun v => 1 <= v <= 5) x -> Forall countable x.
Proof.
  intros H. eapply Forall_impl; [exact H|]. unfold countable, bin_limit.
  simpl. intros; lia.
Qed.

Lemma int32_labels_countable (x : list Z) :
  Forall (fun v => 0 <= v < 2 ^ 31) x -> Forall countable x.
Proof.
  intros H. eapply Forall_impl; [exact H|]. unfold countable, bin_limit.
  simpl. intros; lia.
Qed.

Lemma noisy_scores_lookup rule p i j draw c :
  (c < 5)%nat ->
  noisy_scores rule p i j draw !! c
  = Some (noisy_score rule (count_votes p c i j) (draw c)).
Proof.
  intros Hc. destruct c as [|[|[|[|[|c]]]]]; [reflexivity..|lia].
Qed.

(** C1. On a tensor with entries in [0, 5] and a scale its sampler
    accepts, [noisy_max] returns; it draws 5 samples for each of the
    [N * S] samples of the grid, in row-major order. The label of the
    sample [(i, j)] is one more than the position [np.argmax] selects in
    its vector of five noisy scores, which is the first position of their
    maximum when none of them is a NaN. The noisy score of class [c + 1]
    is [noisy_score]: the count of the design document's vote counter,
    cast to binary32, plus the draw number [5 * (i * S + j) + c] of the
    call, in IEEE-754 arithmetic under the promotion rule of the installed
    NumPy. In particular, when that draw is an integer [n] and the count,
    [n] and their sum have fewer than 24 bits, the noisy score is the
    integer [count + n], without any rounding. *)
Theorem noisy_max_noisy_argmax p scale rcv w :
  wf_tensor3 p ->
  Forall (fun v => 0 <= v <= 5) (data3 p) ->
  rng_accepts w scale = true ->
  exists lab cv w',
    noisy_max p scale rcv w
      = (inr (LabelTensor (dimN p) (dimS p) lab, cv), w') /\
    rng_pos w' = (5 * (dimN p * dimS p) + rng_pos w)%nat /\
    forall i j, (i < dimN p)%nat -> (j < dimS p)%nat ->
      let first := (5 * (i * dimS p + j) + rng_pos w)%nat in
      let noisy :=
        noisy_scores (promotion w) p i j (noise_from w scale first) in
      length noisy = 5%nat /\
      (forall c, (c < 5)%nat ->
         let count := count_votes p c i j in
         let draw := rng w scale (c + first)%nat in
         noisy !! c = Some (noisy_score (promotion w) count draw) /\
         forall n,
           count < 2 ^ 24 -> - 2 ^ 24 < n < 2 ^ 24 ->
           - 2 ^ 24 < count + n < 2 ^ 24 ->
           Float.to_Z draw = Some n ->
           Float.to_Z (noisy_score (promotion w) count draw)
           = Some (count + n)) /\
      exists a,
        np_argmax_float noisy = inr a /\
        get_label (LabelTensor (dimN p) (dimS p) lab) i j = Some (a + 1) /\
        (no_nan noisy -> exists k, a = Z.of_nat k /\ first_max_float noisy k).
Proof.
  intros Hwf Hrange Hok.
  destruct (noisy_max_returns p scale rcv w Hok
              (countable_columns p Hwf (within_five_countable _ Hrange)))
    as (lab & cv & w' & E & _ & _ & Hpos & Hlen & Hlab & _).
  exists lab, cv, w'. split; [exact E|]. split; [exact Hpos|].
  intros i j Hi Hj first noisy.
  split; [reflexivity|]. split.
  { intros c Hc count draw. split.
    - unfold noisy. by rewrite noisy_scores_lookup.
    - intros n Hcount Hn Hsum Hdraw. rewrite noisy_score_add_noise.
      pose proof (count_votes_range p c i j).
      apply add_noise_integer; [fold count; lia|done..]. }
  exists (argmax_float_index noisy). split; [|split].
  - apply np_argmax_float_index. change (0 < 5)%nat. lia.
  - unfold get_label. cbn [labels cols]. rewrite (Hlab i j Hi Hj).
    unfold noisy_label.
    by rewrite class_counts_votes, (noisy_counts_scores _ p i j).
  - intros Hnan. apply argmax_float_index_first_max; [|done].
    change (0 < 5)%nat. lia.
Qed.

Lemma noisy_max_noisy_argmax_witness :
  wf_tensor3 Samples.three_teachers /\
  Forall (fun v => 0 <= v <= 5) (data3 Samples.three_teachers) /\
  rng_accepts Samples.rising_draws Samples.one = true /\
  rng_accepts Samples.rising_draws_weak Samples.one = true /\
  votes_at Samples.three_teachers 0 0 = [2; 1; 0; 0; 0] /\
  (exists lab cv w',
     noisy_max Samples.three_teachers Samples.one true Samples.rising_draws
     = (inr (LabelTensor 1 1 lab, cv), w') /\
     rng_pos w' = 5%nat /\
     get_label (LabelTensor 1 1 lab) 0 0 = Some 2 /\
     Float.to_Z (noisy_score Legacy 1 (Float.f64_of_Z 3)) = Some 4 /\
     Float.to_Z (noisy_score Legacy 0 (Float.f64_of_Z 4)) = Some 4) /\
  (exists lab cv w',
     noisy_max Samples.three_teachers Samples.one true
       Samples.rising_draws_weak = (inr (LabelTensor 1 1 lab, cv), w') /\
     rng_pos w' = 5%nat /\
     get_label (LabelTensor 1 1 lab) 0 0 = Some 2 /\
     Float.to_Z (noisy_score Weak 1 (Float.f64_of_Z 3)) = Some 4 /\
     Float.to_Z (noisy_score Weak 0 (Float.f64_of_Z 4)) = Some 4).
Proof.
  assert (wf_tensor3 Samples.three_teachers) as Hwf by reflexivity.
  assert (Forall (fun v => 0 <= v <= 5) (data3 Samples.three_teachers))
    as Hrange by (repeat constructor; lia).
  assert (rng_accepts Samples.rising_draws Samples.one = true)
    as Hok by reflexivity.
  assert (rng_accepts Samples.rising_draws_weak Samples.one = true)
    as Hok' by reflexivity.
  assert (0 < dimN Samples.three_teachers)%nat as Hi by (simpl; lia).
  assert (0 < dimS Samples.three_teachers)%nat as Hj by (simpl; lia).
  split; [exact Hwf|]. split; [exact Hrange|]. split; [exact Hok|].
  split; [exact Hok'|]. split; [reflexivity|]. split.
  - destruct (noisy_max_noisy_argmax Samples.three_teachers Samples.one true
                Samples.rising_draws Hwf Hrange Hok)
      as (lab & cv & w' & E & Hpos & Hsample).
    destruct (Hsample 0%nat 0%nat Hi Hj) as (_ & Hscore & a & Ha & Hlab & _).
    exists lab, cv, w'. split; [exact E|]. split; [exact Hpos|].
    split; [|split].
    + vm_compute in Ha. injection Ha as <-. exact Hlab.
    + destruct (Hscore 1%nat ltac:(lia)) as [_ Hexact].
      apply (Hexact 3); [reflexivity|split; reflexivity..|reflexivity].
    + destruct (Hscore 2%nat ltac:(lia)) as [_ Hexact].
      apply (Hexact 4); [reflexivity|split; reflexivity..|reflexivity].
  - destruct (noisy_max_noisy_argmax Samples.three_teachers Samples.one true
                Samples.rising_draws_weak Hwf Hrange Hok')
      as (lab & cv & w' & E & Hpos & Hsample).
    destruct (Hsample 0%nat 0%nat Hi Hj) as (_ & Hscore & a & Ha & Hlab & _).
    exists lab, cv, w'. split; [exact E|]. split; [exact Hpos|].
    split; [|split].
    + vm_compute in Ha. injection Ha as <-. exact Hlab.
    + destruct (Hscore 1%nat ltac:(lia)) as [_ Hexact].
      apply (Hexact 3); [reflexivity|split; reflexivity..|reflexivity].
    + destruct (Hscore 2%nat ltac:(lia)) as [_ Hexact].
      apply (Hexact 4); [reflexivity|split; reflexivity..|reflexivity].
Defined.

Lemma votes_determined N S (val : nat -> nat -> nat -> spec_float) l1 l2 :
  length l1 = (5 * (N * S))%nat -> length l2 = (5 * (N * S))%nat ->
  (forall c i j, (c < 5)%nat -> (i < N)%nat -> (j < S)%nat ->
     l1 !! (c * (N * S) + (i * S + j))%nat = Some (val c i j)) ->
  (forall c i j, (c < 5)%nat -> (i < N)%nat -> (j < S)%nat ->
     l2 !! (c * (N * S) + (i * S + j))%nat = Some (val c i j)) ->
  l1 = l2.
Proof.
  intros H1 H2 Hl1 Hl2.
  apply (list_eq_same_length _ _ (5 * (N * S))); [done..|].
  intros k x y Hk Hx Hy.
  destruct (index_split _ _ _ Hk) as (c & r & Hc & Hr & ->).
  destruct (index_split _ _ _ Hr) as (i & j & Hi & Hj & ->).
  rewrite (Hl1 c i j) in Hx by done. rewrite (Hl2 c i j) in Hy by done.
  congruence.
Qed.

(** C3. The clean votes that [noisy_max] returns with
    [return_clean_votes=True] are, entry for entry, the counts of the
    design document's vote counter: the entry for the class [c + 1] and
    the sample [(i, j)] is the binary64 number nearest to the count, which
    is the count itself, an integer, as long as the count is below
    [2 ^ 53]. They are the same for every generator state and every
    accepted scale. *)
Theorem clean_votes_are_count_votes p scale w :
  wf_tensor3 p ->
  Forall (fun v => 0 <= v <= 5) (data3 p) ->
  rng_accepts w scale = true ->
  exists lab cv w',
    noisy_max p scale true w = (inr (lab, Some cv), w') /\
    vN cv = dimN p /\ vS cv = dimS p /\
    length (votes cv) = (5 * (dimN p * dimS p))%nat /\
    (forall c i j, (c < 5)%nat -> (i < dimN p)%nat -> (j < dimS p)%nat ->
       exists x,
         get_votes cv c i j = Some x /\
         x = binary_normalize 53 1024 (count_votes p c i j) 0 false /\
         (count_votes p c i j < 2 ^ 53 ->
          Float.to_Z x = Some (count_votes p c i j))) /\
    (forall scale2 w2, rng_accepts w2 scale2 = true ->
       exists lab2 w2',
         noisy_max p scale2 true w2 = (inr (lab2, Some cv), w2')).
Proof.
  intros Hwf Hrange Hok.
  pose proof (countable_columns p Hwf (within_five_countable _ Hrange))
    as Hcols.
  destruct (noisy_max_returns p scale true w Hok Hcols)
    as (lab & cv & w' & E & _ & _ & _ & _ & _ & (l & -> & Hlen & Hl)).
  eexists _, _, _. split; [exact E|]. repeat split; [exact Hlen| |].
  - intros c i j Hc Hi Hj. eexists. split; [|split].
    + unfold get_votes. cbn [votes vN vS]. by apply Hl.
    + by rewrite clean_value_votes.
    + intros Hcount. rewrite clean_value_votes by done.
      pose proof (count_votes_range p c i j).
      apply of_Z_integer; unfold Float.f64_prec, Float.f64_emax; lia.
  - intros scale2 w2 Hok2.
    destruct (noisy_max_returns p scale2 true w2 Hok2 Hcols)
      as (lab2 & cv2 & w2' & E2 & _ & _ & _ & _ & _ & (l2 & -> & Hlen2 & Hl2)).
    exists (LabelTensor (dimN p) (dimS p) lab2), w2'. rewrite E2.
    by rewrite (votes_determined (dimN p) (dimS p) (clean_value p) l l2).
Qed.

Lemma clean_votes_are_count_votes_witness :
  wf_tensor3 Samples.three_teachers /\
  Forall (fun v => 0 <= v <= 5) (data3 Samples.three_teachers) /\
  rng_accepts Samples.second_draw_high Samples.one = true /\
  count_votes Samples.three_teachers 0 0 0 = 2 /\
  exists lab cv w',
    noisy_max Samples.three_teachers Samples.one true
      Samples.second_draw_high = (inr (lab, Some cv), w') /\
    exists x, get_votes cv 0 0 0 = Some x /\ Float.to_Z x = Some 2.
Proof.
  assert (wf_tensor3 Samples.three_teachers) as Hwf by reflexivity.
  assert (Forall (fun v => 0 <= v <= 5) (data3 Samples.three_teachers))
    as Hrange by (repeat constructor; lia).
  assert (rng_accepts Samples.second_draw_high Samples.one = true)
    as Hok by reflexivity.
  split; [exact Hwf|]. split; [exact Hrange|]. split; [exact Hok|].
  split; [reflexivity|].
  destruct (clean_votes_are_count_votes Samples.three_teachers Samples.one
              Samples.second_draw_high Hwf Hrange Hok)
    as (lab & cv & w' & E & _ & _ & _ & Hcv & _).
  exists lab, cv, w'. split; [exact E|].
  destruct (Hcv 0%nat 0%nat 0%nat) as (x & Hx & _ & Hexact);
    [simpl; lia..|].
  exists x. split; [exact Hx|]. apply Hexact. reflexivity.
Defined.

(** C4. Without class-0 predictions (all entries in [1, 5]) the counting
    step gives, for every sample, the five class counts of the vote
    counter, and they add up to the number of teachers [T]; the clean votes
    of [noisy_max] hold these counts. *)
Theorem vote_conservation p i j :
  wf_tensor3 p ->
  Forall (fun v => 1 <= v <= 5) (data3 p) ->
  (i < dimN p)%nat -> (j < dimS p)%nat ->
  label_counts_at p i j = inr (votes_at p i j) /\
  sum_Z (votes_at p i j) = Z.of_nat (dimT p) /\
  forall scale w, rng_accepts w scale = true ->
    exists lab cv w',
      noisy_max p scale true w = (inr (lab, Some cv), w') /\
      forall c, (c < 5)%nat ->
        get_votes cv c i j = Some (Float.f64_of_Z (votes_at p i j !!! c)).
Proof.
  intros Hwf Hrange Hi Hj.
  pose proof (column_Forall _ p i j Hwf Hi Hj Hrange) as Hcol.
  pose proof (within_classes_countable _ Hcol) as Hcol0.
  split; [|split].
  - rewrite (label_counts_at_counts _ _ _ Hcol0).
    by rewrite class_counts_votes.
  - pose proof (class_counts_sum _ (countable_nonneg _ Hcol0)) as Hsum.
    rewrite (discarded_none _ Hcol), column_length in Hsum.
    unfold votes_at. rewrite <- class_counts_votes. lia.
  - intros scale w Hok.
    pose proof (countable_columns p Hwf (within_classes_countable _ Hrange))
      as Hcols.
    destruct (noisy_max_returns p scale true w Hok Hcols)
      as (lab & cv & w' & E & _ & _ & _ & _ & _ & (l & -> & Hlen & Hl)).
    eexists _, _, _. split; [exact E|].
    intros c Hc. unfold get_votes. cbn [votes vN vS].
    rewrite (Hl c i j) by done. unfold clean_value.
    by rewrite class_counts_votes.
Qed.

Lemma vote_conservation_witness :
  wf_tensor3 Samples.two_by_three /\
  Forall (fun v => 1 <= v <= 5) (data3 Samples.two_by_three) /\
  label_counts_at Samples.two_by_three 1 2
    = inr (votes_at Samples.two_by_three 1 2) /\
  sum_Z (votes_at Samples.two_by_three 1 2) = 2.
Proof.
  assert (wf_tensor3 Samples.two_by_three) as Hwf by reflexivity.
  assert (Forall (fun v => 1 <= v <= 5) (data3 Samples.two_by_three))
    as Hrange by (repeat constructor; lia).
  assert (1 < dimN Samples.two_by_three)%nat as Hi by (simpl; lia).
  assert (2 < dimS Samples.two_by_three)%nat as Hj by (simpl; lia).
  destruct (vote_conservation Samples.two_by_three 1 2 Hwf Hrange Hi Hj)
    as (Hcounts & Hsum & _).
  split; [exact Hwf|]. split; [exact Hrange|].
  split; [exact Hcounts|exact Hsum].
Defined.

Lemma small_in_int32 v : 1 <= v <= 5 -> in_int32 v.
Proof. unfold in_int32, int32_min, int32_max. lia. Qed.

(** C7. On a tensor of shape [T, N, S] with entries in [0, 5] both
    aggregators return a label tensor of shape [N, S], that is
    [predictions.shape[1:]], whose entries are int32 values in [1, 5],
    whatever the generator holds. *)
Theorem label_tensor_shape_and_range p scale rcv w :
  wf_tensor3 p ->
  Forall (fun v => 0 <= v <= 5) (data3 p) ->
  rng_accepts w scale = true ->
  (exists r cv w',
     noisy_max p scale rcv w = (inr (r, cv), w') /\
     rows r = dimN p /\ cols r = dimS p /\
     length (labels r) = (dimN p * dimS p)%nat /\
     Forall (fun v => 1 <= v <= 5 /\ in_int32 v) (labels r)) /\
  (exists r,
     aggregation_most_frequent p w = (inr r, w) /\
     rows r = dimN p /\ cols r = dimS p /\
     length (labels r) = (dimN p * dimS p)%nat /\
     Forall (fun v => 1 <= v <= 5 /\ in_int32 v) (labels r)).
Proof.
  intros Hwf Hrange Hok.
  pose proof (countable_columns p Hwf (within_five_countable _ Hrange))
    as Hcols.
  split.
  - destruct (noisy_max_returns p scale rcv w Hok Hcols)
      as (lab & cv & w' & E & _ & _ & _ & Hlen & Hlab & _).
    eexists _, cv, w'. split; [exact E|]. cbn [rows cols labels].
    repeat split; [exact Hlen|].
    apply (labels_Forall _ _ _ _ Hlen). intros i j Hi Hj.
    eexists. split; [by apply Hlab|].
    pose proof (noisy_label_range (promotion w) (column p i j)
      (noise_from w scale (5 * (i * dimS p + j) + rng_pos w))) as Hr.
    split; [exact Hr|by apply small_in_int32].
  - destruct (aggregation_most_frequent_returns p w Hcols)
      as (lab & E & Hlen & Hlab).
    eexists. split; [exact E|]. cbn [rows cols labels].
    repeat split; [exact Hlen|].
    apply (labels_Forall _ _ _ _ Hlen). intros i j Hi Hj.
    eexists. split; [by apply Hlab|].
    pose proof (most_frequent_label_range (column p i j)) as Hr.
    split; [exact Hr|by apply small_in_int32].
Qed.

Lemma label_tensor_shape_and_range_witness :
  wf_tensor3 Samples.two_by_three /\
  Forall (fun v => 0 <= v <= 5) (data3 Samples.two_by_three) /\
  rng_accepts Samples.second_draw_high Samples.one = true /\
  exists r,
    aggregation_most_frequent Samples.two_by_three Samples.second_draw_high
      = (inr r, Samples.second_draw_high) /\
    rows r = 2%nat /\ cols r = 3%nat /\
    Forall (fun v => 1 <= v <= 5 /\ in_int32 v) (labels r).
Proof.
  assert (wf_tensor3 Samples.two_by_three) as Hwf by reflexivity.
  assert (Forall (fun v => 0 <= v <= 5) (data3 Samples.two_by_three))
    as Hrange by (repeat constructor; lia).
  assert (rng_accepts Samples.second_draw_high Samples.one = true)
    as Hok by reflexivity.
  split; [exact Hwf|]. split; [exact Hrange|]. split; [exact Hok|].
  destruct (label_tensor_shape_and_range Samples.two_by_three Samples.one
              false Samples.second_draw_high Hwf Hrange Hok)
    as (_ & r & E & Hrows & Hcols & _ & Hall).
  exists r. split; [exact E|]. split; [exact Hrows|].
  split; [exact Hcols|exact Hall].
Defined.

(** C8. [aggregation_most_frequent] is deterministic: two calls on the same
    tensor give the same outcome whatever the states of the interpreter
    they start in, and a call leaves that state as it found it. *)
Theorem aggregation_most_frequent_deterministic p w1 w2 :
  (aggregation_most_frequent p w1).1 = (aggregation_most_frequent p w2).1 /\
  (aggregation_most_frequent p w1).2 = w1.
Proof.
  destruct (pure_aggregation_most_frequent p) as [r Hr].
  by rewrite !Hr.
Qed.

(** C2, as stated, fails: with [2 ^ 31] teachers that all vote for class 1
    the count of class 1 wraps to a negative int32 in the cast of
    [aggregation_most_frequent]; the first maximum of the histogram is at
    position 0, yet the label returned is 2. *)
Lemma most_frequent_overflow :
  wf_tensor3 Samples.many_teachers /\
  Forall (fun v => 0 <= v <= 5) (data3 Samples.many_teachers) /\
  first_max_Z (votes_at Samples.many_teachers 0 0) 0 /\
  aggregation_most_frequent Samples.many_teachers Samples.second_draw_high
  = (inr (LabelTensor 1 1 [2]), Samples.second_draw_high).
Proof.
  unfold Samples.many_teachers.
  assert (Z.of_nat (Z.to_nat (2 ^ 31)) = 2 ^ 31) as Hbig
    by (apply Z2Nat.id; lia).
  split; [|split; [|split]].
  - unfold wf_tensor3. cbn [data3 dimT dimN dimS].
    rewrite length_replicate. lia.
  - cbn [data3]. apply Forall_replicate. lia.
  - unfold votes_at. rewrite <- class_counts_votes.
    rewrite class_counts_unanimous, Hbig.
    apply first_max_Z_head. lia.
  - rewrite aggregation_most_frequent_unanimous, Hbig. reflexivity.
Qed.

(** C2, amended. Below [2 ^ 31] teachers, on a tensor with entries in
    [0, 5], [aggregation_most_frequent] gives every sample one plus the
    first position of the maximum of its histogram of the classes 1 to 5
    (class 0 not counted). In particular the predictions
    [[[1]], [[2]], [[1]]] have the vote counts [2, 1, 0, 0, 0] and the
    output [[1]], and the counts [3, 3, 1, 1, 1] select class 1. *)
Theorem most_frequent_is_first_max p w :
  wf_tensor3 p ->
  Forall (fun v => 0 <= v <= 5) (data3 p) ->
  Z.of_nat (dimT p) < 2 ^ 31 ->
  (exists lab,
     aggregation_most_frequent p w
       = (inr (LabelTensor (dimN p) (dimS p) lab), w) /\
     forall i j, (i < dimN p)%nat -> (j < dimS p)%nat ->
       exists k, first_max_Z (votes_at p i j) k /\
         get_label (LabelTensor (dimN p) (dimS p) lab) i j
         = Some (Z.of_nat k + 1)) /\
  votes_at Samples.three_teachers 0 0 = [2; 1; 0; 0; 0] /\
  aggregation_most_frequent Samples.three_teachers w
    = (inr (LabelTensor 1 1 [1]), w) /\
  most_frequent_label [3; 3; 1; 1; 1] = 1.
Proof.
  intros Hwf Hrange HT. split; [|split; [|split]].
  - pose proof (countable_columns p Hwf (within_five_countable _ Hrange))
      as Hcols.
    destruct (aggregation_most_frequent_returns p w Hcols)
      as (lab & E & Hlen & Hlab).
    exists lab. split; [exact E|]. intros i j Hi Hj.
    destruct (most_frequent_label_first_max p i j HT) as (k & Hk & Ek).
    exists k. split; [exact Hk|].
    unfold get_label. cbn [labels cols]. rewrite (Hlab i j Hi Hj).
    by rewrite class_counts_votes, <- Ek.
  - reflexivity.
  - destruct (pure_aggregation_most_frequent Samples.three_teachers)
      as [r Hr].
    rewrite Hr. specialize (Hr Samples.second_draw_high).
    vm_compute in Hr. by injection Hr as <-.
  - reflexivity.
Qed.

Lemma most_frequent_is_first_max_witness :
  wf_tensor3 Samples.two_by_three /\
  Forall (fun v => 0 <= v <= 5) (data3 Samples.two_by_three) /\
  Z.of_nat (dimT Samples.two_by_three) < 2 ^ 31 /\
  exists lab,
    aggregation_most_frequent Samples.two_by_three Samples.second_draw_high
      = (inr (LabelTensor 2 3 lab), Samples.second_draw_high) /\
    exists k, first_max_Z (votes_at Samples.two_by_three 1 2) k /\
      get_label (LabelTensor 2 3 lab) 1 2 = Some (Z.of_nat k + 1).
Proof.
  assert (wf_tensor3 Samples.two_by_three) as Hwf by reflexivity.
  assert (Forall (fun v => 0 <= v <= 5) (data3 Samples.two_by_three))
    as Hrange by (repeat constructor; lia).
  assert (Z.of_nat (dimT Samples.two_by_three) < 2 ^ 31)
    as HT by reflexivity.
  split; [exact Hwf|]. split; [exact Hrange|]. split; [exact HT|].
  destruct (most_frequent_is_first_max Samples.two_by_three
              Samples.second_draw_high Hwf Hrange HT)
    as ((lab & E & Hlab) & _).
  exists lab. split; [exact E|].
  apply Hlab; simpl; lia.
Defined.

(** C5, as stated, fails: with an empty teacher axis, and with a label
    above 5, [aggregation_most_frequent] returns labels and raises
    nothing, and so does [noisy_max]. *)
Lemma no_error_without_teachers :
  dimT Samples.no_teachers = 0%nat /\
  aggregation_most_frequent Samples.no_teachers Samples.second_draw_high
    = (inr (LabelTensor 1 1 [1]), Samples.second_draw_high) /\
  (noisy_max Samples.no_teachers Samples.one false
     Samples.second_draw_high).1
    = inr (LabelTensor 1 1 [2], None) /\
  Exists (fun v => ~ 0 <= v <= 5) (data3 Samples.label_six) /\
  aggregation_most_frequent Samples.label_six Samples.second_draw_high
    = (inr (LabelTensor 1 1 [1]), Samples.second_draw_high) /\
  (noisy_max Samples.label_six Samples.one false
     Samples.second_draw_high).1
    = inr (LabelTensor 1 1 [2], None).
Proof.
  split; [reflexivity|]. split; [reflexivity|]. split; [reflexivity|].
  split; [|split; reflexivity].
  constructor. simpl. lia.
Qed.

Lemma bounded_not_countable (x : list Z) :
  Forall (fun v => v < 2 ^ 31) x ->
  Exists (fun v => ~ countable v) x <-> Exists (fun v => v < 0) x.
Proof.
  intros Hfit. rewrite !Exists_exists. rewrite Forall_forall in Hfit.
  split; intros (v & Hin & Hv); exists v; (split; [done|]);
    specialize (Hfit v Hin); unfold countable, bin_limit in *; lia.
Qed.

Lemma bounded_nonneg_countable (x : list Z) :
  Forall (fun v => v < 2 ^ 31) x -> Forall (fun v => 0 <= v) x ->
  Forall countable x.
Proof.
  intros Hfit Hpos. apply countable_split. split; [done|].
  eapply Forall_impl; [exact Hfit|]. unfold bin_limit. simpl. intros; lia.
Qed.

(** C5, amended. On a tensor whose entries are below [2 ^ 31], the
    counting step raises (a [ValueError] of [np.bincount]) exactly when
    the column it counts holds a negative entry; so both aggregators
    ([noisy_max] with a scale its sampler accepts) raise exactly when some
    entry of the tensor is negative, and return otherwise. An empty
    teacher axis and entries above 5 raise nothing. *)
Theorem errors_only_on_negative_entries p scale rcv w :
  wf_tensor3 p ->
  Forall (fun v => v < 2 ^ 31) (data3 p) ->
  rng_accepts w scale = true ->
  (forall i j, (i < dimN p)%nat -> (j < dimS p)%nat ->
     (label_counts_at p i j = inl ValueError <->
      Exists (fun v => v < 0) (column p i j))) /\
  ((exists w', aggregation_most_frequent p w = (inl ValueError, w')) <->
   Exists (fun v => v < 0) (data3 p)) /\
  ((exists w', noisy_max p scale rcv w = (inl ValueError, w')) <->
   Exists (fun v => v < 0) (data3 p)) /\
  (Forall (fun v => 0 <= v) (data3 p) ->
   (exists r, aggregation_most_frequent p w = (inr r, w)) /\
   (exists r w', noisy_max p scale rcv w = (inr r, w'))).
Proof.
  intros Hwf Hfit Hok. split; [|split; [|split]].
  - intros i j Hi Hj. rewrite label_counts_at_raises.
    apply bounded_not_countable. by apply column_Forall.
  - rewrite (aggregation_most_frequent_raises p w Hwf).
    by apply bounded_not_countable.
  - rewrite (noisy_max_raises p scale rcv w Hwf Hok).
    by apply bounded_not_countable.
  - intros Hpos.
    pose proof (countable_columns p Hwf
                  (bounded_nonneg_countable _ Hfit Hpos)) as Hcols.
    split.
    + destruct (aggregation_most_frequent_returns p w Hcols)
        as (lab & E & _). eauto.
    + destruct (noisy_max_returns p scale rcv w Hok Hcols)
        as (lab & cv & w' & E & _). eauto.
Qed.

Lemma errors_only_on_negative_entries_witness :
  wf_tensor3 Samples.late_negative /\
  Forall (fun v => v < 2 ^ 31) (data3 Samples.late_negative) /\
  rng_accepts Samples.second_draw_high Samples.one = true /\
  Exists (fun v => v < 0) (data3 Samples.late_negative) /\
  exists w',
    aggregation_most_frequent Samples.late_negative Samples.second_draw_high
    = (inl ValueError, w').
Proof.
  assert (wf_tensor3 Samples.late_negative) as Hwf by reflexivity.
  assert (Forall (fun v => v < 2 ^ 31) (data3 Samples.late_negative))
    as Hfit by (repeat constructor).
  assert (rng_accepts Samples.second_draw_high Samples.one = true)
    as Hok by reflexivity.
  assert (Exists (fun v => v < 0) (data3 Samples.late_negative)) as Hneg
    by (right; constructor; reflexivity).
  split; [exact Hwf|]. split; [exact Hfit|]. split; [exact Hok|].
  split; [exact Hneg|].
  apply (errors_only_on_negative_entries Samples.late_negative Samples.one
           false Samples.second_draw_high Hwf Hfit Hok).
  exact Hneg.
Defined.

(** C6, as stated, fails: when the second sample holds a negative entry,
    [noisy_max] has drawn the five noise samples of the first sample by
    the time the error is raised. *)
Lemma noise_drawn_before_error :
  rng_pos Samples.second_draw_high = 0%nat /\
  exists w',
    noisy_max Samples.late_negative Samples.one false
      Samples.second_draw_high = (inl ValueError, w') /\
    rng_pos w' = 5%nat.
Proof.
  split; [reflexivity|]. eexists. split; [vm_compute; reflexivity|].
  reflexivity.
Qed.

(** C6, amended. [noisy_max] checks nothing before the scan. The scale
    is checked by the sampler alone, at the first draw: on a grid with at
    least one sample a scale that the sampler rejects is reported (a
    [ValueError]) with the generator untouched. A negative entry is
    reported (a [ValueError]) when the row-major scan reaches the first
    sample whose column holds one: when that sample is the [k]-th of the
    scan, [k = i * S + j], and the sampler accepts the scale, the
    generator is [5 * k] samples further by then. In both cases no labels
    are returned. (The entries met by the scan are below [2 ^ 31].) *)
Theorem noisy_max_error_after_draws p scale rcv w i j :
  (i < dimN p)%nat -> (j < dimS p)%nat ->
  (forall i' j', (i' < dimN p)%nat -> (j' < dimS p)%nat ->
     (i' * dimS p + j' < i * dimS p + j)%nat ->
     Forall (fun v => 0 <= v < 2 ^ 31) (column p i' j')) ->
  Forall (fun v => v < 2 ^ 31) (column p i j) ->
  Exists (fun v => v < 0) (column p i j) \/ rng_accepts w scale = false ->
  exists w', noisy_max p scale rcv w = (inl ValueError, w') /\
    rng w' = rng w /\
    rng_pos w' = ((if rng_accepts w scale then 5 * (i * dimS p + j) else 0)
                  + rng_pos w)%nat.
Proof.
  intros Hi Hj Hbefore Hfit Hfail.
  destruct (rng_accepts w scale) eqn:Hok.
  { destruct Hfail as [Hbad|?]; [|done].
    apply noisy_max_raises_at; [done..|by apply negative_not_countable|].
    intros i' j' Hi' Hj' Hlt. by apply int32_labels_countable, Hbefore. }
  assert (0 < dimN p)%nat as HN by lia.
  assert (0 < dimS p)%nat as HS by lia.
  destruct (countable_or_not (column p 0 0)) as [Hcol|Hcol].
  { by apply noisy_max_rejected_scale. }
  unfold noisy_max. rewrite (xrange_head _ HN).
  eexists. split.
  - apply bind_inl. rewrite for_each_cons. apply bind_inl.
    change (0 mod 100 =? 0)%nat with true. cbv iota.
    erewrite bind_inr by reflexivity.
    rewrite (xrange_head _ HS), for_each_cons. apply bind_inl.
    by apply noisy_max_sample_raises.
  - done.
Qed.

Lemma noisy_max_error_after_draws_witness :
  ((0 < dimN Samples.late_negative)%nat /\
   (1 < dimS Samples.late_negative)%nat /\
   Forall (fun v => v < 2 ^ 31) (column Samples.late_negative 0 1) /\
   Exists (fun v => v < 0) (column Samples.late_negative 0 1) /\
   rng_accepts Samples.second_draw_high Samples.one = true /\
   exists w',
     noisy_max Samples.late_negative Samples.one true
       Samples.second_draw_high = (inl ValueError, w') /\
     rng_pos w' = 5%nat) /\
  ((0 < dimN Samples.three_teachers)%nat /\
   (0 < dimS Samples.three_teachers)%nat /\
   Forall (fun v => 0 <= v < 2 ^ 31) (column Samples.three_teachers 0 0) /\
   rng_accepts Samples.second_draw_high MoreSamples.minus_one = false /\
   exists w',
     noisy_max Samples.three_teachers MoreSamples.minus_one true
       Samples.second_draw_high = (inl ValueError, w') /\
     rng_pos w' = 0%nat).
Proof.
  split.
  - assert (0 < dimN Samples.late_negative)%nat as Hi by (simpl; lia).
    assert (1 < dimS Samples.late_negative)%nat as Hj by (simpl; lia).
    assert (Forall (fun v => v < 2 ^ 31) (column Samples.late_negative 0 1))
      as Hfit by (repeat constructor).
    assert (Exists (fun v => v < 0) (column Samples.late_negative 0 1))
      as Hbad by (constructor; vm_compute; reflexivity).
    split; [exact Hi|]. split; [exact Hj|]. split; [exact Hfit|].
    split; [exact Hbad|]. split; [reflexivity|].
    destruct (noisy_max_error_after_draws Samples.late_negative Samples.one
                true Samples.second_draw_high 0 1 Hi Hj)
      as (w' & E & _ & Hpos).
    + intros i' j' Hi' Hj' Hlt.
      assert (i' = 0%nat /\ j' = 0%nat) as [-> ->] by (simpl in *; lia).
      repeat constructor; vm_compute; discriminate.
    + exact Hfit.
    + left. exact Hbad.
    + exists w'. split; [exact E|exact Hpos].
  - assert (0 < dimN Samples.three_teachers)%nat as Hi by (simpl; lia).
    assert (0 < dimS Samples.three_teachers)%nat as Hj by (simpl; lia).
    assert (Forall (fun v => 0 <= v < 2 ^ 31)
              (column Samples.three_teachers 0 0)) as Hcol
      by (repeat constructor; vm_compute; discriminate).
    assert (rng_accepts Samples.second_draw_high MoreSamples.minus_one
            = false) as Hno by reflexivity.
    split; [exact Hi|]. split; [exact Hj|]. split; [exact Hcol|].
    split; [exact Hno|].
    destruct (noisy_max_error_after_draws Samples.three_teachers
                MoreSamples.minus_one true Samples.second_draw_high 0 0
                Hi Hj)
      as (w' & E & _ & Hpos).
    + intros i' j' Hi' Hj' Hlt. simpl in Hlt. lia.
    + eapply Forall_impl; [exact Hcol|]. simpl. intros; lia.
    + right. exact Hno.
    + exists w'. split; [exact E|exact Hpos].
Defined.

(** C9, as stated, fails: on one row of [2 ^ 31 + 1] scores whose maximum
    is the last one, the position [2 ^ 31] does not fit the int32 result
    and [labels_from_probs] returns [- 2 ^ 31], outside [0, K - 1]. *)
Lemma labels_from_probs_overflow :
  wf_score_array Samples.long_row /\
  no_nan (scores Samples.long_row) /\
  (0 < last_dim Samples.long_row)%nat /\
  labels_from_probs Samples.long_row Samples.second_draw_high
  = (inr (IntArray [] [- 2 ^ 31]), Samples.second_draw_high).
Proof.
  unfold Samples.long_row. split; [|split; [|split]].
  - unfold wf_score_array, lead_size. cbn [scores lead_shape last_dim foldr].
    cbn [length]. rewrite length_app, length_replicate. cbn [length]. lia.
  - cbn [scores]. constructor; [reflexivity|].
    apply Forall_app. split; [by apply Forall_replicate|].
    by repeat constructor.
  - cbn [last_dim]. lia.
  - rewrite (labels_from_probs_long_row (Z.to_nat (2 ^ 31 - 1))).
    rewrite Z2Nat.id by lia. reflexivity.
Qed.

(** C9, amended. On NaN-free scores whose last axis has a length [K] with
    [0 < K <= 2 ^ 31], [labels_from_probs] returns an array with the
    last axis removed; its entry for a row is the first position of the
    row's maximum, an int32 value in [0, K - 1]. *)
Theorem labels_from_probs_first_max a w :
  wf_score_array a ->
  no_nan (scores a) ->
  (0 < last_dim a)%nat ->
  Z.of_nat (last_dim a) <= 2 ^ 31 ->
  exists lab,
    labels_from_probs a w = (inr (IntArray (lead_shape a) lab), w) /\
    length lab = lead_size a /\
    forall r, (r < lead_size a)%nat ->
      exists k,
        lab !! r = Some (Z.of_nat k) /\
        first_max_float
          (take (last_dim a) (drop (r * last_dim a) (scores a))) k /\
        0 <= Z.of_nat k <= Z.of_nat (last_dim a) - 1 /\
        in_int32 (Z.of_nat k).
Proof.
  intros Hwf Hnan HK Hfit.
  eexists. split; [by apply labels_from_probs_returns|].
  split; [by rewrite !length_map, chunks_length|].
  intros r Hr.
  set (row := take (last_dim a) (drop (r * last_dim a) (scores a))).
  assert (length row = last_dim a) as Hrow
    by by apply (row_length _ (lead_size a)).
  destruct (argmax_float_index_first_max row) as (k & Ek & Hk).
  { lia. }
  { by apply Forall_take, Forall_drop. }
  pose proof (first_max_lt _ _ _ _ Hk) as Hlt. rewrite Hrow in Hlt.
  assert (in_int32 (Z.of_nat k)) as H32.
  { unfold in_int32, int32_min, int32_max. lia. }
  exists k. split; [|split; [exact Hk|split; [lia|exact H32]]].
  rewrite !map_fmap, !list_lookup_fmap, chunks_lookup by done.
  simpl. fold row. rewrite Ek. by rewrite wrap_int32_small.
Qed.

Lemma labels_from_probs_first_max_witness :
  wf_score_array Samples.two_rows /\
  no_nan (scores Samples.two_rows) /\
  (0 < last_dim Samples.two_rows)%nat /\
  Z.of_nat (last_dim Samples.two_rows) <= 2 ^ 31 /\
  exists lab,
    labels_from_probs Samples.two_rows Samples.second_draw_high
      = (inr (IntArray [2%nat] lab), Samples.second_draw_high) /\
    length lab = 2%nat.
Proof.
  assert (wf_score_array Samples.two_rows) as Hwf by reflexivity.
  assert (no_nan (scores Samples.two_rows)) as Hnan
    by (repeat constructor).
  assert (0 < last_dim Samples.two_rows)%nat as HK by (simpl; lia).
  assert (Z.of_nat (last_dim Samples.two_rows) <= 2 ^ 31) as Hfit
    by (vm_compute; discriminate).
  split; [exact Hwf|]. split; [exact Hnan|]. split; [exact HK|].
  split; [exact Hfit|].
  destruct (labels_from_probs_first_max Samples.two_rows
              Samples.second_draw_high Hwf Hnan HK Hfit)
    as (lab & E & Hlen & _).
  exists lab. split; [exact E|exact Hlen].
Defined.

(** The labels of two rows, computed: ties go to the first position. *)
Example labels_from_probs_two_rows w :
  labels_from_probs Samples.two_rows w = (inr (IntArray [2%nat] [1; 0]), w).
Proof. reflexivity. Qed.

(** C10, as stated, fails for [noisy_max]: with an empty teacher axis all
    counts are zero, yet the label follows the noise; here the second
    draw is the largest and the sample receives label 2, not 1. *)
Lemma noisy_label_without_teachers :
  dimT Samples.no_teachers = 0%nat /\
  Forall (fun v => 0 <= v) (data3 Samples.no_teachers) /\
  label_counts_at Samples.no_teachers 0 0 = inr [0; 0; 0; 0; 0] /\
  (noisy_max Samples.no_teachers Samples.one false
     Samples.second_draw_high).1
  = inr (LabelTensor 1 1 [2], None).
Proof.
  split; [reflexivity|]. split; [constructor|].
  split; reflexivity.
Qed.

Lemma empty_column p i j : dimT p = 0%nat -> column p i j = [].
Proof. unfold column. by intros ->. Qed.

(** C10, amended. On a tensor whose entries are not negative (and below
    [2 ^ 31]) both aggregators return ([noisy_max] with a scale its
    sampler accepts) and every label is in [1, 5]. Entries equal to 0 or
    above 5 are counted for no class: the counting step gives the five
    counts of the vote counter, which add up to [T] minus the number of
    such entries in the column. With an empty teacher axis all counts are
    zero, [aggregation_most_frequent] gives every sample label 1, and
    [noisy_max] gives it one plus the position [np.argmax] selects among
    its five noisy scores, each the sum of a zero count and one draw,
    rounded to binary32. *)
Theorem nonnegative_entries_never_raise p scale rcv w :
  wf_tensor3 p ->
  Forall (fun v => 0 <= v < 2 ^ 31) (data3 p) ->
  rng_accepts w scale = true ->
  exists noisy cv w' frequent,
    noisy_max p scale rcv w
      = (inr (LabelTensor (dimN p) (dimS p) noisy, cv), w') /\
    aggregation_most_frequent p w
      = (inr (LabelTensor (dimN p) (dimS p) frequent), w) /\
    Forall (fun v => 1 <= v <= 5) noisy /\
    Forall (fun v => 1 <= v <= 5) frequent /\
    forall i j, (i < dimN p)%nat -> (j < dimS p)%nat ->
      label_counts_at p i j = inr (votes_at p i j) /\
      sum_Z (votes_at p i j) = Z.of_nat (dimT p) - discarded (column p i j) /\
      (dimT p = 0%nat ->
         let first := (5 * (i * dimS p + j) + rng_pos w)%nat in
         votes_at p i j = [0; 0; 0; 0; 0] /\
         frequent !! (i * dimS p + j)%nat = Some 1 /\
         exists a,
           np_argmax_float
             (map (fun c => noisy_score (promotion w) 0
                              (rng w scale (c + first)%nat)) (seq 0 5))
           = inr a /\
           noisy !! (i * dimS p + j)%nat = Some (a + 1)).
Proof.
  intros Hwf Hall Hok.
  pose proof (countable_columns p Hwf (int32_labels_countable _ Hall))
    as Hcols.
  destruct (noisy_max_returns p scale rcv w Hok Hcols)
    as (noisy & cv & w' & En & _ & _ & _ & Hlenn & Hnoisy & _).
  destruct (aggregation_most_frequent_returns p w Hcols)
    as (frequent & Ef & Hlenf & Hfrequent).
  exists noisy, cv, w', frequent.
  split; [exact En|]. split; [exact Ef|]. split; [|split].
  - apply (labels_Forall _ _ _ _ Hlenn). intros i j Hi Hj.
    eexists. split; [by apply Hnoisy|]. apply noisy_label_range.
  - apply (labels_Forall _ _ _ _ Hlenf). intros i j Hi Hj.
    eexists. split; [by apply Hfrequent|]. apply most_frequent_label_range.
  - intros i j Hi Hj. split; [|split].
    + rewrite (label_counts_at_counts _ _ _ (Hcols i j Hi Hj)).
      by rewrite class_counts_votes.
    + pose proof (class_counts_sum _ (countable_nonneg _ (Hcols i j Hi Hj)))
        as Hsum.
      rewrite column_length in Hsum.
      unfold votes_at. rewrite <- class_counts_votes. lia.
    + intros HT first.
      rewrite (Hfrequent i j Hi Hj), (Hnoisy i j Hi Hj).
      unfold votes_at. rewrite <- class_counts_votes.
      rewrite (empty_column p i j HT).
      split; [reflexivity|]. split; [reflexivity|].
      eexists. split; [reflexivity|].
      by destruct (promotion w).
Qed.

Lemma nonnegative_entries_never_raise_witness :
  wf_tensor3 Samples.label_six /\
  Forall (fun v => 0 <= v < 2 ^ 31) (data3 Samples.label_six) /\
  rng_accepts Samples.second_draw_high Samples.one = true /\
  discarded (column Samples.label_six 0 0) = 1 /\
  exists noisy cv w' frequent,
    noisy_max Samples.label_six Samples.one false Samples.second_draw_high
      = (inr (LabelTensor 1 1 noisy, cv), w') /\
    aggregation_most_frequent Samples.label_six Samples.second_draw_high
      = (inr (LabelTensor 1 1 frequent), Samples.second_draw_high) /\
    Forall (fun v => 1 <= v <= 5) noisy /\
    Forall (fun v => 1 <= v <= 5) frequent /\
    label_counts_at Samples.label_six 0 0
      = inr (votes_at Samples.label_six 0 0) /\
    sum_Z (votes_at Samples.label_six 0 0) = 0.
Proof.
  assert (wf_tensor3 Samples.label_six) as Hwf by reflexivity.
  assert (Forall (fun v => 0 <= v < 2 ^ 31) (data3 Samples.label_six))
    as Hall by (repeat constructor; lia).
  assert (rng_accepts Samples.second_draw_high Samples.one = true)
    as Hok by reflexivity.
  split; [exact Hwf|]. split; [exact Hall|]. split; [exact Hok|].
  split; [reflexivity|].
  destruct (nonnegative_entries_never_raise Samples.label_six Samples.one
              false Samples.second_draw_high Hwf Hall Hok)
    as (noisy & cv & w' & frequent & En & Ef & Hn & Hf & Hcounts).
  exists noisy, cv, w', frequent.
  split; [exact En|]. split; [exact Ef|]. split; [exact Hn|].
  split; [exact Hf|].
  destruct (Hcounts 0%nat 0%nat) as (E & Hsum & _); [simpl; lia..|].
  split; [exact E|exact Hsum].
Defined.

(** * Further properties of the code *)

(** ** What [noisy_max] prints *)

Lemma silent_ret {A} (a : A) : silent (ret a).
Proof. intros w r w' [= _ <-]. reflexivity. Qed.

Lemma silent_lift {A} (r : exception + A) : silent (lift r).
Proof. intros w r' w' [= _ <-]. reflexivity. Qed.

Lemma silent_bind {A B} (m : M A) (f : A -> M B) :
  silent m -> (forall a, silent (f a)) -> silent (bind m f).
Proof.
  intros Hm Hf w r w'. unfold bind.
  destruct (m w) as [[e|a] w1] eqn:E.
  - intros [= _ <-]. by eapply Hm.
  - intros E'. rewrite (Hf a _ _ _ E'). by eapply Hm.
Qed.

Lemma silent_for_each {A S} (l : list A) (body : A -> S -> M S) s :
  (forall a s, silent (body a s)) -> silent (for_each l body s).
Proof.
  intros Hbody. revert s. induction l as [|a l IH]; intros s; simpl.
  - apply silent_ret.
  - apply silent_bind; auto.
Qed.

Lemma silent_laplace scale : silent (np_random_laplace scale).
Proof.
  intros w r w'. unfold np_random_laplace.
  destruct (rng_accepts w scale); intros [= _ <-]; reflexivity.
Qed.

Lemma silent_noisy_max_sample p scale rcv i j st :
  silent (noisy_max_sample p scale rcv i j st).
Proof.
  destruct st as [result cv]. unfold noisy_max_sample.
  apply silent_bind; [apply silent_lift|]. intros lc.
  apply silent_bind.
  - apply silent_for_each. intros item l. unfold add_draw.
    apply silent_bind; [apply silent_laplace|]. intros x.
    apply silent_bind; [|intros; apply silent_ret].
    intros w r w' [= _ <-]. reflexivity.
  - intros l. apply silent_bind; [apply silent_lift|].
    intros a. apply silent_ret.
Qed.

Lemma for_each_single {A S} (a : A) (body : A -> S -> M S) s w :
  for_each [a] body s w = body a s w.
Proof.
  simpl. unfold bind, ret. by destruct (body a s w) as [[e|s'] w'].
Qed.

Lemma progress_messages_group p scale rcv i st w r w' :
  (do _ <- (if (i mod 100 =? 0)%nat
            then print (Z.of_nat i - 99) (Z.of_nat i)
            else ret tt);
   for_each (xrange (dimS p)) (noisy_max_sample p scale rcv i) st) w
  = (r, w') ->
  stdout w' = (if (i mod 100 =? 0)%nat
               then [(Z.of_nat i - 99, Z.of_nat i)] else []) ++ stdout w.
Proof.
  assert (forall w1, for_each (xrange (dimS p))
            (noisy_max_sample p scale rcv i) st w1 = (r, w') ->
          stdout w' = stdout w1) as Hrow.
  { intros w1 E. eapply silent_for_each; [|exact E].
    intros; apply silent_noisy_max_sample. }
  unfold bind at 1. destruct (i mod 100 =? 0)%nat.
  - unfold print. intros E%Hrow. by rewrite E.
  - unfold ret. intros E%Hrow. by rewrite E.
Qed.

Lemma progress_messages_scan p scale rcv n st w r w' :
  for_each (xrange n)
    (fun i st =>
       do _ <- (if (i mod 100 =? 0)%nat
                then print (Z.of_nat i - 99) (Z.of_nat i)
                else ret tt);
       for_each (xrange (dimS p)) (noisy_max_sample p scale rcv i) st)
    st w = (r, w') ->
  exists k, (k <= n)%nat /\
    stdout w' = progress_messages k ++ stdout w /\
    (forall st', r = inr st' -> k = n).
Proof.
  revert r w'. induction n as [|n IH]; intros r w'.
  - intros [= <- <-]. exists 0%nat. split; [lia|]. by split.
  - unfold xrange. rewrite seq_S, for_each_app. unfold bind at 1.
    destruct (for_each (seq 0 n) _ st w) as [[e|st1] w1] eqn:E1.
    + intros [= <- <-]. destruct (IH _ _ E1) as (k & Hk & Hout & _).
      exists k. split; [lia|]. split; [exact Hout|]. intros; discriminate.
    + destruct (IH _ _ E1) as (k & _ & Hout & Hk).
      rewrite (Hk st1 eq_refl) in Hout. clear k Hk.
      rewrite for_each_single. cbv beta. simpl plus.
      intros E2%progress_messages_group.
      exists (S n). split; [lia|]. split; [|done].
      rewrite E2, Hout. simpl progress_messages. by rewrite app_assoc.
Qed.

Lemma progress_messages_S i :
  progress_messages (S i)
  = (if (i mod 100 =? 0)%nat then [(Z.of_nat i - 99, Z.of_nat i)] else [])
    ++ progress_messages i.
Proof. reflexivity. Qed.

Lemma progress_messages_length n :
  length (progress_messages n) = ((n + 99) / 100)%nat.
Proof.
  induction n as [|n IH]; [reflexivity|].
  rewrite progress_messages_S, length_app, IH.
  pose proof (Nat.div_mod_eq n 100) as Hn.
  pose proof (Nat.mod_upper_bound n 100 ltac:(lia)) as Hr.
  destruct (n mod 100 =? 0)%nat eqn:E.
  - apply Nat.eqb_eq in E.
    assert ((n + 99) / 100 = n / 100)%nat as ->
      by (symmetry; apply (Nat.div_unique _ _ _ 99); lia).
    assert ((Datatypes.S n + 99) / 100 = Datatypes.S (n / 100))%nat as ->
      by (symmetry; apply (Nat.div_unique _ _ _ 0); lia).
    reflexivity.
  - apply Nat.eqb_neq in E.
    assert ((n + 99) / 100 = Datatypes.S (n / 100))%nat as ->
      by (symmetry; apply (Nat.div_unique _ _ _ (n mod 100 - 1)); lia).
    assert ((Datatypes.S n + 99) / 100 = Datatypes.S (n / 100))%nat as ->
      by (symmetry; apply (Nat.div_unique _ _ _ (n mod 100)); lia).
    reflexivity.
Qed.

Lemma noisy_max_stdout p scale rcv w r w' :
  noisy_max p scale rcv w = (r, w') ->
  exists k, (k <= dimN p)%nat /\
    stdout w' = progress_messages k ++ stdout w /\
    (forall x, r = inr x -> k = dimN p).
Proof.
  unfold noisy_max, bind.
  match goal with |- context [for_each ?l ?body ?s w] =>
    destruct (for_each l body s w) as [r1 w1] eqn:E end.
  destruct (progress_messages_scan _ _ _ _ _ _ _ _ E) as (k & Hk & Hout & Hret).
  destruct r1 as [e|[result cv]]; intros [= <- <-];
    exists k; (split; [exact Hk|]); (split; [exact Hout|]).
  - intros; discriminate.
  - intros x _. by eapply Hret.
Qed.

Lemma progress_messages_last k :
  (0 < k)%nat -> last (progress_messages k) = Some (-99, 0).
Proof.
  induction k as [|k IH]; [lia|]. intros _.
  destruct k as [|k]; [reflexivity|].
  rewrite progress_messages_S, last_app, IH by lia.
  reflexivity.
Qed.

(** X1. Whatever its outcome, [noisy_max] adds to the standard output
    nothing but its progress messages, one for each group index that is a
    multiple of 100 among the first [k] groups, where [k] is the number
    of groups [N] when it returns: [(N + 99) / 100] messages, the oldest
    one announcing the users -99 to 0. *)
Theorem noisy_max_progress_output p scale rcv w :
  exists k, (k <= dimN p)%nat /\
    stdout (noisy_max p scale rcv w).2 = progress_messages k ++ stdout w /\
    length (progress_messages k) = ((k + 99) / 100)%nat /\
    ((0 < k)%nat -> last (progress_messages k) = Some (-99, 0)) /\
    ((exists r, (noisy_max p scale rcv w).1 = inr r) -> k = dimN p).
Proof.
  destruct (noisy_max p scale rcv w) as [r w'] eqn:E.
  destruct (noisy_max_stdout _ _ _ _ _ _ E) as (k & Hk & Hout & Hret).
  exists k. split; [exact Hk|]. split; [exact Hout|].
  split; [apply progress_messages_length|].
  split; [apply progress_messages_last|].
  intros [x Hx]. by apply (Hret x).
Qed.

(** ** The flag [return_clean_votes] *)

Lemma for_each_agree {A S1 S2} (R : S1 -> S2 -> Prop) (l : list A)
    (body1 : A -> S1 -> M S1) (body2 : A -> S2 -> M S2) s1 s2 w :
  R s1 s2 ->
  (forall a s1 s2 w, R s1 s2 -> agree R (body1 a s1 w) (body2 a s2 w)) ->
  agree R (for_each l body1 s1 w) (for_each l body2 s2 w).
Proof.
  intros HR Hbody. revert s1 s2 w HR.
  induction l as [|a l IH]; intros s1 s2 w HR; simpl.
  - by split.
  - unfold bind. specialize (Hbody a s1 s2 w HR).
    destruct (body1 a s1 w) as [[e1|s1'] w1],
             (body2 a s2 w) as [[e2|s2'] w2];
      destruct Hbody as [Hw Hr]; simpl in Hw, Hr; subst; try done.
    by apply IH.
Qed.

Lemma agree_bind_same {A S1 S2} (R : S1 -> S2 -> Prop) (m : M A)
    (f1 : A -> M S1) (f2 : A -> M S2) w :
  (forall a w', agree R (f1 a w') (f2 a w')) ->
  agree R (bind m f1 w) (bind m f2 w).
Proof.
  intros Hf. unfold bind. destruct (m w) as [[e|a] w']; [by split|].
  apply Hf.
Qed.

Lemma noisy_max_sample_flag p scale i j st1 st2 w :
  st1.1 = st2.1 ->
  agree (fun st1 st2 => st1.1 = st2.1)
    (noisy_max_sample p scale true i j st1 w)
    (noisy_max_sample p scale false i j st2 w).
Proof.
  destruct st1 as [r1 cv1], st2 as [r2 cv2]. simpl. intros ->.
  unfold noisy_max_sample.
  apply agree_bind_same. intros lc w1. cbv zeta.
  apply agree_bind_same. intros lc' w2.
  apply agree_bind_same. intros a w3.
  by split.
Qed.

Lemma labels_only_agree N S
    (m1 m2 : M (list spec_float * option (list spec_float))) w :
  agree (fun st1 st2 => st1.1 = st2.1) (m1 w) (m2 w) ->
  labels_only
    ((do '(result, clean_votes) <- m1;
      ret (LabelTensor N S (map f64_to_int32 result),
           option_map (VotesTensor N S) clean_votes)) w)
  = labels_only
      ((do '(result, clean_votes) <- m2;
        ret (LabelTensor N S (map f64_to_int32 result),
             option_map (VotesTensor N S) clean_votes)) w).
Proof.
  unfold bind, labels_only.
  destruct (m1 w) as [[e1|[r1 cv1]] w1], (m2 w) as [[e2|[r2 cv2]] w2];
    intros [Hw Hr]; simpl in Hw, Hr; subst; done.
Qed.

(** X2. The flag [return_clean_votes] changes nothing but the presence of
    the clean votes in the result: for every tensor, scale and state a
    call with the flag set and a call without it raise the same exception
    or return the same labels, and both leave the same generator state
    and the same output. *)
Theorem return_clean_votes_only_adds_votes p scale w :
  labels_only (noisy_max p scale true w)
  = labels_only (noisy_max p scale false w).
Proof.
  unfold noisy_max. apply labels_only_agree.
  apply for_each_agree; [reflexivity|].
  intros i st1 st2 w1 Hst.
  apply agree_bind_same. intros _ w2.
  apply for_each_agree; [exact Hst|].
  intros j s1 s2 w3 Hs. by apply noisy_max_sample_flag.
Qed.

(** ** An empty grid of samples *)

(** X3. On a tensor without samples ([N * S = 0]) both aggregators return
    an empty label tensor of shape [(N, S)], whatever the teacher axis
    holds; [noisy_max] draws nothing and never hands its scale to the
    sampler, so it returns even with a scale the sampler would reject, and
    its clean votes, when asked for, are empty as well. *)
Theorem empty_grid_returns_empty p scale rcv w :
  (dimN p * dimS p = 0)%nat ->
  (exists w',
     noisy_max p scale rcv w
     = (inr (LabelTensor (dimN p) (dimS p) [],
             if rcv then Some (VotesTensor (dimN p) (dimS p) []) else None),
        w') /\
     rng w' = rng w /\ rng_pos w' = rng_pos w) /\
  aggregation_most_frequent p w = (inr (LabelTensor (dimN p) (dimS p) []), w).
Proof.
  intros Hgrid. split.
  - unfold noisy_max. rewrite Hgrid.
    match goal with
    | |- context [for_each ?l ?body ?s] =>
        pose proof (for_each_invariant
          (fun _ st w' => st = s /\ rng w' = rng w /\ rng_pos w' = rng_pos w)
          l body s w) as Hloop
    end.
    destruct Hloop as (st & w' & E & -> & Hrng & Hpos); [done| |].
    + intros i a st w1 [-> Hi]%xrange_lookup (-> & Hrng & Hpos).
      assert (dimS p = 0)%nat as -> by nia. cbv beta.
      destruct (i mod 100 =? 0)%nat; eexists _, _;
        (split; [reflexivity|done]).
    + exists w'. split; [|done].
      erewrite bind_inr by exact E. by destruct rcv.
  - unfold aggregation_most_frequent. rewrite Hgrid.
    match goal with
    | |- context [for_each ?l ?body ?s] =>
        pose proof (for_each_invariant
          (fun _ st w' => st = s /\ w' = w) l body s w) as Hloop
    end.
    destruct Hloop as (st & w' & E & -> & ->); [done| |].
    + intros i a st w1 [-> Hi]%xrange_lookup (-> & ->).
      assert (dimS p = 0)%nat as -> by nia.
      eexists _, _. split; [reflexivity|done].
    + by erewrite bind_inr by exact E.
Qed.

Lemma empty_grid_returns_empty_witness :
  (dimN MoreSamples.no_samples * dimS MoreSamples.no_samples = 0)%nat /\
  rng_accepts Samples.second_draw_high MoreSamples.minus_one = false /\
  exists w',
    noisy_max MoreSamples.no_samples MoreSamples.minus_one true
      Samples.second_draw_high
    = (inr (LabelTensor 2 0 [], Some (VotesTensor 2 0 [])), w') /\
    rng_pos w' = 0%nat.
Proof.
  assert (dimN MoreSamples.no_samples * dimS MoreSamples.no_samples = 0)%nat
    as Hgrid by reflexivity.
  split; [exact Hgrid|]. split; [reflexivity|].
  destruct (empty_grid_returns_empty MoreSamples.no_samples
              MoreSamples.minus_one true Samples.second_draw_high Hgrid)
    as ((w' & E & _ & Hpos) & _).
  exists w'. split; [exact E|exact Hpos].
Defined.

(** ** [labels_from_probs] at its edges *)

(** X8. On scores whose last axis is empty, with at least one row,
    [labels_from_probs] raises the [ValueError] of [np.argmax] and leaves
    the interpreter state alone. *)
Theorem labels_from_probs_empty_axis a w :
  last_dim a = 0%nat -> (0 < lead_size a)%nat ->
  labels_from_probs a w = (inl ValueError, w).
Proof.
  intros HK Hrows. unfold labels_from_probs, np_argmax_last_axis.
  by rewrite HK.
Qed.

Lemma labels_from_probs_empty_axis_witness :
  last_dim MoreSamples.no_scores = 0%nat /\
  (0 < lead_size MoreSamples.no_scores)%nat /\
  labels_from_probs MoreSamples.no_scores Samples.second_draw_high
  = (inl ValueError, Samples.second_draw_high).
Proof.
  assert (last_dim MoreSamples.no_scores = 0%nat) as HK by reflexivity.
  assert (0 < lead_size MoreSamples.no_scores)%nat as Hrows
    by (vm_compute; lia).
  split; [exact HK|]. split; [exact Hrows|].
  exact (labels_from_probs_empty_axis MoreSamples.no_scores
           Samples.second_draw_high HK Hrows).
Defined.

Lemma float_leb_nan_l x y : Float.is_nan x = true -> Float.leb x y = false.
Proof. by destruct x. Qed.

Lemma argmax_float_loop_first_nan l mp best i k :
  Float.is_nan mp = false -> first_nan l k ->
  argmax_float_loop mp best i l = i + Z.of_nat k.
Proof.
  revert mp best i k. induction l as [|x l IH];
    intros mp best i k Hmp [(y & Hy & Hnan) Hbefore].
  - by rewrite lookup_nil in Hy.
  - simpl. destruct k as [|k].
    + injection Hy as ->. rewrite (float_leb_nan_l _ _ Hnan), Hnan. lia.
    + assert (Float.is_nan x = false) as Hx
        by (apply (Hbefore 0%nat); [lia|reflexivity]).
      assert (first_nan l k) as Hl.
      { split; [by exists y|]. intros j z Hj Hz.
        apply (Hbefore (S j)); [lia|exact Hz]. }
      destruct (Float.leb x mp).
      * rewrite (IH mp best (i + 1) k) by done. lia.
      * rewrite Hx, (IH x i (i + 1) k) by done. lia.
Qed.

Lemma argmax_float_index_first_nan l k :
  first_nan l k -> argmax_float_index l = Z.of_nat k.
Proof.
  intros Hnan. pose proof Hnan as [(y & Hy & Hy') Hbefore].
  destruct l as [|x l]; [by rewrite lookup_nil in Hy|].
  unfold argmax_float_index, np_argmax_float.
  destruct k as [|k].
  - injection Hy as ->. by rewrite Hy'.
  - assert (Float.is_nan x = false) as Hx
      by (apply (Hbefore 0%nat); [lia|reflexivity]).
    rewrite Hx.
    rewrite (argmax_float_loop_first_nan l x 0 1 k); [lia|done|].
    split; [by exists y|]. intros j z Hj Hz.
    apply (Hbefore (S j)); [lia|exact Hz].
Qed.

(** X9. A NaN wins the arg-max: when a row of the scores holds a NaN (and
    the last axis has at most [2 ^ 31] entries), the label that
    [labels_from_probs] gives the row is the position of its first NaN,
    whatever the other scores are. *)
Theorem labels_from_probs_first_nan a w r k :
  wf_score_array a ->
  (0 < last_dim a)%nat ->
  Z.of_nat (last_dim a) <= 2 ^ 31 ->
  (r < lead_size a)%nat ->
  first_nan (take (last_dim a) (drop (r * last_dim a) (scores a))) k ->
  exists lab,
    labels_from_probs a w = (inr (IntArray (lead_shape a) lab), w) /\
    lab !! r = Some (Z.of_nat k).
Proof.
  intros Hwf HK Hfit Hr Hnan.
  eexists. split; [by apply labels_from_probs_returns|].
  rewrite !map_fmap, !list_lookup_fmap, chunks_lookup by done. simpl.
  rewrite (argmax_float_index_first_nan _ _ Hnan).
  destruct Hnan as [(y & Hy & _) _].
  apply lookup_lt_Some in Hy.
  rewrite (row_length _ (lead_size a)) in Hy by done.
  rewrite wrap_int32_small; [done|].
  unfold in_int32, int32_min, int32_max. lia.
Qed.

Lemma labels_from_probs_first_nan_witness :
  wf_score_array MoreSamples.nan_row /\
  first_nan (take 3 (drop 0 (scores MoreSamples.nan_row))) 1 /\
  exists lab,
    labels_from_probs MoreSamples.nan_row Samples.second_draw_high
      = (inr (IntArray [] lab), Samples.second_draw_high) /\
    lab !! 0%nat = Some 1.
Proof.
  assert (wf_score_array MoreSamples.nan_row) as Hwf by reflexivity.
  assert (0 < last_dim MoreSamples.nan_row)%nat as HK by (simpl; lia).
  assert (Z.of_nat (last_dim MoreSamples.nan_row) <= 2 ^ 31) as Hfit
    by (vm_compute; discriminate).
  assert (0 < lead_size MoreSamples.nan_row)%nat as Hr by (vm_compute; lia).
  assert (first_nan (take 3 (drop 0 (scores MoreSamples.nan_row))) 1)
    as Hnan.
  { split; [by exists S754_nan|].
    intros [|j] y Hj Hy; [|lia]. by injection Hy as <-. }
  split; [exact Hwf|]. split; [exact Hnan|].
  exact (labels_from_probs_first_nan MoreSamples.nan_row
           Samples.second_draw_high 0 1 Hwf HK Hfit Hr Hnan).
Defined.

(** ** Scores on another scale *)

Lemma argmax_float_loop_same_order l1 l2 mp1 mp2 best i :
  Forall2 (fun y1 y2 => Float.leb y2 mp2 = Float.leb y1 mp1) l1 l2 ->
  same_order l1 l2 ->
  argmax_float_loop mp2 best i l2 = argmax_float_loop mp1 best i l1.
Proof.
  revert l2 mp1 mp2 best i.
  induction l1 as [|x1 l1 IH]; intros [|x2 l2] mp1 mp2 best i Hmp Hsame;
    try done.
  apply Forall2_cons in Hmp as [Hx Hmp].
  destruct Hsame as (Hnan & Hlater & Hsame). simpl.
  rewrite Hx, Hnan. destruct (Float.leb x1 mp1); [by apply IH|].
  destruct (Float.is_nan x1); [done|]. by apply IH.
Qed.

Lemma np_argmax_float_same_order l1 l2 :
  same_order l1 l2 -> np_argmax_float l2 = np_argmax_float l1.
Proof.
  destruct l1 as [|x1 l1], l2 as [|x2 l2]; try done.
  intros (Hnan & Hlater & Hsame). simpl. rewrite Hnan.
  by rewrite (argmax_float_loop_same_order l1 l2 x1 x2).
Qed.

Lemma map_exc_Forall2 {A B} (f : A -> exception + B) l1 l2 :
  Forall2 (fun a1 a2 => f a2 = f a1) l1 l2 -> map_exc f l2 = map_exc f l1.
Proof.
  induction 1 as [|a1 a2 l1 l2 Ha Hl IH]; simpl; [done|].
  by rewrite Ha, IH.
Qed.

(** X11. The labels depend on the order of the scores within each row
    alone: two score arrays of the same shape whose rows are ordered alike
    (logits and a rescaling of them that keeps the order, row by row, for
    instance) get the same labels from [labels_from_probs], or the same
    error. *)
Theorem labels_from_probs_order_only a b w :
  lead_shape b = lead_shape a ->
  last_dim b = last_dim a ->
  Forall2 same_order (score_rows a) (score_rows b) ->
  labels_from_probs b w = labels_from_probs a w.
Proof.
  intros Hshape HK Hrows.
  unfold labels_from_probs, np_argmax_last_axis. rewrite Hshape, HK.
  destruct (last_dim a =? 0)%nat; [reflexivity|].
  unfold score_rows, lead_size in Hrows. rewrite Hshape, HK in Hrows.
  unfold lead_size. rewrite Hshape.
  erewrite map_exc_Forall2; [reflexivity|].
  eapply Forall2_impl; [exact Hrows|]. simpl.
  intros row1 row2. apply np_argmax_float_same_order.
Qed.

Lemma labels_from_probs_order_only_witness :
  lead_shape PipelineSamples.two_rows_rescaled = lead_shape Samples.two_rows /\
  last_dim PipelineSamples.two_rows_rescaled = last_dim Samples.two_rows /\
  Forall2 same_order (score_rows Samples.two_rows)
    (score_rows PipelineSamples.two_rows_rescaled) /\
  scores PipelineSamples.two_rows_rescaled <> scores Samples.two_rows /\
  labels_from_probs PipelineSamples.two_rows_rescaled
    Samples.second_draw_high
  = labels_from_probs Samples.two_rows Samples.second_draw_high /\
  labels_from_probs Samples.two_rows Samples.second_draw_high
  = (inr (IntArray [2%nat] [1; 0]), Samples.second_draw_high).
Proof.
  assert (lead_shape PipelineSamples.two_rows_rescaled
          = lead_shape Samples.two_rows) as Hshape by reflexivity.
  assert (last_dim PipelineSamples.two_rows_rescaled
          = last_dim Samples.two_rows) as HK by reflexivity.
  assert (Forall2 same_order (score_rows Samples.two_rows)
            (score_rows PipelineSamples.two_rows_rescaled)) as Hrows.
  { repeat constructor. }
  split; [exact Hshape|]. split; [exact HK|]. split; [exact Hrows|].
  split; [discriminate|].
  split; [|reflexivity].
  exact (labels_from_probs_order_only Samples.two_rows
           PipelineSamples.two_rows_rescaled Samples.second_draw_high
           Hshape HK Hrows).
Defined.

(** ** From scores to aggregated labels *)

Lemma argmax_labels_range K n (l : list spec_float) :
  length l = (n * K)%nat -> (0 < K)%nat -> Z.of_nat K <= 2 ^ 31 ->
  Forall (fun v => 0 <= v <= Z.of_nat K - 1)
    (map wrap_int32 (map argmax_float_index (chunks K n l))).
Proof.
  intros Hl HK Hfit. rewrite map_map, map_fmap.
  apply Forall_fmap, Forall_lookup_2. intros r row Hrow. simpl.
  pose proof (lookup_lt_Some _ _ _ Hrow) as Hr. rewrite chunks_length in Hr.
  rewrite chunks_lookup in Hrow by done. injection Hrow as <-.
  pose proof (row_length K n l r Hl Hr) as Hlen.
  destruct (take K (drop (r * K) l)) as [|x row] eqn:E;
    [simpl in Hlen; lia|].
  pose proof (argmax_float_index_range x row) as Ha. rewrite Hlen in Ha.
  rewrite wrap_int32_small; [lia|].
  unfold in_int32, int32_min, int32_max. lia.
Qed.

(** X10. The labels that [labels_from_probs] gives for scores of shape
    [(T, N, S, K)], with [0 < K <= 2 ^ 31], form a prediction tensor
    that neither aggregator rejects: its entries are in [0, K - 1], so
    [aggregation_most_frequent] and [noisy_max] (with a scale its sampler
    accepts) return labels in [1, 5] for it. A teacher whose best score is
    at position 0 is thereby counted for no class. *)
Theorem scores_to_labels_pipeline a T N S scale rcv w :
  wf_score_array a ->
  lead_shape a = [T; N; S] ->
  (0 < last_dim a)%nat ->
  Z.of_nat (last_dim a) <= 2 ^ 31 ->
  rng_accepts w scale = true ->
  exists lab,
    labels_from_probs a w = (inr lab, w) /\
    let p := as_predictions T N S lab in
    wf_tensor3 p /\
    Forall (fun v => 0 <= v <= Z.of_nat (last_dim a) - 1) (data3 p) /\
    (exists r, aggregation_most_frequent p w = (inr r, w) /\
               rows r = N /\ cols r = S /\
               Forall (fun v => 1 <= v <= 5) (labels r)) /\
    (exists r cv w', noisy_max p scale rcv w = (inr (r, cv), w') /\
               rows r = N /\ cols r = S /\
               Forall (fun v => 1 <= v <= 5) (labels r)) /\
    forall i j, (i < N)%nat -> (j < S)%nat ->
      sum_Z (votes_at p i j)
      = Z.of_nat T - discarded (column p i j).
Proof.
  intros Hwf Hshape HK Hfit Hok.
  eexists. split; [by apply labels_from_probs_returns|].
  set (lab := map wrap_int32 _). intros p.
  assert (Forall (fun v => 0 <= v <= Z.of_nat (last_dim a) - 1) lab)
    as Hrange.
  { apply argmax_labels_range; [exact Hwf|done..]. }
  assert (wf_tensor3 p) as Hwfp.
  { unfold wf_tensor3, p, as_predictions. cbn [data3 dimT dimN dimS idata].
    unfold lab. rewrite !length_map, chunks_length.
    unfold lead_size. rewrite Hshape. simpl. lia. }
  assert (Forall countable (data3 p)) as Hcount.
  { eapply Forall_impl; [exact Hrange|]. unfold countable, bin_limit.
    simpl. intros; lia. }
  pose proof (countable_columns p Hwfp Hcount) as Hcols.
  destruct (noisy_max_returns p scale rcv w Hok Hcols)
    as (noisy & cv & w' & En & _ & _ & _ & Hlenn & Hnoisy & _).
  destruct (aggregation_most_frequent_returns p w Hcols)
    as (frequent & Ef & Hlenf & Hfrequent).
  split; [exact Hwfp|]. split; [exact Hrange|]. split; [|split].
  - eexists. split; [exact Ef|]. cbn [rows cols labels].
    repeat split.
    apply (labels_Forall _ _ _ _ Hlenf). intros i j Hi Hj.
    eexists. split; [by apply Hfrequent|]. apply most_frequent_label_range.
  - eexists _, cv, w'. split; [exact En|]. cbn [rows cols labels].
    repeat split.
    apply (labels_Forall _ _ _ _ Hlenn). intros i j Hi Hj.
    eexists. split; [by apply Hnoisy|]. apply noisy_label_range.
  - intros i j Hi Hj.
    pose proof (class_counts_sum _ (countable_nonneg _ (Hcols i j Hi Hj)))
      as Hsum.
    rewrite column_length in Hsum.
    unfold votes_at. rewrite <- class_counts_votes.
    change (dimT p) with T in Hsum. lia.
Qed.

Lemma scores_to_labels_pipeline_witness :
  wf_score_array PipelineSamples.two_teacher_scores /\
  rng_accepts Samples.second_draw_high Samples.one = true /\
  exists lab,
    labels_from_probs PipelineSamples.two_teacher_scores
      Samples.second_draw_high = (inr lab, Samples.second_draw_high) /\
    exists r,
      aggregation_most_frequent (as_predictions 2 1 2 lab)
        Samples.second_draw_high = (inr r, Samples.second_draw_high) /\
      Forall (fun v => 1 <= v <= 5) (labels r).
Proof.
  assert (wf_score_array PipelineSamples.two_teacher_scores) as Hwf
    by reflexivity.
  assert (lead_shape PipelineSamples.two_teacher_scores
          = [2%nat; 1%nat; 2%nat]) as Hshape by reflexivity.
  assert (0 < last_dim PipelineSamples.two_teacher_scores)%nat as HK
    by (simpl; lia).
  assert (Z.of_nat (last_dim PipelineSamples.two_teacher_scores) <= 2 ^ 31)
    as Hfit by (vm_compute; discriminate).
  assert (rng_accepts Samples.second_draw_high Samples.one = true) as Hok
    by reflexivity.
  split; [exact Hwf|]. split; [exact Hok|].
  destruct (scores_to_labels_pipeline PipelineSamples.two_teacher_scores
              2 1 2 Samples.one false Samples.second_draw_high
              Hwf Hshape HK Hfit Hok)
    as (lab & E & _ & _ & (r & Er & _ & _ & Hr) & _).
  exists lab. split; [exact E|]. exists r. split; [exact Er|exact Hr].
Defined.

(** ** The order of the teachers *)

Lemma concat_blocks_lookup {A} (bs : list (list A)) n t k :
  Forall (fun b => length b = n) bs -> (k < n)%nat ->
  concat bs !! (t * n + k)%nat = bs !! t ≫= (.!! k).
Proof.
  intros Hbs Hk. revert t. induction Hbs as [|b bs Hb Hbs IH]; intros t.
  - by rewrite !lookup_nil.
  - simpl concat. destruct t as [|t].
    + simpl. rewrite lookup_app_l by lia. reflexivity.
    + rewrite lookup_app_r by (rewrite Hb; nia).
      replace (S t * n + k - length b)%nat with (t * n + k)%nat
        by (rewrite Hb; lia).
      apply IH.
Qed.

Lemma teacher_block_length p t :
  wf_tensor3 p -> (t < dimT p)%nat ->
  length (teacher_block p t) = (dimN p * dimS p)%nat.
Proof.
  intros Hwf Ht. unfold teacher_block.
  rewrite length_take, length_drop, Hwf. nia.
Qed.

Lemma teacher_block_lookup p t k :
  (k < dimN p * dimS p)%nat ->
  teacher_block p t !! k = data3 p !! (t * (dimN p * dimS p) + k)%nat.
Proof.
  intros Hk. unfold teacher_block.
  by rewrite lookup_take_lt, lookup_drop by done.
Qed.

Lemma permute_teachers_get3 sigma p t i j :
  wf_tensor3 p -> Forall (fun s => (s < dimT p)%nat) sigma ->
  (t < length sigma)%nat -> (i < dimN p)%nat -> (j < dimS p)%nat ->
  get3 (permute_teachers sigma p) t i j = get3 p (sigma !!! t) i j.
Proof.
  intros Hwf Hsigma Ht Hi Hj. unfold get3 at 1.
  cbn [data3 dimN dimS permute_teachers].
  pose proof (index_bound _ _ _ _ Hi Hj) as Hk.
  apply list_lookup_total_correct.
  rewrite (concat_blocks_lookup _ (dimN p * dimS p)); [|..|done].
  - rewrite map_fmap, list_lookup_fmap.
    rewrite (list_lookup_lookup_total_lt sigma t Ht). simpl.
    rewrite teacher_block_lookup by done.
    apply get3_lookup; [done| |done..].
    apply (Forall_lookup_1 (fun s => (s < dimT p)%nat) sigma t);
      [exact Hsigma|].
    by apply list_lookup_lookup_total_lt.
  - rewrite map_fmap. apply Forall_fmap.
    eapply Forall_impl; [exact Hsigma|]. simpl.
    intros s Hs. by apply teacher_block_length.
Qed.

Lemma map_lookup_total_seq {A} `{!Inhabited A} (l : list A) :
  map (fun t => l !!! t) (seq 0 (length l)) = l.
Proof.
  apply list_eq. intros k. rewrite map_fmap, list_lookup_fmap.
  destruct (decide (k < length l)%nat) as [Hk|Hk].
  - rewrite lookup_seq_lt by done. simpl.
    by rewrite list_lookup_lookup_total_lt.
  - rewrite lookup_seq_ge, lookup_ge_None_2 by lia. reflexivity.
Qed.

Lemma permute_teachers_column sigma p i j :
  wf_tensor3 p -> Forall (fun s => (s < dimT p)%nat) sigma ->
  (i < dimN p)%nat -> (j < dimS p)%nat ->
  column (permute_teachers sigma p) i j
  = map (fun t => get3 p t i j) sigma.
Proof.
  intros Hwf Hsigma Hi Hj. unfold column, xrange.
  cbn [dimT permute_teachers].
  rewrite <- (map_lookup_total_seq sigma) at 2. rewrite map_map.
  apply map_ext_in. intros t Ht%in_seq.
  apply permute_teachers_get3; [done..|lia|done|done].
Qed.

Lemma permutation_of_teachers_bound sigma T :
  sigma ≡ₚ seq 0 T -> Forall (fun s => (s < T)%nat) sigma.
Proof.
  intros H. rewrite H. apply Forall_forall. intros s Hs%elem_of_seq. lia.
Qed.

Lemma permute_teachers_counts sigma p i j :
  wf_tensor3 p -> sigma ≡ₚ seq 0 (dimT p) ->
  (i < dimN p)%nat -> (j < dimS p)%nat ->
  column (permute_teachers sigma p) i j ≡ₚ column p i j /\
  label_counts_at (permute_teachers sigma p) i j = label_counts_at p i j.
Proof.
  intros Hwf Hsigma Hi Hj.
  assert (column (permute_teachers sigma p) i j ≡ₚ column p i j) as Hperm.
  { rewrite permute_teachers_column;
      [|done|by apply permutation_of_teachers_bound|done..].
    unfold column, xrange. rewrite !map_fmap. by rewrite Hsigma. }
  split; [exact Hperm|]. unfold label_counts_at.
  by rewrite (np_bincount_Permutation _ _ 6 six_bins_fit Hperm).
Qed.

Lemma grid_determined {A} N S (val : nat -> nat -> A) (l1 l2 : list A) :
  length l1 = (N * S)%nat -> length l2 = (N * S)%nat ->
  (forall i j, (i < N)%nat -> (j < S)%nat ->
     l1 !! (i * S + j)%nat = Some (val i j)) ->
  (forall i j, (i < N)%nat -> (j < S)%nat ->
     l2 !! (i * S + j)%nat = Some (val i j)) ->
  l1 = l2.
Proof.
  intros H1 H2 Hl1 Hl2.
  apply (list_eq_same_length _ _ (N * S)); [done..|].
  intros k x y Hk Hx Hy.
  destruct (index_split _ _ _ Hk) as (i & j & Hi & Hj & ->).
  rewrite (Hl1 i j) in Hx by done. rewrite (Hl2 i j) in Hy by done.
  congruence.
Qed.

(** X4. The order of the teachers is irrelevant: on a tensor without
    negative entries, taking the teachers in another order changes neither
    what [aggregation_most_frequent] returns nor, for the same generator
    state and an accepted scale, anything of what [noisy_max] returns
    (labels, clean votes) and leaves (generator, output). *)
Theorem teacher_order_is_irrelevant sigma p scale rcv w :
  wf_tensor3 p ->
  Forall (fun v => 0 <= v) (data3 p) ->
  sigma ≡ₚ seq 0 (dimT p) ->
  rng_accepts w scale = true ->
  noisy_max (permute_teachers sigma p) scale rcv w = noisy_max p scale rcv w /\
  aggregation_most_frequent (permute_teachers sigma p) w
  = aggregation_most_frequent p w.
Proof.
  intros Hwf Hall Hsigma Hok.
  assert (forall i j, (i < dimN p)%nat -> (j < dimS p)%nat ->
            label_counts_at (permute_teachers sigma p) i j
            = label_counts_at p i j) as Hcounts.
  { intros i j Hi Hj. by apply permute_teachers_counts. }
  split.
  - by apply noisy_max_counts.
  - by apply aggregation_most_frequent_counts.
Qed.

Lemma teacher_order_is_irrelevant_witness :
  wf_tensor3 MoreSamples.three_by_two /\
  Forall (fun v => 0 <= v) (data3 MoreSamples.three_by_two) /\
  [2; 0; 1]%nat ≡ₚ seq 0 (dimT MoreSamples.three_by_two) /\
  data3 (permute_teachers [2; 0; 1]%nat MoreSamples.three_by_two)
    = [1; 4; 1; 2; 3; 4] /\
  aggregation_most_frequent
    (permute_teachers [2; 0; 1]%nat MoreSamples.three_by_two)
    Samples.second_draw_high
  = aggregation_most_frequent MoreSamples.three_by_two
      Samples.second_draw_high.
Proof.
  assert (wf_tensor3 MoreSamples.three_by_two) as Hwf by reflexivity.
  assert (Forall (fun v => 0 <= v) (data3 MoreSamples.three_by_two))
    as Hall by (repeat constructor; lia).
  assert ([2; 0; 1]%nat ≡ₚ seq 0 (dimT MoreSamples.three_by_two)) as Hsigma.
  { simpl. apply (Permutation_cons_app [0%nat; 1%nat] [] 2%nat).
    reflexivity. }
  assert (rng_accepts Samples.second_draw_high Samples.one = true) as Hok
    by reflexivity.
  split; [exact Hwf|]. split; [exact Hall|]. split; [exact Hsigma|].
  split; [reflexivity|].
  exact (proj2 (teacher_order_is_irrelevant [2; 0; 1]%nat
                  MoreSamples.three_by_two Samples.one false
                  Samples.second_draw_high Hwf Hall Hsigma Hok)).
Defined.

(** ** One more teacher *)

Lemma occurrences_app c x y :
  occurrences c (x ++ y) = occurrences c x + occurrences c y.
Proof.
  unfold occurrences. rewrite filter_app, length_app. lia.
Qed.

Lemma add_teacher_column p new_votes i j :
  wf_tensor3 p -> (i < dimN p)%nat -> (j < dimS p)%nat ->
  column (add_teacher p new_votes) i j
  = column p i j ++ [new_votes !!! (i * dimS p + j)%nat].
Proof.
  intros Hwf Hi Hj. unfold column, xrange. cbn [dimT add_teacher].
  rewrite seq_S, map_app. simpl map. f_equal.
  - apply map_ext_in. intros t Ht%in_seq. unfold get3.
    cbn [data3 dimN dimS add_teacher].
    apply lookup_total_app_l. rewrite Hwf.
    pose proof (index_bound _ _ _ _ Hi Hj). nia.
  - f_equal. unfold get3. cbn [data3 dimN dimS add_teacher].
    rewrite lookup_total_app_r by (rewrite Hwf; lia).
    f_equal. rewrite Hwf. lia.
Qed.

Lemma class_counts_snoc x v c :
  (c < 5)%nat ->
  class_counts (x ++ [v]) !! c
  = Some (class_counts x !!! c
          + (if decide (v = Z.of_nat c + 1) then 1 else 0)).
Proof.
  intros Hc. unfold class_counts. rewrite !occurrences_app.
  destruct c as [|[|[|[|[|c]]]]]; [..|lia]; simpl;
    rewrite occurrences_cons, occurrences_nil;
    repeat destruct (decide _); try lia; do 2 f_equal; lia.
Qed.

Lemma class_counts_lookup x c :
  (c < 5)%nat -> class_counts x !! c = Some (class_counts x !!! c).
Proof.
  intros Hc. apply list_lookup_lookup_total_lt.
  by rewrite class_counts_length.
Qed.

(** Raising one entry of a list by one moves its first maximum to that
    entry or leaves it where it is. *)
Lemma first_max_raise_one (l l' : list Z) v k k' :
  length l' = length l ->
  (forall c x, l !! c = Some x ->
     l' !! c = Some (x + (if decide (c = v) then 1 else 0))) ->
  first_max_Z l k -> first_max_Z l' k' -> k' = k \/ k' = v.
Proof.
  intros Hlen Hraise (x & Hk & Hle & Hlt) (y' & Hk' & Hle' & Hlt').
  destruct (decide (k' = v)) as [|Hne]; [by right|left].
  assert (exists y, l !! k' = Some y) as [y Hy].
  { apply lookup_lt_is_Some_2. rewrite <- Hlen.
    by eapply lookup_lt_Some. }
  pose proof (Hraise _ _ Hy) as Hy'. rewrite Hk' in Hy'.
  rewrite decide_False in Hy' by done. injection Hy' as ->.
  pose proof (Hraise _ _ Hk) as Hxk.
  pose proof (Hle _ _ Hy) as H1.
  pose proof (Hle' _ _ Hxk) as H2.
  destruct (Nat.lt_trichotomy k k') as [Hlt1|[->|Hlt1]]; [|done|].
  - pose proof (Hlt' _ _ Hlt1 Hxk). destruct (decide (k = v)); lia.
  - pose proof (Hlt _ _ Hlt1 Hy). destruct (decide (k = v)); lia.
Qed.

Lemma votes_at_class_counts p i j :
  votes_at p i j = class_counts (column p i j).
Proof. unfold votes_at. by rewrite class_counts_votes. Qed.

Lemma first_max_Z_unique l k1 k2 :
  first_max_Z l k1 -> first_max_Z l k2 -> k1 = k2.
Proof. apply first_max_unique. intros x y. lia. Qed.

(** X5. One more teacher moves the label of a sample only to the class
    this teacher votes for: after adding a teacher (fewer than [2 ^ 31]
    in all, every entry in the range [0, 2 ^ 31) of an int32 label), the
    label [aggregation_most_frequent] gives a sample is the one it gave
    before or the new teacher's vote for that sample; it is unchanged when
    the new vote is for the current label, or is 0 or above 5. *)
Theorem one_more_teacher p new_votes w i j :
  wf_tensor3 p ->
  Forall (fun v => 0 <= v < 2 ^ 31) (data3 p) ->
  length new_votes = (dimN p * dimS p)%nat ->
  Forall (fun v => 0 <= v < 2 ^ 31) new_votes ->
  Z.of_nat (dimT p) + 1 < 2 ^ 31 ->
  (i < dimN p)%nat -> (j < dimS p)%nat ->
  exists r r' old new v,
    aggregation_most_frequent p w = (inr r, w) /\
    aggregation_most_frequent (add_teacher p new_votes) w = (inr r', w) /\
    get_label r i j = Some old /\
    get_label r' i j = Some new /\
    new_votes !! (i * dimS p + j)%nat = Some v /\
    (new = old \/ new = v) /\
    (v = 0 \/ 5 < v -> new = old).
Proof.
  intros Hwf Hall Hlen Hnew HT Hi Hj.
  set (q := add_teacher p new_votes).
  assert (wf_tensor3 q) as Hwfq.
  { unfold wf_tensor3, q, add_teacher. cbn [data3 dimT dimN dimS].
    rewrite length_app, Hwf, Hlen. lia. }
  assert (Forall (fun v => 0 <= v < 2 ^ 31) (data3 q)) as Hallq
    by by apply Forall_app.
  destruct (aggregation_most_frequent_returns p w
              (countable_columns p Hwf (int32_labels_countable _ Hall)))
    as (lab & E & _ & Hlab).
  destruct (aggregation_most_frequent_returns q w
              (countable_columns q Hwfq (int32_labels_countable _ Hallq)))
    as (labq & Eq & _ & Hlabq).
  specialize (Hlab i j Hi Hj). specialize (Hlabq i j Hi Hj).
  change (dimS q) with (dimS p) in Hlabq.
  change (dimN q) with (dimN p) in Eq. change (dimS q) with (dimS p) in Eq.
  pose proof (index_bound _ _ _ _ Hi Hj) as Hk.
  set (v := new_votes !!! (i * dimS p + j)%nat).
  assert (new_votes !! (i * dimS p + j)%nat = Some v) as Hv
    by (apply list_lookup_lookup_total_lt; lia).
  assert (0 <= v < 2 ^ 31) as [Hv0 _]
    by (by eapply (Forall_lookup_1 _ _ _ _ Hnew)).
  assert (column q i j = column p i j ++ [v]) as Hcol
    by by apply add_teacher_column.
  destruct (most_frequent_label_first_max p i j) as (k & Hfm & Ek); [lia|].
  destruct (most_frequent_label_first_max q i j) as (k' & Hfm' & Ek').
  { cbn [dimT q add_teacher]. lia. }
  rewrite votes_at_class_counts in Hfm, Ek, Hfm', Ek'.
  rewrite Ek in Hlab. rewrite Ek' in Hlabq. rewrite Hcol in Hfm'.
  exists (LabelTensor (dimN p) (dimS p) lab),
         (LabelTensor (dimN p) (dimS p) labq),
         (Z.of_nat k + 1), (Z.of_nat k' + 1), v.
  split; [exact E|]. split; [exact Eq|].
  split; [exact Hlab|]. split; [exact Hlabq|]. split; [exact Hv|].
  assert (forall c x, class_counts (column p i j) !! c = Some x ->
            class_counts (column p i j ++ [v]) !! c
            = Some (x + (if decide (v = Z.of_nat c + 1) then 1 else 0)))
    as Hraise.
  { intros c x Hc.
    assert (c < 5)%nat as Hc5
      by (apply lookup_lt_Some in Hc; by rewrite class_counts_length in Hc).
    rewrite class_counts_snoc by done.
    rewrite class_counts_lookup in Hc by done. by injection Hc as ->. }
  assert (k' < 5)%nat as Hk'.
  { apply first_max_lt in Hfm'. by rewrite class_counts_length in Hfm'. }
  destruct (decide (1 <= v <= 5)) as [Hin|Hout].
  - assert (k' = k \/ k' = Z.to_nat (v - 1)) as [->| ->].
    { eapply (first_max_raise_one _ _ _ _ _ _ _ Hfm Hfm'). }
    + split; [by left|done].
    + split; [right; lia|intros; lia].
  - assert (k' = k) as ->.
    { eapply first_max_Z_unique; [exact Hfm'|].
      destruct Hfm as (x & Hx & Hle & Hlt). exists x.
      assert (forall c y, class_counts (column p i j ++ [v]) !! c = Some y ->
                class_counts (column p i j) !! c = Some y) as Hsame.
      { intros c y Hy.
        assert (c < 5)%nat as Hc5
          by (apply lookup_lt_Some in Hy; by rewrite class_counts_length in Hy).
        rewrite class_counts_snoc in Hy by done.
        rewrite decide_False in Hy by lia.
        rewrite class_counts_lookup by done. rewrite <- Hy. f_equal. lia. }
      assert (k < 5)%nat as Hk5
        by (apply lookup_lt_Some in Hx; by rewrite class_counts_length in Hx).
      split; [|split].
      - rewrite (Hraise _ _ Hx), decide_False by lia. f_equal. lia.
      - intros c y Hy. eauto.
      - intros c y Hc Hy. eauto. }
    split; [by left|done].
  Unshelve.
  + reflexivity.
  + intros c x Hc. rewrite (Hraise c x Hc). do 2 f_equal.
    destruct (decide (v = Z.of_nat c + 1)), (decide (c = Z.to_nat (v - 1)));
      lia.
Qed.

Lemma one_more_teacher_witness :
  wf_tensor3 MoreSamples.three_by_two /\
  Forall (fun v => 0 <= v < 2 ^ 31) (data3 MoreSamples.three_by_two) /\
  length TeacherSamples.fourth_teacher = 2%nat /\
  Forall (fun v => 0 <= v < 2 ^ 31) TeacherSamples.fourth_teacher /\
  exists r r' old new v,
    aggregation_most_frequent MoreSamples.three_by_two
      Samples.second_draw_high = (inr r, Samples.second_draw_high) /\
    aggregation_most_frequent
      (add_teacher MoreSamples.three_by_two TeacherSamples.fourth_teacher)
      Samples.second_draw_high = (inr r', Samples.second_draw_high) /\
    get_label r 0 0 = Some old /\
    get_label r' 0 0 = Some new /\
    TeacherSamples.fourth_teacher !! 0%nat = Some v /\
    (new = old \/ new = v).
Proof.
  assert (wf_tensor3 MoreSamples.three_by_two) as Hwf by reflexivity.
  assert (Forall (fun v => 0 <= v < 2 ^ 31) (data3 MoreSamples.three_by_two))
    as Hall by (repeat constructor; lia).
  assert (length TeacherSamples.fourth_teacher
          = (dimN MoreSamples.three_by_two
             * dimS MoreSamples.three_by_two)%nat) as Hlen by reflexivity.
  assert (Forall (fun v => 0 <= v < 2 ^ 31) TeacherSamples.fourth_teacher)
    as Hnew by (repeat constructor; lia).
  assert (Z.of_nat (dimT MoreSamples.three_by_two) + 1 < 2 ^ 31) as HT
    by reflexivity.
  assert (0 < dimN MoreSamples.three_by_two)%nat as Hi by (simpl; lia).
  assert (0 < dimS MoreSamples.three_by_two)%nat as Hj by (simpl; lia).
  split; [exact Hwf|]. split; [exact Hall|]. split; [exact Hlen|].
  split; [exact Hnew|].
  destruct (one_more_teacher MoreSamples.three_by_two
              TeacherSamples.fourth_teacher Samples.second_draw_high 0 0
              Hwf Hall Hlen Hnew HT Hi Hj)
    as (r & r' & old & new & v & E & E' & Hold & Hnew' & Hv & Hcases & _).
  exists r, r', old, new, v.
  split; [exact E|]. split; [exact E'|]. split; [exact Hold|].
  split; [exact Hnew'|]. split; [exact Hv|exact Hcases].
Defined.

(** ** The clean votes as numbers *)

(** X7. The clean votes are exact: with fewer than [2 ^ 53] teachers
    (and entries in the range [0, 2 ^ 31) of an int32 label), every entry
    of the float64 clean-votes array that [noisy_max] returns is a float
    that is an integer, the number of teachers that voted for the
    class. *)
Theorem clean_votes_exact p scale w :
  wf_tensor3 p ->
  Forall (fun v => 0 <= v < 2 ^ 31) (data3 p) ->
  rng_accepts w scale = true ->
  Z.of_nat (dimT p) < 2 ^ 53 ->
  exists lab cv w',
    noisy_max p scale true w = (inr (lab, Some cv), w') /\
    forall c i j, (c < 5)%nat -> (i < dimN p)%nat -> (j < dimS p)%nat ->
      exists x, get_votes cv c i j = Some x /\
                Float.to_Z x = Some (count_votes p c i j) /\
                Float.trunc x = Some (count_votes p c i j).
Proof.
  intros Hwf Hall Hok HT.
  destruct (noisy_max_returns p scale true w Hok
              (countable_columns p Hwf (int32_labels_countable _ Hall)))
    as (lab & cv & w' & E & _ & _ & _ & _ & _ & (l & -> & Hlen & Hl)).
  eexists _, _, w'. split; [exact E|].
  intros c i j Hc Hi Hj. eexists. split; [|split].
  - unfold get_votes. cbn [votes vN vS]. by apply Hl.
  - rewrite clean_value_votes by done.
    pose proof (count_votes_range p c i j).
    apply of_Z_integer; unfold Float.f64_prec, Float.f64_emax; lia.
  - rewrite clean_value_votes by done.
    pose proof (count_votes_range p c i j).
    apply trunc_of_Z; unfold Float.f64_prec, Float.f64_emax; lia.
Qed.

Lemma clean_votes_exact_witness :
  wf_tensor3 MoreSamples.three_by_two /\
  Forall (fun v => 0 <= v < 2 ^ 31) (data3 MoreSamples.three_by_two) /\
  rng_accepts Samples.second_draw_high Samples.one = true /\
  exists lab cv w',
    noisy_max MoreSamples.three_by_two Samples.one true
      Samples.second_draw_high = (inr (lab, Some cv), w') /\
    exists x, get_votes cv 3 0 1 = Some x /\ Float.to_Z x = Some 2.
Proof.
  assert (wf_tensor3 MoreSamples.three_by_two) as Hwf by reflexivity.
  assert (Forall (fun v => 0 <= v < 2 ^ 31) (data3 MoreSamples.three_by_two))
    as Hall by (repeat constructor; lia).
  assert (rng_accepts Samples.second_draw_high Samples.one = true) as Hok
    by reflexivity.
  assert (Z.of_nat (dimT MoreSamples.three_by_two) < 2 ^ 53) as HT
    by reflexivity.
  split; [exact Hwf|]. split; [exact Hall|]. split; [exact Hok|].
  destruct (clean_votes_exact MoreSamples.three_by_two Samples.one
              Samples.second_draw_high Hwf Hall Hok HT)
    as (lab & cv & w' & E & Hcv).
  exists lab, cv, w'. split; [exact E|].
  destruct (Hcv 3%nat 0%nat 1%nat) as (x & Hx & Hexact & _); [simpl; lia..|].
  exists x. split; [exact Hx|exact Hexact].
Defined.

(** ** Without noise *)

Lemma argmax_loop_of_counts mp best i l :
  0 <= mp < 2 ^ 24 -> Forall (fun c => 0 <= c < 2 ^ 24) l ->
  argmax_float_loop (Float.f32_of_Z mp) best i (map Float.f32_of_Z l)
  = argmax_int_loop mp best i l.
Proof.
  intros Hmp Hl. revert mp best i Hmp.
  induction Hl as [|x l Hx Hl IH]; intros mp best i Hmp; simpl; [done|].
  unfold Float.f32_of_Z at 1 2.
  rewrite of_Z_leb by (done || unfold Float.f32_prec, Float.f32_emax; lia).
  destruct (Z.leb_spec x mp) as [H|H].
  - rewrite (proj2 (Z.ltb_ge mp x)) by lia. by apply IH.
  - rewrite (proj2 (Z.ltb_lt mp x)) by lia.
    unfold Float.f32_of_Z at 1.
    rewrite of_Z_not_nan
      by (done || unfold Float.f32_prec, Float.f32_emax; lia).
    by apply IH.
Qed.

Lemma argmax_index_of_counts l :
  Forall (fun c => 0 <= c < 2 ^ 24) l ->
  argmax_float_index (map Float.f32_of_Z l) = argmax_int_index l.
Proof.
  intros Hl. destruct l as [|x l]; [reflexivity|].
  apply Forall_cons in Hl as [Hx Hl].
  unfold argmax_float_index, argmax_int_index. simpl.
  unfold Float.f32_of_Z at 1.
  rewrite of_Z_not_nan
    by (done || unfold Float.f32_prec, Float.f32_emax; lia).
  by rewrite argmax_loop_of_counts.
Qed.

Lemma class_counts_bound x :
  Forall (fun c => 0 <= c <= Z.of_nat (length x)) (class_counts x).
Proof.
  unfold class_counts.
  repeat constructor; try apply occurrences_nonneg;
    apply occurrences_le_length.
Qed.

Lemma noisy_label_without_noise rule x noise :
  Z.of_nat (length x) < 2 ^ 24 ->
  (forall k, is_zero (noise k) = true) ->
  noisy_label rule (class_counts x) noise
  = most_frequent_label (class_counts x).
Proof.
  intros Hlen Hnoise.
  assert (Forall (fun c => 0 <= c < 2 ^ 24) (class_counts x)) as Hrange.
  { eapply Forall_impl; [apply class_counts_bound|]. simpl. intros; lia. }
  unfold noisy_label, most_frequent_label. f_equal.
  assert (map wrap_int32 (class_counts x) = class_counts x) as ->.
  { rewrite <- (map_id (class_counts x)) at 2.
    apply map_ext_in. intros c Hc%list_elem_of_In.
    rewrite Forall_forall in Hrange. specialize (Hrange c Hc).
    apply wrap_int32_small. unfold in_int32, int32_min, int32_max. lia. }
  rewrite <- argmax_index_of_counts by done. f_equal.
  unfold class_counts in *. unfold noisy_counts. simpl imap.
  repeat match goal with
    | H : Forall _ (_ :: _) |- _ => apply Forall_cons in H as [? H]
    end.
  by rewrite !add_noise_zero by done.
Qed.

(** X6. Without noise the mechanism is the plurality vote: when every
    sample the generator returns is a zero, on a tensor with entries in
    the range [0, 2 ^ 31) of an int32 label and with fewer than [2 ^ 24]
    teachers, [noisy_max] returns exactly the labels of
    [aggregation_most_frequent]. *)
Theorem noisy_max_without_noise p scale rcv w :
  wf_tensor3 p ->
  Forall (fun v => 0 <= v < 2 ^ 31) (data3 p) ->
  rng_accepts w scale = true ->
  Z.of_nat (dimT p) < 2 ^ 24 ->
  (forall k, is_zero (rng w scale k) = true) ->
  exists lab cv w',
    noisy_max p scale rcv w = (inr (lab, cv), w') /\
    aggregation_most_frequent p w = (inr lab, w).
Proof.
  intros Hwf Hall Hok HT Hzero.
  pose proof (countable_columns p Hwf (int32_labels_countable _ Hall))
    as Hcols.
  destruct (noisy_max_returns p scale rcv w Hok Hcols)
    as (noisy & cv & w' & En & _ & _ & _ & Hlenn & Hnoisy & _).
  destruct (aggregation_most_frequent_returns p w Hcols)
    as (frequent & Ef & Hlenf & Hfrequent).
  exists (LabelTensor (dimN p) (dimS p) noisy), cv, w'.
  split; [exact En|]. rewrite Ef. do 3 f_equal.
  eapply (grid_determined (dimN p) (dimS p)); [done|done|exact Hfrequent|].
  intros i j Hi Hj. rewrite (Hnoisy i j Hi Hj). f_equal.
  apply noisy_label_without_noise.
  - by rewrite column_length.
  - intros k. apply Hzero.
Qed.

Lemma noisy_max_without_noise_witness :
  wf_tensor3 MoreSamples.three_by_two /\
  Forall (fun v => 0 <= v < 2 ^ 31) (data3 MoreSamples.three_by_two) /\
  rng_accepts NoiseSamples.silent_generator Samples.one = true /\
  exists lab cv w',
    noisy_max MoreSamples.three_by_two Samples.one true
      NoiseSamples.silent_generator = (inr (lab, cv), w') /\
    aggregation_most_frequent MoreSamples.three_by_two
      NoiseSamples.silent_generator
    = (inr lab, NoiseSamples.silent_generator).
Proof.
  assert (wf_tensor3 MoreSamples.three_by_two) as Hwf by reflexivity.
  assert (Forall (fun v => 0 <= v < 2 ^ 31) (data3 MoreSamples.three_by_two))
    as Hall by (repeat constructor; lia).
  assert (rng_accepts NoiseSamples.silent_generator Samples.one = true)
    as Hok by reflexivity.
  assert (Z.of_nat (dimT MoreSamples.three_by_two) < 2 ^ 24) as HT
    by reflexivity.
  assert (forall k, is_zero (rng NoiseSamples.silent_generator
                               Samples.one k) = true) as Hzero
    by (intros k; reflexivity).
  split; [exact Hwf|]. split; [exact Hall|]. split; [exact Hok|].
  exact (noisy_max_without_noise MoreSamples.three_by_two Samples.one true
           NoiseSamples.silent_generator Hwf Hall Hok HT Hzero).
Defined.

(** ** Noise that is an integer *)

Lemma noisy_label_integer_draws rule x noise (n : nat -> Z) :
  Z.of_nat (length x) < 2 ^ 24 ->
  (forall k, (k < 5)%nat ->
     Float.to_Z (noise k) = Some (n k) /\ - 2 ^ 24 < n k < 2 ^ 24) ->
  (forall c, (c < 5)%nat -> 0 <= class_counts x !!! c + n c < 2 ^ 24) ->
  noisy_label rule (class_counts x) noise
  = argmax_int_index (imap (fun k c => c + n k) (class_counts x)) + 1.
Proof.
  intros Hlen Hnoise Hsum.
  assert (Forall (fun c => 0 <= c < 2 ^ 24) (class_counts x)) as Hrange.
  { eapply Forall_impl; [apply class_counts_bound|]. simpl. intros; lia. }
  assert (forall c k, 0 <= c < 2 ^ 24 -> (k < 5)%nat ->
            0 <= c + n k < 2 ^ 24 ->
            add_noise rule (Float.f32_of_Z c) (noise k)
            = Float.f32_of_Z (c + n k)) as Hadd.
  { intros c k Hc Hk Hck. destruct (Hnoise k Hk) as [Hz Hn].
    apply add_noise_integer_eq; [done|done|lia|done]. }
  pose proof (Hsum 0%nat ltac:(lia)) as H0.
  pose proof (Hsum 1%nat ltac:(lia)) as H1.
  pose proof (Hsum 2%nat ltac:(lia)) as H2.
  pose proof (Hsum 3%nat ltac:(lia)) as H3.
  pose proof (Hsum 4%nat ltac:(lia)) as H4.
  unfold noisy_label. f_equal.
  unfold class_counts in *. unfold noisy_counts. simpl imap.
  simpl in H0, H1, H2, H3, H4.
  do 5 (apply Forall_cons in Hrange as [? Hrange]).
  rewrite !Hadd by (done || lia).
  apply (argmax_index_of_counts [_; _; _; _; _]).
  repeat (apply Forall_cons; split; [assumption|]). by apply Forall_nil.
Qed.

Lemma argmax_int_index_first_max (l : list Z) :
  (0 < length l)%nat ->
  exists k, argmax_int_index l = Z.of_nat k /\ first_max_Z l k.
Proof.
  intros Hlen. destruct l as [|x l]; [simpl in Hlen; lia|].
  unfold argmax_int_index.
  destruct (np_argmax_int_spec x l) as (k & -> & Hk). eauto.
Qed.

(** X14. With noise that is an integer the mechanism reports the noisy
    maximum over the integers: when every draw is an integer of fewer
    than 24 bits, there are fewer than [2 ^ 24] teachers and no noisy
    count is negative or reaches [2 ^ 24], the label of a sample is one
    plus the first position of the maximum of the five sums of a count
    and its draw, taken as integers, under both promotion rules. *)
Theorem noisy_max_integer_draws p scale rcv w (n : nat -> Z) :
  wf_tensor3 p ->
  Forall (fun v => 0 <= v < 2 ^ 31) (data3 p) ->
  rng_accepts w scale = true ->
  Z.of_nat (dimT p) < 2 ^ 24 ->
  (forall k, Float.to_Z (rng w scale k) = Some (n k) /\
             - 2 ^ 24 < n k < 2 ^ 24) ->
  (forall i j c, (i < dimN p)%nat -> (j < dimS p)%nat -> (c < 5)%nat ->
     0 <= count_votes p c i j
          + n (c + (5 * (i * dimS p + j) + rng_pos w))%nat < 2 ^ 24) ->
  exists lab cv w',
    noisy_max p scale rcv w
      = (inr (LabelTensor (dimN p) (dimS p) lab, cv), w') /\
    forall i j, (i < dimN p)%nat -> (j < dimS p)%nat ->
      let first := (5 * (i * dimS p + j) + rng_pos w)%nat in
      exists k,
        first_max_Z
          (map (fun c => count_votes p c i j + n (c + first)%nat) (seq 0 5))
          k /\
        get_label (LabelTensor (dimN p) (dimS p) lab) i j
        = Some (Z.of_nat k + 1).
Proof.
  intros Hwf Hall Hok HT Hdraws Hsums.
  destruct (noisy_max_returns p scale rcv w Hok
              (countable_columns p Hwf (int32_labels_countable _ Hall)))
    as (lab & cv & w' & E & _ & _ & _ & _ & Hlab & _).
  exists lab, cv, w'. split; [exact E|].
  intros i j Hi Hj first.
  set (sums := map (fun c => count_votes p c i j + n (c + first)%nat)
                   (seq 0 5)).
  destruct (argmax_int_index_first_max sums) as (k & Ek & Hk);
    [simpl; lia|].
  exists k. split; [exact Hk|].
  unfold get_label. cbn [labels cols]. rewrite (Hlab i j Hi Hj). f_equal.
  rewrite (noisy_label_integer_draws _ _ _ (fun c => n (c + first)%nat)).
  - rewrite class_counts_votes, <- Ek. reflexivity.
  - by rewrite column_length.
  - intros c Hc. apply Hdraws.
  - intros c Hc. rewrite class_counts_votes.
    pose proof (votes_at_lookup p i j c Hc) as Hv.
    apply list_lookup_total_correct in Hv. unfold votes_at in Hv.
    rewrite Hv. by apply Hsums.
Qed.

Lemma noisy_max_integer_draws_witness :
  wf_tensor3 Samples.three_teachers /\
  Forall (fun v => 0 <= v < 2 ^ 31) (data3 Samples.three_teachers) /\
  rng_accepts Samples.rising_draws_weak Samples.one = true /\
  map (fun c => count_votes Samples.three_teachers c 0 0
                + nth c [0; 3; 4] 0) (seq 0 5) = [2; 4; 4; 0; 0] /\
  exists lab cv w',
    noisy_max Samples.three_teachers Samples.one false
      Samples.rising_draws_weak = (inr (LabelTensor 1 1 lab, cv), w') /\
    get_label (LabelTensor 1 1 lab) 0 0 = Some 2.
Proof.
  assert (wf_tensor3 Samples.three_teachers) as Hwf by reflexivity.
  assert (Forall (fun v => 0 <= v < 2 ^ 31) (data3 Samples.three_teachers))
    as Hall by (repeat constructor; lia).
  assert (rng_accepts Samples.rising_draws_weak Samples.one = true)
    as Hok by reflexivity.
  assert (Z.of_nat (dimT Samples.three_teachers) < 2 ^ 24) as HT
    by reflexivity.
  assert (forall k,
            Float.to_Z (rng Samples.rising_draws_weak Samples.one k)
            = Some (nth k [0; 3; 4] 0) /\
            - 2 ^ 24 < nth k [0; 3; 4] 0 < 2 ^ 24) as Hdraws.
  { intros [|[|[|[|k]]]]; (split; [reflexivity|split; reflexivity]). }
  split; [exact Hwf|]. split; [exact Hall|]. split; [exact Hok|].
  split; [reflexivity|].
  destruct (noisy_max_integer_draws Samples.three_teachers Samples.one false
              Samples.rising_draws_weak (fun k => nth k [0; 3; 4] 0)
              Hwf Hall Hok HT Hdraws)
    as (lab & cv & w' & E & Hlab).
  - intros i j c Hi Hj Hc.
    assert (i = 0%nat /\ j = 0%nat) as [-> ->] by (simpl in *; lia).
    destruct c as [|[|[|[|[|c]]]]]; [..|lia]; vm_compute; split; congruence.
  - exists lab, cv, w'. split; [exact E|].
    destruct (Hlab 0%nat 0%nat) as (k & Hk & Hlabel); [simpl; lia..|].
    assert (k = 1%nat) as ->; [|exact Hlabel].
    match type of Hk with
    | first_max_Z ?l _ =>
        let l' := eval vm_compute in l in change (first_max_Z l' k) in Hk
    end.
    eapply first_max_Z_unique; [exact Hk|].
    exists 4. split; [reflexivity|]. split.
    + intros [|[|[|[|[|c]]]]] y Hy; simplify_eq/=; lia.
    + intros [|c] y Hc Hy; [|lia]. simplify_eq/=. lia.
Defined.

(** ** The release of NumPy *)

(** X12. The label can depend on the release of NumPy. With one vote for
    class 1 and one for class 2, a first draw of [2 ^ -24] and a second
    draw just above it, NumPy 1.x adds in float64 and stores the noisy
    scores 1.0 and [1 + 2 ^ -23], so the label is 2; NumPy 2 rounds the
    second draw to [2 ^ -24] first and both sums round to 1.0, so the
    label is 1. The generator and everything else are the same. *)
Theorem promotion_rule_decides_label :
  rng PromotionSamples.numpy_2 = rng PromotionSamples.legacy_numpy /\
  votes_at PromotionSamples.two_votes 0 0 = [1; 1; 0; 0; 0] /\
  noisy_scores Legacy PromotionSamples.two_votes 0 0
    (upcoming_noise PromotionSamples.legacy_numpy Samples.one)
  = [Float.f32_of_Z 1; S754_finite false 8388609 (-23);
     Samples.zero; Samples.zero; Samples.zero] /\
  noisy_scores Weak PromotionSamples.two_votes 0 0
    (upcoming_noise PromotionSamples.numpy_2 Samples.one)
  = [Float.f32_of_Z 1; Float.f32_of_Z 1;
     Samples.zero; Samples.zero; Samples.zero] /\
  (noisy_max PromotionSamples.two_votes Samples.one false
     PromotionSamples.legacy_numpy).1
  = inr (LabelTensor 1 1 [2], None) /\
  (noisy_max PromotionSamples.two_votes Samples.one false
     PromotionSamples.numpy_2).1
  = inr (LabelTensor 1 1 [1], None).
Proof. repeat split; vm_compute; reflexivity. Qed.

(** ** An empty last axis *)

(** X13. On scores whose last axis is empty [labels_from_probs] raises
    the [ValueError] of [np.argmax] whatever the other axes are, also when
    the array has no row at all, and leaves the interpreter state
    alone. *)
Theorem labels_from_probs_empty_axis_any_shape a w :
  last_dim a = 0%nat -> labels_from_probs a w = (inl ValueError, w).
Proof.
  intros HK. unfold labels_from_probs, np_argmax_last_axis. by rewrite HK.
Qed.

Lemma labels_from_probs_empty_axis_any_shape_witness :
  last_dim MoreSamples.no_rows = 0%nat /\
  lead_size MoreSamples.no_rows = 0%nat /\
  labels_from_probs MoreSamples.no_rows Samples.second_draw_high
  = (inl ValueError, Samples.second_draw_high).
Proof.
  assert (last_dim MoreSamples.no_rows = 0%nat) as HK by reflexivity.
  split; [exact HK|]. split; [reflexivity|].
  exact (labels_from_probs_empty_axis_any_shape MoreSamples.no_rows
           Samples.second_draw_high HK).
Defined.
